(** * The OctopOS boot-partition file system (file_system.c), embedded in Rocq

    The C program keeps its state in module-level variables; the embedding
    threads one record [fs] through every function.  Machine integers are
    [Z] with the wrap-around of [uint8_t], [uint16_t] and [uint32_t]
    written out, byte buffers are [list Z], the block device (one host file
    per block) is a finite map from block numbers to the bytes of the
    block file, and a [struct file *] is the position of the record in the
    file list (records are never unlinked, so positions are stable). *)

From Stdlib Require Import ZArith Lia Bool String Ascii.
From stdpp Require Import base tactics option list gmap.

Local Open Scope Z_scope.

(** ** Constants of file_system.h *)

Definition MAX_NUM_FD : Z := 64.
Definition FILE_OPEN_MODE : Z := 0.
Definition FILE_OPEN_CREATE_MODE : Z := 1.
Definition STORAGE_BLOCK_SIZE : Z := 512.
Definition DIR_DATA_NUM_BLOCKS : Z := 2.
Definition DIR_DATA_SIZE : Z := STORAGE_BLOCK_SIZE * DIR_DATA_NUM_BLOCKS.
Definition MAX_FILENAME_SIZE : Z := 256.
Definition ERR_INVALID : Z := -2.
Definition ERR_EXIST : Z := -5.
Definition ERR_MEMORY : Z := -6.
Definition ERR_FOUND : Z := -7.

(** ** Machine integers and byte buffers *)

Definition u8 (x : Z) : Z := x mod 256.
Definition u16 (x : Z) : Z := x mod 65536.
Definition u32 (x : Z) : Z := x mod 4294967296.

(** [peek buf off n] is the [n] bytes of [buf] from offset [off];
    [poke buf off bs] stores the bytes [bs] at offset [off]. *)
Definition peek (buf : list Z) (off : Z) (n : Z) : list Z :=
  take (Z.to_nat n) (drop (Z.to_nat off) buf).

Definition poke (buf : list Z) (off : Z) (bs : list Z) : list Z :=
  take (Z.to_nat off) buf ++ bs ++ drop (Z.to_nat off + length bs)%nat buf.

(** [memcpy(dst + off, src, n)]. *)
Definition memcpy (dst : list Z) (off : Z) (src : list Z) (n : Z) : list Z :=
  poke dst off (take (Z.to_nat n) src).

(** Stores and loads through [uint16_t *] and [uint32_t *] casts into a
    byte buffer (little-endian host). *)
Definition le16 (v : Z) : list Z := [v mod 256; (v / 256) mod 256].
Definition le32 (v : Z) : list Z :=
  [v mod 256; (v / 256) mod 256; (v / 65536) mod 256; (v / 16777216) mod 256].

Definition rd16 (buf : list Z) (off : Z) : Z :=
  match peek buf off 2 with
  | [a; b] => a + 256 * b
  | _ => 0
  end.

Definition rd32 (buf : list Z) (off : Z) : Z :=
  match peek buf off 4 with
  | [a; b; c; d] => a + 256 * b + 65536 * c + 16777216 * d
  | _ => 0
  end.

(** The C string starting at [off]: the bytes before the first NUL. *)
Fixpoint cstring (l : list Z) : list Z :=
  match l with
  | [] => []
  | b :: l' => if decide (b = 0) then [] else b :: cstring l'
  end.

Definition cstring_at (buf : list Z) (off : Z) : list Z :=
  cstring (drop (Z.to_nat off) buf).

(** Bytes of a Rocq string literal, for examples. *)
Fixpoint bytes_of_string (s : string) : list Z :=
  match s with
  | EmptyString => []
  | String c s' => Z.of_N (N_of_ascii c) :: bytes_of_string s'
  end.

(** ** The block device

    [write_blocks] and [read_blocks] go through one host file
    ["block<n>.txt"] per block.  The device is modelled as a finite map
    from block numbers to file contents; [fopen] for reading fails exactly
    on a block that was never written, and writing always succeeds. *)

Definition zero_buf : list Z := replicate (Z.to_nat STORAGE_BLOCK_SIZE) 0.

Fixpoint write_blocks_loop (data : list Z) (start_block i : Z) (n : nat)
    (written : Z) (st : gmap Z (list Z)) : Z * gmap Z (list Z) :=
  match n with
  | O => (written, st)
  | S n' =>
      let block_num := u32 (start_block + i) in
      let chunk := peek data (i * STORAGE_BLOCK_SIZE) STORAGE_BLOCK_SIZE in
      let ret := Z.of_nat (length chunk) in
      let st' := <[block_num := chunk]> st in
      if decide (ret = 0) then (written, st')
      else write_blocks_loop data start_block (i + 1) n' (written + ret) st'
  end.

Definition write_blocks (data : list Z) (start_block num_blocks : Z)
    (st : gmap Z (list Z)) : Z * gmap Z (list Z) :=
  write_blocks_loop data start_block 0 (Z.to_nat num_blocks) 0 st.

Fixpoint read_blocks_loop (data : list Z) (start_block i : Z) (n : nat)
    (read : Z) (st : gmap Z (list Z)) : list Z * Z * gmap Z (list Z) :=
  match n with
  | O => (data, read, st)
  | S n' =>
      let block_num := u32 (start_block + i) in
      let st1 :=
        match st !! block_num with
        | None => snd (write_blocks zero_buf block_num 1 st)
        | Some _ => st
        end in
      match st1 !! block_num with
      | None => (data, read, st1)
      | Some b =>
          let chunk := take (Z.to_nat STORAGE_BLOCK_SIZE) b in
          let ret := Z.of_nat (length chunk) in
          let data' := poke data (i * STORAGE_BLOCK_SIZE) chunk in
          if decide (ret = STORAGE_BLOCK_SIZE)
          then read_blocks_loop data' start_block (i + 1) n' (read + ret) st1
          else (data', read + ret, st1)
      end
  end.

Definition read_blocks (data : list Z) (start_block num_blocks : Z)
    (st : gmap Z (list Z)) : list Z * Z * gmap Z (list Z) :=
  read_blocks_loop data start_block 0 (Z.to_nat num_blocks) 0 st.

(** [read_from_block] returns the bytes copied to the caller's buffer and
    the count.  The local [buf] is only used after a full block was read
    into it. *)
Definition read_from_block (block_num block_offset read_size : Z)
    (st : gmap Z (list Z)) : list Z * Z * gmap Z (list Z) :=
  if decide (u32 (block_offset + read_size) > STORAGE_BLOCK_SIZE) then ([], 0, st)
  else
    let '(buf, ret, st') := read_blocks zero_buf block_num 1 st in
    if decide (ret = STORAGE_BLOCK_SIZE)
    then (peek buf block_offset read_size, read_size, st')
    else ([], 0, st').

Definition write_to_block (data : list Z) (block_num block_offset write_size : Z)
    (st : gmap Z (list Z)) : Z * gmap Z (list Z) :=
  if decide (u32 (block_offset + write_size) > STORAGE_BLOCK_SIZE) then (0, st)
  else
    let whole := bool_decide (block_offset = 0 ∧ write_size = STORAGE_BLOCK_SIZE) in
    let '(buf, read_ret, st1) :=
      if whole then (zero_buf, STORAGE_BLOCK_SIZE, st)
      else read_blocks zero_buf block_num 1 st in
    if decide (read_ret = STORAGE_BLOCK_SIZE) then
      let buf' := memcpy buf block_offset data write_size in
      let '(ret, st2) := write_blocks buf' block_num 1 st1 in
      if decide (ret >= write_size) then (write_size, st2) else (ret, st2)
    else (0, st1).

(** ** Program state *)

(** [filename] is the C string held in [char filename[MAX_FILENAME_SIZE]],
    without its terminator.  The array holds names of up to 255 bytes with
    their terminator; the program also accepts a name of exactly
    MAX_FILENAME_SIZE bytes, whose terminator [strcpy] then stores one
    byte past the array.  The embedding keeps such a name as it is and
    does not model where that byte lands. *)
Record file := File {
  filename : list Z;
  start_block : Z;
  num_blocks : Z;
  size : Z;
  dir_data_off : Z;
  opened : bool
}.

Record fs := Fs {
  partition_num_blocks : Z;
  fd_bitmap : list Z;                 (* MAX_NUM_FD / 8 bytes *)
  file_array : list (option nat);     (* MAX_NUM_FD slots, NULL = None *)
  file_list : list file;              (* head to tail *)
  dir_data : list Z;                  (* DIR_DATA_SIZE bytes *)
  dir_data_ptr : Z;
  storage : gmap Z (list Z)
}.

Definition set_fd_bitmap (s : fs) (bm : list Z) : fs :=
  Fs (partition_num_blocks s) bm (file_array s) (file_list s)
     (dir_data s) (dir_data_ptr s) (storage s).
Definition set_file_array (s : fs) (fa : list (option nat)) : fs :=
  Fs (partition_num_blocks s) (fd_bitmap s) fa (file_list s)
     (dir_data s) (dir_data_ptr s) (storage s).
Definition set_file_list (s : fs) (l : list file) : fs :=
  Fs (partition_num_blocks s) (fd_bitmap s) (file_array s) l
     (dir_data s) (dir_data_ptr s) (storage s).
Definition set_dir_data (s : fs) (d : list Z) : fs :=
  Fs (partition_num_blocks s) (fd_bitmap s) (file_array s) (file_list s)
     d (dir_data_ptr s) (storage s).
Definition set_dir_data_ptr (s : fs) (p : Z) : fs :=
  Fs (partition_num_blocks s) (fd_bitmap s) (file_array s) (file_list s)
     (dir_data s) p (storage s).
Definition set_storage (s : fs) (st : gmap Z (list Z)) : fs :=
  Fs (partition_num_blocks s) (fd_bitmap s) (file_array s) (file_list s)
     (dir_data s) (dir_data_ptr s) st.

Definition set_extent (f : file) (sb nb : Z) : file :=
  File (filename f) sb nb (size f) (dir_data_off f) (opened f).
Definition set_size (f : file) (sz : Z) : file :=
  File (filename f) (start_block f) (num_blocks f) sz (dir_data_off f) (opened f).
Definition set_dir_data_off (f : file) (off : Z) : file :=
  File (filename f) (start_block f) (num_blocks f) (size f) off (opened f).
Definition set_opened (f : file) (o : bool) : file :=
  File (filename f) (start_block f) (num_blocks f) (size f) (dir_data_off f) o.

(** In-place update of the record behind a [struct file *]. *)
Definition update_file (s : fs) (i : nat) (g : file → file) : fs :=
  match file_list s !! i with
  | Some f => set_file_list s (<[i := g f]> (file_list s))
  | None => s
  end.

(** ** Descriptor bitmap *)

(** The inner loop of [get_unused_fd] over the bits of one byte, with the
    running [mask]; returns the new byte and the bit index. *)
Fixpoint scan_byte (b mask j : Z) (n : nat) : option (Z * Z) :=
  match n with
  | O => None
  | S n' =>
      if decide (u8 (Z.lor b (Z.lnot mask)) ≠ 255)
      then Some (u8 (Z.lor b mask), j)
      else scan_byte b (u8 (Z.shiftl mask 1)) (j + 1) n'
  end.

(** The outer loop over the bytes of the bitmap, from byte [i]. *)
Fixpoint scan_bitmap (bm : list Z) (i : Z) : option (list Z * Z) :=
  match bm with
  | [] => None
  | b :: bm' =>
      if decide (b = 255)
      then match scan_bitmap bm' (i + 1) with
           | Some (r, fd) => Some (b :: r, fd)
           | None => None
           end
      else match scan_byte b 1 0 8 with
           | Some (b', j) => Some (b' :: bm', i * 8 + j + 1)
           | None =>
               match scan_bitmap bm' (i + 1) with
               | Some (r, fd) => Some (b :: r, fd)
               | None => None
               end
           end
  end.

Definition get_unused_fd (s : fs) : Z * fs :=
  match scan_bitmap (fd_bitmap s) 0 with
  | Some (bm, fd) => (fd, set_fd_bitmap s bm)
  | None => (ERR_EXIST, s)
  end.

(** [mask = mask << 1], [n] times. *)
Fixpoint shift_mask (mask : Z) (n : nat) : Z :=
  match n with
  | O => mask
  | S n' => shift_mask (u8 (Z.shiftl mask 1)) n'
  end.

Definition mark_fd_as_unused (_fd : Z) (s : fs) : fs :=
  let fd := _fd - 1 in
  if decide (fd >= MAX_NUM_FD) then s
  else
    let byte_off := Z.quot fd 8 in
    let bit_off := Z.rem fd 8 in
    let mask := shift_mask 1 (Z.to_nat bit_off) in
    match fd_bitmap s !! Z.to_nat byte_off with
    | Some b =>
        set_fd_bitmap s
          (<[Z.to_nat byte_off := u8 (Z.land b (Z.lnot mask))]> (fd_bitmap s))
    | None => s
    end.

(** ** Directory *)

Definition add_file_to_list (f : file) (s : fs) : fs :=
  set_file_list s (file_list s ++ [f]).

Definition flush_dir_data_to_storage (s : fs) : fs :=
  set_storage s (snd (write_blocks (dir_data s) 0 DIR_DATA_NUM_BLOCKS (storage s))).

Definition read_dir_data_from_storage (s : fs) : fs :=
  let '(d, _, st) := read_blocks (dir_data s) 0 DIR_DATA_NUM_BLOCKS (storage s) in
  set_storage (set_dir_data s d) st.

(** [strlen(file->filename)]. *)
Definition strlen (name : list Z) : Z := Z.of_nat (length name).

Definition update_file_in_directory (f : file) (s : fs) : Z * fs :=
  let dir_data_off := dir_data_off f in
  let filename_size := strlen (filename f) in
  if decide (filename_size > MAX_FILENAME_SIZE) then (ERR_INVALID, s)
  else if decide (dir_data_off + filename_size + 15 > DIR_DATA_SIZE) then (ERR_MEMORY, s)
  else
    let d := poke (dir_data s) dir_data_off (le16 (u16 filename_size)) in
    let dir_data_off := dir_data_off + 2 in
    let d := poke d dir_data_off (filename f ++ [0]) in
    let dir_data_off := dir_data_off + (filename_size + 1) in
    let d := poke d dir_data_off (le32 (start_block f)) in
    let dir_data_off := dir_data_off + 4 in
    let d := poke d dir_data_off (le32 (num_blocks f)) in
    let dir_data_off := dir_data_off + 4 in
    let d := poke d dir_data_off (le32 (size f)) in
    (0, set_dir_data s d).

(** The record is freshly allocated and not yet in the list, so it is
    passed and returned by value. *)
Definition add_file_to_directory (f : file) (s : fs) : Z * file * fs :=
  let f := set_dir_data_off f (dir_data_ptr s) in
  let '(ret, s) := update_file_in_directory f s in
  if decide (ret ≠ 0) then (ret, f, s)
  else
    let s := set_dir_data_ptr s (dir_data_ptr s + (strlen (filename f) + 15)) in
    let s := set_dir_data s (poke (dir_data s) 4 (le16 (u16 (rd16 (dir_data s) 4 + 1)))) in
    let s := flush_dir_data_to_storage s in
    (0, f, s).

(** ** Allocator *)

(** The scan of [expand_existing_file]: [false] as soon as some record
    starts inside the tail range (the loop's [found = false; break]). *)
Fixpoint tail_free (l : list file) (lo hi : Z) : bool :=
  match l with
  | [] => true
  | g :: l' =>
      if bool_decide (start_block g >= lo) && bool_decide (start_block g < hi)
      then false
      else tail_free l' lo hi
  end.

(** [write_blocks(zero_buf, first + i, 1)] for [i] from [i] up, [n] times. *)
Fixpoint zero_blocks (first i : Z) (n : nat) (st : gmap Z (list Z)) : gmap Z (list Z) :=
  match n with
  | O => st
  | S n' => zero_blocks first (u32 (i + 1)) n' (snd (write_blocks zero_buf (u32 (first + i)) 1 st))
  end.

Definition expand_existing_file (i : nat) (needed_blocks : Z) (s : fs) : Z * fs :=
  match file_list s !! i with
  | None => (ERR_INVALID, s)
  | Some f =>
      let tail := u32 (start_block f + num_blocks f) in
      if tail_free (file_list s) tail (u32 (tail + needed_blocks)) then
        if decide (u32 (tail + needed_blocks) >= partition_num_blocks s)
        then (ERR_FOUND, s)
        else
          let s := set_storage s (zero_blocks tail 0 (Z.to_nat needed_blocks) (storage s)) in
          (0, update_file s i (λ f, set_extent f (start_block f) (u32 (num_blocks f + needed_blocks))))
      else (ERR_FOUND, s)
  end.

(** The scan of [expand_empty_file] over the list, with the running
    [start_block]. *)
Fixpoint last_block_scan (l : list file) (sb : Z) : Z :=
  match l with
  | [] => sb
  | g :: l' =>
      last_block_scan l'
        (if decide (start_block g >= sb) then u32 (start_block g + num_blocks g) else sb)
  end.

Definition expand_empty_file (i : nat) (needed_blocks : Z) (s : fs) : Z * fs :=
  let sb := last_block_scan (file_list s) DIR_DATA_NUM_BLOCKS in
  if decide (u32 (sb + needed_blocks) >= partition_num_blocks s) then (ERR_FOUND, s)
  else
    let s := set_storage s (zero_blocks sb 0 (Z.to_nat needed_blocks) (storage s)) in
    (0, update_file s i (λ f, set_extent f sb needed_blocks)).

Definition expand_file_size (i : nat) (sz : Z) (s : fs) : Z * fs :=
  match file_list s !! i with
  | None => (ERR_INVALID, s)
  | Some f =>
      if decide (size f >= sz) then (0, s)
      else
        let empty_file := bool_decide (size f = 0) in
        let needed_size := if empty_file then sz else u32 (sz - size f) in
        let leftover := u32 (STORAGE_BLOCK_SIZE - size f mod STORAGE_BLOCK_SIZE) in
        let '(ret, s) :=
          if bool_decide (leftover ≠ STORAGE_BLOCK_SIZE) && bool_decide (leftover >= needed_size)
          then (0, s)
          else
            let needed_blocks := needed_size / STORAGE_BLOCK_SIZE in
            let needed_blocks :=
              if decide (needed_size mod STORAGE_BLOCK_SIZE ≠ 0)
              then u32 (needed_blocks + 1) else needed_blocks in
            if empty_file then expand_empty_file i needed_blocks s
            else expand_existing_file i needed_blocks s in
        if decide (ret = 0) then
          let s := update_file s i (λ f, set_size f sz) in
          let '(ret, s) :=
            match file_list s !! i with
            | Some f => update_file_in_directory f s
            | None => (ERR_INVALID, s)
            end in
          (ret, flush_dir_data_to_storage s)
        else (ret, s)
  end.

(** ** Public API *)

(** The search loop of [file_system_open_file]: [None] is the early
    [return 0] on a matching record that is open, otherwise the last
    matching record seen (or [cur]). *)
Fixpoint find_file (name : list Z) (l : list file) (i : nat) (cur : option nat)
    : option (option nat) :=
  match l with
  | [] => Some cur
  | g :: l' =>
      if decide (filename g = name)
      then if opened g then None else find_file name l' (S i) (Some i)
      else find_file name l' (S i) cur
  end.

(** The tail of [file_system_open_file], once [file] is not NULL. *)
Definition install_fd (i : nat) (s : fs) : Z * fs :=
  let '(ret, s) := get_unused_fd s in
  if decide (ret < 0) then (0, s)
  else
    let fd := u32 ret in
    if decide (fd = 0 ∨ fd >= MAX_NUM_FD) then (0, s)
    else
      match file_array s !! Z.to_nat fd with
      | Some None =>
          let s := set_file_array s (<[Z.to_nat fd := Some i]> (file_array s)) in
          (fd, update_file s i (λ f, set_opened f true))
      | _ => (0, s)
      end.

(** [malloc] does not initialise the new record: [uninit_off] and
    [uninit_opened] stand for whatever its [dir_data_off] and [opened]
    fields hold before the program assigns them. *)
Definition file_system_open_file (uninit_off : Z) (uninit_opened : bool)
    (name : list Z) (mode : Z) (s : fs) : Z * fs :=
  if decide (¬ (mode = FILE_OPEN_MODE ∨ mode = FILE_OPEN_CREATE_MODE)) then (0, s)
  else
    match find_file name (file_list s) 0 None with
    | None => (0, s)
    | Some (Some i) => install_fd i s
    | Some None =>
        if decide (mode = FILE_OPEN_CREATE_MODE) then
          let f := File name 0 0 0 uninit_off uninit_opened in
          let '(ret, f, s') := add_file_to_directory f s in
          if decide (ret ≠ 0) then (0, s')
          else
            let i := length (file_list s') in
            install_fd i (add_file_to_list f s')
        else (0, s)
    end.

(** The transfer loop of [file_system_write_to_file].  Every iteration
    that does not leave the loop writes at least one byte, so
    [size / STORAGE_BLOCK_SIZE + 2] iterations are enough ([fuel]);
    [write_loop_aligned] shows it for transfers that start at offset 0.
    [data] is the caller's buffer, which holds at least [sz] bytes. *)
Fixpoint write_loop (fuel : nat) (data : list Z) (first sz written_size
    block_num block_offset next_write_size : Z) (st : gmap Z (list Z))
    : Z * gmap Z (list Z) :=
  match fuel with
  | O => (written_size, st)
  | S fuel' =>
      if decide (written_size < sz) then
        let '(ret, st) :=
          write_to_block (drop (Z.to_nat written_size) data)
            (u32 (first + block_num)) block_offset next_write_size st in
        if decide (ret ≠ next_write_size) then (u32 (written_size + ret), st)
        else
          let written_size := u32 (written_size + next_write_size) in
          let block_num := u32 (block_num + 1) in
          let block_offset := 0 in
          let next_write_size :=
            if decide (u32 (sz - written_size) >= STORAGE_BLOCK_SIZE)
            then u32 (STORAGE_BLOCK_SIZE - block_offset)
            else u32 (sz - written_size) in
          write_loop fuel' data first sz written_size block_num block_offset
            next_write_size st
      else (written_size, st)
  end.

Definition loop_fuel (sz : Z) : nat := Z.to_nat (sz / STORAGE_BLOCK_SIZE + 2).

Definition file_system_write_to_file (fd : Z) (data : list Z) (sz offset : Z)
    (s : fs) : Z * fs :=
  if decide (fd = 0 ∨ fd >= MAX_NUM_FD) then (0, s)
  else
    match file_array s !! Z.to_nat fd with
    | Some (Some i) =>
        match file_list s !! i with
        | None => (0, s)
        | Some f =>
            if negb (opened f) then (0, s)
            else if bool_decide (size f < u32 (offset + sz)) && bool_decide (offset > size f)
            then (0, s)
            else
              let s :=
                if decide (size f < u32 (offset + sz))
                then snd (expand_file_size i (u32 (offset + sz)) s)
                else s in
              match file_list s !! i with
              | None => (0, s)
              | Some f =>
                  if decide (offset >= size f) then (0, s)
                  else
                    let sz :=
                      if decide (size f < u32 (offset + sz))
                      then u32 (size f - offset) else sz in
                    let block_num := offset / STORAGE_BLOCK_SIZE in
                    let block_offset := offset mod STORAGE_BLOCK_SIZE in
                    let next_write_size := u32 (STORAGE_BLOCK_SIZE - block_offset) in
                    let next_write_size :=
                      if decide (next_write_size > sz) then sz else next_write_size in
                    let '(written_size, st) :=
                      write_loop (loop_fuel sz) data (start_block f) sz 0
                        block_num block_offset next_write_size (storage s) in
                    (written_size, set_storage s st)
              end
        end
    | _ => (0, s)
    end.

(** The transfer loop of [file_system_read_from_file]; [out] is the part
    of the caller's buffer filled so far. *)
Fixpoint read_loop (fuel : nat) (out : list Z) (first sz read_size
    block_num block_offset next_read_size : Z) (st : gmap Z (list Z))
    : list Z * Z * gmap Z (list Z) :=
  match fuel with
  | O => (out, read_size, st)
  | S fuel' =>
      if decide (read_size < sz) then
        let '(bytes, ret, st) :=
          read_from_block (u32 (first + block_num)) block_offset next_read_size st in
        if decide (ret ≠ next_read_size) then (out ++ bytes, u32 (read_size + ret), st)
        else
          let read_size := u32 (read_size + next_read_size) in
          let block_num := u32 (block_num + 1) in
          let block_offset := 0 in
          let next_read_size :=
            if decide (u32 (sz - read_size) >= STORAGE_BLOCK_SIZE)
            then u32 (STORAGE_BLOCK_SIZE - block_offset)
            else u32 (sz - read_size) in
          read_loop fuel' (out ++ bytes) first sz read_size block_num block_offset
            next_read_size st
      else (out, read_size, st)
  end.

(** Returns the bytes stored into the caller's buffer, the count, and the
    new state. *)
Definition file_system_read_from_file (fd : Z) (sz offset : Z) (s : fs)
    : list Z * Z * fs :=
  if decide (fd = 0 ∨ fd >= MAX_NUM_FD) then ([], 0, s)
  else
    match file_array s !! Z.to_nat fd with
    | Some (Some i) =>
        match file_list s !! i with
        | None => ([], 0, s)
        | Some f =>
            if negb (opened f) then ([], 0, s)
            else if decide (offset >= size f) then ([], 0, s)
            else
              let sz :=
                if decide (size f < u32 (offset + sz))
                then u32 (size f - offset) else sz in
              let block_num := offset / STORAGE_BLOCK_SIZE in
              let block_offset := offset mod STORAGE_BLOCK_SIZE in
              let next_read_size := u32 (STORAGE_BLOCK_SIZE - block_offset) in
              let next_read_size :=
                if decide (next_read_size > sz) then sz else next_read_size in
              let '(out, read_size, st) :=
                read_loop (loop_fuel sz) [] (start_block f) sz 0
                  block_num block_offset next_read_size (storage s) in
              (out, read_size, set_storage s st)
        end
    | _ => ([], 0, s)
    end.

Definition file_system_close_file (fd : Z) (s : fs) : Z * fs :=
  if decide (fd = 0 ∨ fd >= MAX_NUM_FD) then (ERR_INVALID, s)
  else
    match file_array s !! Z.to_nat fd with
    | Some (Some i) =>
        match file_list s !! i with
        | None => (ERR_INVALID, s)
        | Some f =>
            if negb (opened f) then (ERR_INVALID, s)
            else
              let s := update_file s i (λ f, set_opened f false) in
              let s := set_file_array s (<[Z.to_nat fd := None]> (file_array s)) in
              (0, mark_fd_as_unused fd s)
        end
    | _ => (ERR_INVALID, s)
    end.

(** The record-parsing loop of [initialize_file_system]: [n] iterations
    left, [ptr] is [dir_data_ptr], [l] the list built so far.  Returns the
    final [dir_data_ptr] and list. *)
Fixpoint parse_directory (n : nat) (d : list Z) (ptr : Z) (l : list file)
    : Z * list file :=
  match n with
  | O => (ptr, l)
  | S n' =>
      let dir_data_off := ptr in
      if decide (ptr + 2 > DIR_DATA_SIZE) then (ptr, l)
      else
        let filename_size := rd16 d ptr in
        if decide (ptr + filename_size + 15 > DIR_DATA_SIZE) then (ptr, l)
        else
          let ptr := ptr + 2 in
          if decide (filename_size > MAX_FILENAME_SIZE) then (ptr, l)
          else
            let name := cstring_at d ptr in
            let ptr := ptr + filename_size + 1 in
            let sb := rd32 d ptr in
            let ptr := ptr + 4 in
            let nb := rd32 d ptr in
            let ptr := ptr + 4 in
            let sz := rd32 d ptr in
            let ptr := ptr + 4 in
            parse_directory n' d ptr (l ++ [File name sb nb sz dir_data_off false])
  end.

(** The signature bytes '$', '%', '^', '&'. *)
Definition signature : list Z := [36; 37; 94; 38].

Definition initial_fd_bitmap : list Z :=
  1 :: replicate (Z.to_nat (MAX_NUM_FD / 8) - 1) 0.

Definition initialize_file_system (_partition_num_blocks : Z) (s : fs) : fs :=
  let s := set_file_list s [] in
  let s := set_dir_data_ptr s 0 in
  let s := Fs 0 (fd_bitmap s) (file_array s) (file_list s)
              (dir_data s) (dir_data_ptr s) (storage s) in
  let s := set_fd_bitmap s initial_fd_bitmap in
  let s := Fs _partition_num_blocks (fd_bitmap s) (file_array s) (file_list s)
              (dir_data s) (dir_data_ptr s) (storage s) in
  let s := read_dir_data_from_storage s in
  let s :=
    if decide (peek (dir_data s) 0 4 = signature) then
      let num_files := rd16 (dir_data s) 4 in
      let '(ptr, l) := parse_directory (Z.to_nat num_files) (dir_data s) 6 [] in
      set_file_list (set_dir_data_ptr s ptr) l
    else
      let s := set_dir_data s (poke (dir_data s) 0 (signature ++ [0; 0])) in
      let s := set_dir_data_ptr s 6 in
      flush_dir_data_to_storage s in
  set_file_array s (replicate (Z.to_nat MAX_NUM_FD) None).

Definition close_file_system (s : fs) : fs :=
  flush_dir_data_to_storage s.

(** The state of the module-level variables when the process starts
    (zero-initialised), over a given block device. *)
Definition boot (st : gmap Z (list Z)) : fs :=
  Fs 0 (replicate (Z.to_nat (MAX_NUM_FD / 8)) 0) (replicate (Z.to_nat MAX_NUM_FD) None)
     [] (replicate (Z.to_nat DIR_DATA_SIZE) 0) 0 st.

(** ** Running the program on small inputs *)

Definition hello : list Z := bytes_of_string "hello".
Definition hello_text : list Z := bytes_of_string "This is text in hello".

Definition demo : list Z * Z :=
  let s := initialize_file_system 390 (boot ∅) in
  let '(fd, s) := file_system_open_file 0 false hello FILE_OPEN_CREATE_MODE s in
  let '(_, s) := file_system_write_to_file fd hello_text 21 0 s in
  let '(_, s) := file_system_close_file fd s in
  let s := close_file_system s in
  let s := initialize_file_system 390 s in
  let '(fd, s) := file_system_open_file 0 false hello FILE_OPEN_MODE s in
  let '(out, n, s) := file_system_read_from_file fd 21 0 s in
  (out, n).

(** ** Calls and reachable states *)

Inductive call :=
  | Open (uninit_off : Z) (uninit_opened : bool) (name : list Z) (mode : Z)
  | Write (fd : Z) (data : list Z) (sz offset : Z)
  | Read (fd sz offset : Z)
  | Close (fd : Z)
  | Shutdown
  | Restart.

Definition restart (s : fs) : fs :=
  initialize_file_system (partition_num_blocks s) (close_file_system s).

Definition exec (c : call) (s : fs) : fs :=
  match c with
  | Open uo ub name mode => snd (file_system_open_file uo ub name mode s)
  | Write fd data sz offset => snd (file_system_write_to_file fd data sz offset s)
  | Read fd sz offset => snd (file_system_read_from_file fd sz offset s)
  | Close fd => snd (file_system_close_file fd s)
  | Shutdown => close_file_system s
  | Restart => restart s
  end.

Definition is_u32 (x : Z) : Prop := 0 ≤ x < 4294967296.

(** A C string: no NUL inside, every element a byte. *)
Definition c_string (name : list Z) : Prop := Forall (λ b, 0 < b < 256) name.

(** The arguments are values of their C types. *)
Definition call_ok (c : call) : Prop :=
  match c with
  | Open _ _ name mode => c_string name ∧ is_u32 mode
  | Write fd _ sz offset => is_u32 fd ∧ is_u32 sz ∧ is_u32 offset
  | Read fd sz offset => is_u32 fd ∧ is_u32 sz ∧ is_u32 offset
  | Close fd => is_u32 fd
  | Shutdown | Restart => True
  end.

(** A device that does not carry the directory signature. *)
Definition unformatted (st : gmap Z (list Z)) : Prop :=
  peek (dir_data (read_dir_data_from_storage (boot st))) 0 4 ≠ signature.

(** The states the program gets into: initialisation over a device
    that was never formatted, then any calls; [Restart] brings in every
    device the file system itself has written. *)
Inductive reachable : fs → Prop :=
  | reach_init N st :
      is_u32 N → unformatted st → reachable (initialize_file_system N (boot st))
  | reach_step c s :
      reachable s → call_ok c → reachable (exec c s).

(** ** Invariants *)

(** The bit that [get_unused_fd] sets when it returns [d], and that
    [mark_fd_as_unused d] clears. *)
Definition bitmap_bit (bm : list Z) (k : Z) : bool :=
  match bm !! Z.to_nat (k / 8) with
  | Some b => Z.testbit b (k mod 8)
  | None => false
  end.

Definition fd_bit (bm : list Z) (d : Z) : bool := bitmap_bit bm (d - 1).

Definition fd_inv (s : fs) : Prop :=
  length (fd_bitmap s) = 8%nat ∧
  Forall (λ b, 0 ≤ b < 256) (fd_bitmap s) ∧
  length (file_array s) = 64%nat ∧
  fd_bit (fd_bitmap s) 1 = true ∧
  file_array s !! 0%nat = Some None ∧
  file_array s !! 1%nat = Some None ∧
  (∀ d i, file_array s !! d = Some (Some i) →
     fd_bit (fd_bitmap s) (Z.of_nat d) = true ∧
     ∃ f, file_list s !! i = Some f ∧ opened f = true) ∧
  (∀ d d' i, file_array s !! d = Some (Some i) →
     file_array s !! d' = Some (Some i) → d = d').

Definition extent_end (f : file) : Z := start_block f + num_blocks f.

(** max(DIR_DATA_NUM_BLOCKS, max over the list of start_block + num_blocks). *)
Definition max_end (l : list file) : Z :=
  foldr (λ f m, Z.max (extent_end f) m) DIR_DATA_NUM_BLOCKS l.

Definition sum_blocks (l : list file) : Z :=
  foldr (λ f m, num_blocks f + m) 0 l.

Definition file_ok (N : Z) (f : file) : Prop :=
  (start_block f = 0 ∧ num_blocks f = 0 ∧ size f = 0) ∨
  (DIR_DATA_NUM_BLOCKS ≤ start_block f ∧ 0 < num_blocks f ∧
   extent_end f < N ∧ 0 < size f < 4294967296 ∧
   size f ≤ num_blocks f * STORAGE_BLOCK_SIZE ∧
   num_blocks f ≤ 2 * ((size f + 511) / STORAGE_BLOCK_SIZE)).

Definition disjoint_extents (l : list file) : Prop :=
  ∀ i j a b, i ≠ j → l !! i = Some a → l !! j = Some b →
    0 < num_blocks a → 0 < num_blocks b →
    extent_end a ≤ start_block b ∨ extent_end b ≤ start_block a.

Definition ext_inv (s : fs) : Prop :=
  is_u32 (partition_num_blocks s) ∧
  Forall (file_ok (partition_num_blocks s)) (file_list s) ∧
  disjoint_extents (file_list s) ∧
  max_end (file_list s) ≤ DIR_DATA_NUM_BLOCKS + sum_blocks (file_list s).

(** The serialized form of one record (filename_size + 15 bytes). *)
Definition encode_record (f : file) : list Z :=
  le16 (strlen (filename f)) ++ filename f ++ [0] ++
  le32 (start_block f) ++ le32 (num_blocks f) ++ le32 (size f).

Definition record_size (f : file) : Z := strlen (filename f) + 15.

Fixpoint layout (l : list file) (off : Z) : Prop :=
  match l with
  | [] => True
  | f :: l' => dir_data_off f = off ∧ layout l' (off + record_size f)
  end.

Definition dir_end (l : list file) : Z :=
  foldr (λ f m, record_size f + m) 6 l.

Definition serialize (l : list file) : list Z :=
  signature ++ le16 (Z.of_nat (length l)) ++ concat (map encode_record l).

Definition name_ok (f : file) : Prop :=
  strlen (filename f) ≤ MAX_FILENAME_SIZE ∧ c_string (filename f).

Definition dir_inv (s : fs) : Prop :=
  length (dir_data s) = 1024%nat ∧
  dir_data_ptr s = dir_end (file_list s) ∧
  dir_end (file_list s) ≤ DIR_DATA_SIZE ∧
  layout (file_list s) 6 ∧
  (∃ rest, dir_data s = serialize (file_list s) ++ rest) ∧
  Forall name_ok (file_list s) ∧
  NoDup (map filename (file_list s)).

Definition fs_inv (s : fs) : Prop := fd_inv s ∧ ext_inv s ∧ dir_inv s.

(** ** Exhaustive checks over the values of a byte *)

Definition scan_byte_check (b : Z) : bool :=
  match scan_byte b 1 0 8 with
  | Some (b', j) =>
      (0 <=? j) && (j <? 8) && negb (Z.testbit b j) &&
      (b' =? Z.setbit b j) && (0 <=? b') && (b' <? 256) &&
      implb (Z.odd b) (1 <=? j)
  | None => b =? 255
  end.

Definition clear_bit_check (b : Z) : bool :=
  forallb (λ k,
    let b' := u8 (Z.land b (Z.lnot (shift_mask 1 (Z.to_nat k)))) in
    (b' =? Z.clearbit b k) && (0 <=? b') && (b' <? 256)) (seqZ 0 8).

(** The largest block count [expand_file_size] asks the allocator for:
    a 32-bit byte count rounded up to blocks. *)
Definition MAX_NEEDED_BLOCKS : Z := 8388608.

(** Some record other than [i] starts in the block range [lo, hi). *)
Definition tail_blocked (l : list file) (i : nat) (lo hi : Z) : Prop :=
  ∃ j g, j ≠ i ∧ l !! j = Some g ∧ lo ≤ start_block g < hi.

(** The block count [expand_file_size] derives from a byte count. *)
Definition blocks_for (needed_size : Z) : Z :=
  needed_size / STORAGE_BLOCK_SIZE +
  (if decide (needed_size mod STORAGE_BLOCK_SIZE ≠ 0) then 1 else 0).

(** [f'] is the record [f] of state [s] after a successful
    [expand_file_size] to [sz] bytes: the last block had room, or a fresh
    extent was taken after the last one, or the tail was extended. *)
Definition grown (s : fs) (f : file) (sz : Z) (f' : file) : Prop :=
  filename f' = filename f ∧ dir_data_off f' = dir_data_off f ∧
  opened f' = opened f ∧ size f' = sz ∧
  ((start_block f' = start_block f ∧ num_blocks f' = num_blocks f ∧
    size f mod STORAGE_BLOCK_SIZE ≠ 0 ∧
    sz - size f ≤ STORAGE_BLOCK_SIZE - size f mod STORAGE_BLOCK_SIZE) ∨
   (size f = 0 ∧ start_block f' = max_end (file_list s) ∧
    num_blocks f' = blocks_for sz ∧
    max_end (file_list s) + blocks_for sz < partition_num_blocks s) ∨
   (0 < size f ∧ start_block f' = start_block f ∧
    num_blocks f' = num_blocks f + blocks_for (sz - size f) ∧
    (size f mod STORAGE_BLOCK_SIZE = 0 ∨
     sz - size f > STORAGE_BLOCK_SIZE - size f mod STORAGE_BLOCK_SIZE) ∧
    tail_free (file_list s) (extent_end f)
      (extent_end f + blocks_for (sz - size f)) = true ∧
    extent_end f + blocks_for (sz - size f) < partition_num_blocks s)).

(** The record as [initialize_file_system] rebuilds it. *)
Definition closed (f : file) : file := set_opened f false.

Definition fields_ok (f : file) : Prop :=
  is_u32 (start_block f) ∧ is_u32 (num_blocks f) ∧ is_u32 (size f).

(** The encoding of [f] sits in the buffer [d] at the record's offset. *)
Definition record_at (d : list Z) (f : file) : Prop :=
  ∃ pre post, d = pre ++ encode_record f ++ post ∧
    Z.of_nat (length pre) = dir_data_off f.

(** Running a sequence of calls. *)
Definition run (cs : list call) (s : fs) : fs := foldl (λ s c, exec c s) s cs.

(** The claim's block ranges: block [x] belongs to the extent of [f]. *)
Definition in_extent (f : file) (x : Z) : Prop :=
  start_block f ≤ x < start_block f + num_blocks f.

(** ** Concrete states for the examples *)

Definition name_a : list Z := bytes_of_string "a".
Definition name_b : list Z := bytes_of_string "b".

Definition fresh (N : Z) : fs := initialize_file_system N (boot ∅).

(** Two one-block files, both still open. *)
Definition two_files_calls : list call :=
  [Open 0 false name_a FILE_OPEN_CREATE_MODE; Write 2 [65] 1 0;
   Open 0 false name_b FILE_OPEN_CREATE_MODE; Write 3 [66] 1 0].

Definition two_files : fs := run two_files_calls (fresh 390).

(** Create-mode opens of [n] files with the one-byte names 1, 2, ..., n. *)
Definition open_calls (n : nat) : list call :=
  map (λ k, Open 0 false [Z.of_nat k] FILE_OPEN_CREATE_MODE) (seq 1 n).

(** Descriptors 2 .. 63 all in use. *)
Definition sixty_two_open : fs := run (open_calls 62) (fresh 390).

(** 63 records of 16 bytes: no room for another record. *)
Definition directory_full : fs := run (open_calls 63) (fresh 390).

(** One file of one block in a partition of four blocks. *)
Definition small_partition : fs :=
  run [Open 0 false name_a FILE_OPEN_CREATE_MODE; Write 2 [65] 1 0] (fresh 4).

(** C4 as the specification words it: tail expansion fails exactly when
    another record starts in the tail range or the tail range extends
    past the partition. *)
Definition tail_expansion_claim (s : fs) (i : nat) (f : file) (needed_blocks : Z) : Prop :=
  fst (expand_existing_file i needed_blocks s) = ERR_FOUND ↔
  (tail_blocked (file_list s) i (extent_end f) (extent_end f + needed_blocks) ∨
   extent_end f + needed_blocks > partition_num_blocks s).

(** The bitmap in which every bit below the last one is set. *)
Definition last_bit_free : list Z := replicate 7 255 ++ [127].

(** [open] gets as far as the descriptor scan: the name is on record and
    not open, or it is not on record and a create can append it. *)
Definition reaches_scan (name : list Z) (mode : Z) (s : fs) : Prop :=
  (mode = FILE_OPEN_MODE ∨ mode = FILE_OPEN_CREATE_MODE) ∧
  ((∃ i, find_file name (file_list s) 0 None = Some (Some i)) ∨
   (find_file name (file_list s) 0 None = Some None ∧
    mode = FILE_OPEN_CREATE_MODE ∧
    strlen name ≤ MAX_FILENAME_SIZE ∧
    dir_data_ptr s + strlen name + 15 ≤ DIR_DATA_SIZE)).

(** One written file and one that was created but never written. *)
Definition one_empty : fs :=
  run [Open 0 false name_a FILE_OPEN_CREATE_MODE; Write 2 [65] 1 0;
       Open 0 false name_b FILE_OPEN_CREATE_MODE] (fresh 390).


(** What [initialize_file_system] makes of a directory buffer: the final
    [dir_data_ptr] and the file list. *)
Definition load_directory (d : list Z) : Z * list file :=
  if decide (peek d 0 4 = signature)
  then parse_directory (Z.to_nat (rd16 d 4)) d 6 []
  else (6, []).





(** The scan of one byte stops at its lowest clear bit. *)
Definition scan_lowest_check (b : Z) : bool :=
  match scan_byte b 1 0 8 with
  | Some (_, j) => forallb (λ k, Z.testbit b k) (seqZ 0 j)
  | None => true
  end.

(** Setting a clear bit and clearing it again gives the byte back. *)
Definition set_clear_check (b : Z) : bool :=
  forallb (λ k, Z.testbit b k || (Z.clearbit (Z.setbit b k) k =? b)) (seqZ 0 8).

(** Block [b] is on the device as a full block. *)
Definition full_block (st : gmap Z (list Z)) (b : Z) : Prop :=
  ∃ blk, st !! b = Some blk ∧ length blk = 512%nat.

(** Every block of every extent is on the device as a full block. *)
Definition blocks_inv (s : fs) : Prop :=
  ∀ i f k, file_list s !! i = Some f → 0 ≤ k < num_blocks f →
    full_block (storage s) (start_block f + k).

(** The byte at position [p] of the extent that starts at block [first]. *)
Definition extent_byte (st : gmap Z (list Z)) (first p : Z) : Z :=
  default 0 (default [] (st !! (first + p / 512)) !! Z.to_nat (p mod 512)).

(** The contents of a file: the first [size] bytes of its extent. *)
Definition file_bytes (s : fs) (f : file) : list Z :=
  map (extent_byte (storage s) (start_block f)) (seqZ 0 (size f)).

(** The byte of the caller's buffer at index [j]. *)
Definition data_byte (data : list Z) (j : Z) : Z := default 0 (data !! Z.to_nat j).




(** ** The test program (fs_test.c) *)



(** * Properties *)

Example demo_roundtrip : demo = (hello_text, 21).
Proof. vm_compute. reflexivity. Qed.

(** ** Rejected writes *)

(** C5: a write through an open descriptor at an offset beyond the end of
    the file returns 0 and leaves the whole state (the record with its
    size, start_block and num_blocks, and every stored block) as it was. *)
Theorem write_beyond_end_rejected (s : fs) (fd : Z) (i : nat) (f : file)
    (data : list Z) (sz offset : Z) :
  fd ≠ 0 → fd < MAX_NUM_FD →
  file_array s !! Z.to_nat fd = Some (Some i) →
  file_list s !! i = Some f →
  opened f = true →
  offset > size f →
  file_system_write_to_file fd data sz offset s = (0, s).
Proof.
  intros Hfd0 Hfd Hslot Hrec Hopen Hoff.
  unfold file_system_write_to_file.
  destruct (decide (fd = 0 ∨ fd >= MAX_NUM_FD)) as [[?|?]|_]; [done|lia|].
  rewrite Hslot, Hrec, Hopen. simpl.
  destruct (decide (size f < u32 (offset + sz))) as [Hlt|Hge].
  - rewrite !bool_decide_eq_true_2 by done. done.
  - rewrite bool_decide_eq_false_2 by done. simpl.
    rewrite Hrec. destruct (decide (offset >= size f)); [done|lia].
Qed.

(** ** Failed creation *)

Lemma find_file_absent (name : list Z) (l : list file) (i : nat) (cur : option nat) :
  Forall (λ g, filename g ≠ name) l → find_file name l i cur = Some cur.
Proof.
  intros H. revert i. induction H as [|g l Hg _ IH]; intros i; simpl; [done|].
  destruct (decide (filename g = name)); [done|]. apply IH.
Qed.


(** ** The descriptor bitmap *)

Lemma scan_byte_checked : forallb scan_byte_check (seqZ 0 256) = true.
Proof. vm_compute. reflexivity. Qed.

Lemma clear_bit_checked : forallb clear_bit_check (seqZ 0 256) = true.
Proof. vm_compute. reflexivity. Qed.

Lemma scan_byte_spec (b : Z) :
  0 ≤ b < 256 →
  match scan_byte b 1 0 8 with
  | Some (b', j) =>
      0 ≤ j < 8 ∧ Z.testbit b j = false ∧ b' = Z.setbit b j ∧ 0 ≤ b' < 256 ∧
      (Z.odd b = true → 1 ≤ j)
  | None => b = 255
  end.
Proof.
  intros Hb.
  assert (Hin : In b (seqZ 0 256)) by (apply list_elem_of_In, elem_of_seqZ; lia).
  pose proof (proj1 (forallb_forall _ _) scan_byte_checked b Hin) as H.
  unfold scan_byte_check in H.
  destruct (scan_byte b 1 0 8) as [[b' j]|]; [|lia].
  repeat (apply andb_prop in H; destruct H as [H ?]).
  repeat split; try lia.
  - by destruct (Z.testbit b j).
  - intros Ho. rewrite Ho in *. simpl in *. lia.
Qed.

Lemma clear_bit_spec (b k : Z) :
  0 ≤ b < 256 → 0 ≤ k < 8 →
  u8 (Z.land b (Z.lnot (shift_mask 1 (Z.to_nat k)))) = Z.clearbit b k ∧
  0 ≤ Z.clearbit b k < 256.
Proof.
  intros Hb Hk.
  assert (Hin : In b (seqZ 0 256)) by (apply list_elem_of_In, elem_of_seqZ; lia).
  pose proof (proj1 (forallb_forall _ _) clear_bit_checked b Hin) as H.
  unfold clear_bit_check in H.
  assert (Hin' : In k (seqZ 0 8)) by (apply list_elem_of_In, elem_of_seqZ; lia).
  pose proof (proj1 (forallb_forall _ _) H k Hin') as H'. simpl in H'.
  repeat (apply andb_prop in H'; destruct H' as [H' ?]).
  assert (E : u8 (Z.land b (Z.lnot (shift_mask 1 (Z.to_nat k)))) = Z.clearbit b k) by lia.
  rewrite E in *. lia.
Qed.

Lemma scan_bitmap_spec (bm : list Z) (i : Z) (bm' : list Z) (fd : Z) :
  Forall (λ b, 0 ≤ b < 256) bm →
  scan_bitmap bm i = Some (bm', fd) →
  ∃ (k : nat) (b j : Z),
    bm !! k = Some b ∧ 0 ≤ j < 8 ∧ Z.testbit b j = false ∧
    bm' = <[k := Z.setbit b j]> bm ∧ fd = (i + Z.of_nat k) * 8 + j + 1 ∧
    0 ≤ Z.setbit b j < 256 ∧ (k = 0%nat → Z.odd b = true → 1 ≤ j).
Proof.
  intros Hbm. revert i bm' fd.
  induction Hbm as [|b bm Hb _ IH]; intros i bm' fd; cbn [scan_bitmap]; [done|].
  assert (Hrec : match scan_bitmap bm (i + 1) with
                 | Some (r, fd0) => Some (b :: r, fd0)
                 | None => None
                 end = Some (bm', fd) →
          ∃ (k : nat) (b0 j : Z),
            (b :: bm) !! k = Some b0 ∧ 0 ≤ j < 8 ∧ Z.testbit b0 j = false ∧
            bm' = <[k := Z.setbit b0 j]> (b :: bm) ∧
            fd = (i + Z.of_nat k) * 8 + j + 1 ∧
            0 ≤ Z.setbit b0 j < 256 ∧ (k = 0%nat → Z.odd b0 = true → 1 ≤ j)).
  { destruct (scan_bitmap bm (i + 1)) as [[r fd0]|] eqn:E; [|done].
    intros [= <- <-].
    destruct (IH _ _ _ E) as (k & b0 & j & Hk & Hj & Hc & -> & -> & Hr & _).
    exists (S k), b0, j. repeat split; try done; try lia. }
  destruct (decide (b = 255)); [exact Hrec|].
  pose proof (scan_byte_spec b Hb) as Hs.
  destruct (scan_byte b 1 0 8) as [[b' j]|]; [|done].
  destruct Hs as (Hj & Hc & -> & Hr & Ho).
  intros [= <- <-]. exists 0%nat, b, j. repeat split; try done; lia.
Qed.


Lemma bitmap_bit_insert (bm : list Z) (k : nat) (b b' : Z) (q : Z) :
  bm !! k = Some b → 0 ≤ q →
  bitmap_bit (<[k := b']> bm) q =
    if decide (q / 8 = Z.of_nat k) then Z.testbit b' (q mod 8) else bitmap_bit bm q.
Proof.
  intros Hk Hq. unfold bitmap_bit.
  assert (k < length bm)%nat by (by eapply lookup_lt_Some).
  destruct (decide (q / 8 = Z.of_nat k)) as [E|E].
  - rewrite E, Nat2Z.id. by rewrite list_lookup_insert_eq.
  - rewrite list_lookup_insert_ne; [done|].
    assert (0 ≤ q / 8) by (apply Z.div_pos; lia). lia.
Qed.

(** What a successful scan does to the bits of the map: it sets bit
    [fd - 1], which was clear, and nothing else. *)
Lemma scan_bitmap_bits (bm bm' : list Z) (fd : Z) :
  Forall (λ b, 0 ≤ b < 256) bm →
  scan_bitmap bm 0 = Some (bm', fd) →
  1 ≤ fd ≤ 8 * Z.of_nat (length bm) ∧
  length bm' = length bm ∧ Forall (λ b, 0 ≤ b < 256) bm' ∧
  bitmap_bit bm (fd - 1) = false ∧
  (∀ q, 0 ≤ q → bitmap_bit bm' q = bool_decide (q = fd - 1) || bitmap_bit bm q) ∧
  (bitmap_bit bm 0 = true → 2 ≤ fd).
Proof.
  intros Hbm Hs.
  destruct (scan_bitmap_spec _ _ _ _ Hbm Hs) as (k & b & j & Hk & Hj & Hc & -> & -> & Hr & Ho).
  assert (Hlen : (k < length bm)%nat) by (by eapply lookup_lt_Some).
  assert (Hdiv : ((0 + Z.of_nat k) * 8 + j + 1 - 1) / 8 = Z.of_nat k).
  { symmetry. apply (Z.div_unique _ 8 _ j); lia. }
  assert (Hmod : ((0 + Z.of_nat k) * 8 + j + 1 - 1) mod 8 = j).
  { symmetry. apply (Z.mod_unique _ 8 (Z.of_nat k) j); lia. }
  split; [lia|]. split; [by rewrite length_insert|].
  split; [apply Forall_insert; done|].
  split.
  { unfold bitmap_bit. rewrite Hdiv, Hmod, Nat2Z.id, Hk. done. }
  split.
  - intros q Hq. rewrite (bitmap_bit_insert _ _ b) by done.
    destruct (decide (q / 8 = Z.of_nat k)) as [E|E].
    + rewrite Z.setbit_eqb by lia.
      unfold bitmap_bit. rewrite E, Nat2Z.id, Hk.
      f_equal. pose proof (Z.div_mod q 8).
      destruct (Z.eqb_spec j (q mod 8)).
      * rewrite bool_decide_eq_true_2; [done|lia].
      * rewrite bool_decide_eq_false_2; [done|lia].
    + rewrite bool_decide_eq_false_2; [done|]. intros ->. by rewrite Hdiv in E.
  - intros H0. destruct k as [|k]; [|lia].
    unfold bitmap_bit in H0. change (Z.to_nat (0 / 8)) with 0%nat in H0.
    change (0 mod 8) with 0 in H0. rewrite Hk in H0.
    rewrite Z.bit0_odd in H0. specialize (Ho eq_refl H0). lia.
Qed.

Lemma mark_fd_as_unused_spec (s : fs) (d : Z) :
  length (fd_bitmap s) = 8%nat →
  Forall (λ b, 0 ≤ b < 256) (fd_bitmap s) →
  1 ≤ d < MAX_NUM_FD →
  ∃ bm', mark_fd_as_unused d s = set_fd_bitmap s bm' ∧
    length bm' = 8%nat ∧ Forall (λ b, 0 ≤ b < 256) bm' ∧
    ∀ q, 0 ≤ q →
      bitmap_bit bm' q = bitmap_bit (fd_bitmap s) q && negb (bool_decide (q = d - 1)).
Proof.
  intros Hlen Hbm Hd. unfold MAX_NUM_FD in Hd. unfold mark_fd_as_unused.
  destruct (decide (d - 1 >= MAX_NUM_FD)) as [Hge|_]; [unfold MAX_NUM_FD in Hge; lia|].
  rewrite Z.quot_div_nonneg, Z.rem_mod_nonneg by lia.
  assert (Hdiv : 0 ≤ (d - 1) / 8 < 8).
  { split; [apply Z.div_pos; lia|apply Z.div_lt_upper_bound; lia]. }
  assert (Hmod : 0 ≤ (d - 1) mod 8 < 8) by (apply Z.mod_pos_bound; lia).
  destruct (lookup_lt_is_Some_2 (fd_bitmap s) (Z.to_nat ((d - 1) / 8))) as [b Hb]; [lia|].
  rewrite Hb.
  assert (Hbr : 0 ≤ b < 256) by (by eapply (Forall_lookup_1 _ _ _ _ Hbm)).
  destruct (clear_bit_spec b ((d - 1) mod 8) Hbr Hmod) as [-> Hcr].
  eexists. split; [done|]. split; [by rewrite length_insert|].
  split; [by apply Forall_insert|].
  intros q Hq. rewrite (bitmap_bit_insert _ _ b) by done.
  rewrite Z2Nat.id by lia.
  destruct (decide (q / 8 = (d - 1) / 8)) as [E|E].
  - rewrite Z.clearbit_eqb. unfold bitmap_bit. rewrite E, Hb. f_equal. f_equal.
    pose proof (Z.div_mod q 8). pose proof (Z.div_mod (d - 1) 8).
    destruct (Z.eqb_spec ((d - 1) mod 8) (q mod 8)).
    + rewrite bool_decide_eq_true_2; [done|lia].
    + rewrite bool_decide_eq_false_2; [done|]. intros ->. done.
  - rewrite bool_decide_eq_false_2; [by rewrite andb_true_r|]. intros ->. done.
Qed.

(** ** Frame lemmas for in-place record updates *)

Lemma update_file_list (s : fs) (i : nat) (g : file → file) (f : file) :
  file_list s !! i = Some f →
  update_file s i g = set_file_list s (<[i := g f]> (file_list s)).
Proof. intros H. unfold update_file. by rewrite H. Qed.

(** [fd_inv] only reads the bitmap, the descriptor table and the [opened]
    flags; it survives any step that keeps those. *)
Lemma fd_inv_frame (s s' : fs) :
  fd_bitmap s' = fd_bitmap s →
  file_array s' = file_array s →
  (∀ i f, file_list s !! i = Some f → opened f = true →
     ∃ f', file_list s' !! i = Some f' ∧ opened f' = true) →
  fd_inv s → fd_inv s'.
Proof.
  intros Hbm Hfa Hl (H1 & H2 & H3 & H4 & H5 & H6 & H7 & H8).
  unfold fd_inv. rewrite Hbm, Hfa. repeat split; try done.
  - by apply (H7 d i).
  - destruct (H7 d i H) as (_ & f & Hf & Ho). by apply (Hl i f).
Qed.

(** ** Descriptor allocation *)

Lemma install_fd_shape (i : nat) (s : fs) :
  install_fd i s = (0, s) ∨
  ∃ bm' fd, scan_bitmap (fd_bitmap s) 0 = Some (bm', fd) ∧
    (install_fd i s = (0, set_fd_bitmap s bm') ∨
     (install_fd i s =
        (u32 fd, update_file
                   (set_file_array (set_fd_bitmap s bm')
                      (<[Z.to_nat (u32 fd) := Some i]> (file_array s)))
                   i (λ f, set_opened f true)) ∧
      ¬ fd < 0 ∧ ¬ (u32 fd = 0 ∨ u32 fd >= MAX_NUM_FD) ∧
      file_array s !! Z.to_nat (u32 fd) = Some None)).
Proof.
  unfold install_fd, get_unused_fd.
  destruct (scan_bitmap (fd_bitmap s) 0) as [[bm' fd]|] eqn:E.
  - right. exists bm', fd. split; [done|].
    destruct (decide (fd < 0)); [by left|].
    destruct (decide (u32 fd = 0 ∨ u32 fd >= MAX_NUM_FD)); [by left|].
    simpl. destruct (file_array s !! Z.to_nat (u32 fd)) as [[j|]|] eqn:Hfa; [by left| |by left].
    right. done.
  - left. destruct (decide (ERR_EXIST < 0)) as [|H]; [done|].
    exfalso. apply H. unfold ERR_EXIST. lia.
Qed.

Lemma fd_inv_scan (s : fs) (bm' : list Z) (fd : Z) :
  fd_inv s → scan_bitmap (fd_bitmap s) 0 = Some (bm', fd) →
  fd_inv (set_fd_bitmap s bm') ∧ 2 ≤ fd ≤ 64 ∧ fd_bit bm' fd = true.
Proof.
  intros (H1 & H2 & H3 & H4 & H5 & H6 & H7 & H8) Hs.
  destruct (scan_bitmap_bits _ _ _ H2 Hs) as (Hr & Hl & Hb & Hc & Hbits & H0).
  unfold fd_bit in *. change (1 - 1) with 0 in H4.
  split; [|split; [specialize (H0 H4); lia|]].
  - unfold fd_inv. simpl. split_and!; try done; try congruence.
    + unfold fd_bit. change (1 - 1) with 0. rewrite Hbits by lia. rewrite H4. apply orb_true_r.
    + intros d i H. split; [|by apply (H7 d i)].
      destruct (H7 d i H) as [Hbit _]. unfold fd_bit in *.
      destruct d as [|d]; [congruence|].
      rewrite Hbits by lia. rewrite Hbit. apply orb_true_r.
  - rewrite Hbits by lia. by rewrite bool_decide_eq_true_2.
Qed.

Lemma install_fd_inv (i : nat) (f : file) (s : fs) :
  fd_inv s → file_list s !! i = Some f →
  (∀ d, file_array s !! d ≠ Some (Some i)) →
  fd_inv (snd (install_fd i s)) ∧
  (fst (install_fd i s) = 0 ∨ 2 ≤ fst (install_fd i s) < MAX_NUM_FD).
Proof.
  intros Hinv Hf Hop.
  destruct (install_fd_shape i s) as [->|(bm' & fd & Hs & [->|(-> & Hn & Hr & Hslot)])];
    simpl; [by auto| |].
  - destruct (fd_inv_scan _ _ _ Hinv Hs) as [? _]. by auto.
  - destruct (fd_inv_scan _ _ _ Hinv Hs) as (Hinv' & Hfd & Hbit).
    assert (Eu : u32 fd = fd) by (unfold u32; apply Z.mod_small; lia).
    rewrite Eu in *. unfold MAX_NUM_FD in *.
    split; [|right; lia].
    destruct Hinv as (_ & _ & _ & _ & _ & _ & Hold & _).
    destruct Hinv' as (H1 & H2 & H3 & H4 & H5 & H6 & H7 & H8). simpl in *.
    rewrite (update_file_list _ _ _ f) by done.
    unfold fd_inv. simpl. rewrite length_insert.
    assert (Hlt : (Z.to_nat fd < length (file_array s))%nat) by lia.
    split_and!; try done.
    + rewrite list_lookup_insert_ne; [done|lia].
    + rewrite list_lookup_insert_ne; [done|lia].
    + intros d i0 H. destruct (decide (d = Z.to_nat fd)) as [->|Hne].
      * rewrite list_lookup_insert_eq in H by done. injection H as <-.
        split; [by rewrite Z2Nat.id by lia|].
        exists (set_opened f true). split; [|done].
        apply list_lookup_insert_eq. by eapply lookup_lt_Some.
      * rewrite list_lookup_insert_ne in H by done.
        destruct (H7 d i0 H) as (Hb0 & f0 & Hf0 & Ho0). split; [done|].
        destruct (decide (i0 = i)) as [->|Hi].
        -- exists (set_opened f true). split; [|done].
           apply list_lookup_insert_eq. by eapply lookup_lt_Some.
        -- exists f0. by rewrite list_lookup_insert_ne.
    + intros d d' i0 Hd Hd'.
      destruct (decide (d = Z.to_nat fd)) as [->|Hne];
        destruct (decide (d' = Z.to_nat fd)) as [->|Hne']; [done| | |].
      * rewrite list_lookup_insert_eq in Hd by done. injection Hd as <-.
        rewrite list_lookup_insert_ne in Hd' by done. by destruct (Hop d').
      * rewrite list_lookup_insert_eq in Hd' by done. injection Hd' as <-.
        rewrite list_lookup_insert_ne in Hd by done. by destruct (Hop d).
      * rewrite list_lookup_insert_ne in Hd, Hd' by done. by eapply H8.
Qed.

(** ** Byte buffers *)

Lemma length_poke (buf : list Z) (off : Z) (bs : list Z) :
  0 ≤ off → off + Z.of_nat (length bs) ≤ Z.of_nat (length buf) →
  length (poke buf off bs) = length buf.
Proof.
  intros H0 H. unfold poke. rewrite !length_app, length_take, length_drop. lia.
Qed.

(** Two adjacent stores are one store of the concatenation. *)
Lemma poke_app (buf : list Z) (off : Z) (a b : list Z) :
  0 ≤ off → off + Z.of_nat (length a) ≤ Z.of_nat (length buf) →
  poke (poke buf off a) (off + Z.of_nat (length a)) b = poke buf off (a ++ b).
Proof.
  intros H0 H. unfold poke.
  assert (Hl : length (take (Z.to_nat off) buf) = Z.to_nat off)
    by (rewrite length_take; lia).
  replace (Z.to_nat (off + Z.of_nat (length a)))
    with (length (take (Z.to_nat off) buf ++ a)) by (rewrite length_app; lia).
  rewrite (app_assoc _ a), take_app_length.
  rewrite drop_app_add, drop_drop, <- !app_assoc, length_app.
  by rewrite Nat.add_assoc.
Qed.

Lemma take_poke_before (buf : list Z) (off : Z) (bs : list Z) (n : nat) :
  0 ≤ off → (n ≤ Z.to_nat off)%nat → (Z.to_nat off ≤ length buf)%nat →
  take n (poke buf off bs) = take n buf.
Proof.
  intros H0 Hn Hl. unfold poke.
  rewrite take_app_le by (rewrite length_take; lia).
  rewrite take_take. f_equal. lia.
Qed.

Lemma drop_poke_after (buf : list Z) (off : Z) (bs : list Z) (n : nat) :
  0 ≤ off → (Z.to_nat off + length bs ≤ n)%nat → (Z.to_nat off ≤ length buf)%nat →
  drop n (poke buf off bs) = drop n buf.
Proof.
  intros H0 Hn Hl. unfold poke.
  assert (Hlt : length (take (Z.to_nat off) buf) = Z.to_nat off)
    by (rewrite length_take; lia).
  rewrite app_assoc.
  replace n with (length (take (Z.to_nat off) buf ++ bs) + (n - Z.to_nat off - length bs))%nat
    at 1 by (rewrite length_app; lia).
  rewrite drop_app_add, drop_drop. f_equal. lia.
Qed.

(** Storing into a buffer of the form [pre ++ old ++ post], right after
    [pre], replaces [old] when the lengths agree. *)
Lemma poke_middle (pre old new post : list Z) (off : Z) :
  off = Z.of_nat (length pre) → length old = length new →
  poke (pre ++ old ++ post) off new = pre ++ new ++ post.
Proof.
  intros -> Hl. unfold poke. rewrite Nat2Z.id.
  rewrite take_app_length. f_equal. f_equal.
  rewrite drop_app_add. rewrite <- Hl. by rewrite drop_app_length.
Qed.

Lemma peek_middle (pre mid post : list Z) (off n : Z) :
  off = Z.of_nat (length pre) → n = Z.of_nat (length mid) →
  peek (pre ++ mid ++ post) off n = mid.
Proof.
  intros -> ->. unfold peek. rewrite !Nat2Z.id.
  by rewrite drop_app_length, take_app_length.
Qed.

Lemma length_le16 (v : Z) : length (le16 v) = 2%nat.
Proof. done. Qed.

Lemma length_le32 (v : Z) : length (le32 v) = 4%nat.
Proof. done. Qed.

Lemma length_encode_record (f : file) :
  Z.of_nat (length (encode_record f)) = record_size f.
Proof.
  unfold encode_record, record_size, strlen.
  rewrite !length_app, length_le16, !length_le32. simpl. lia.
Qed.

Lemma rd16_le16 (pre post : list Z) (off v : Z) :
  off = Z.of_nat (length pre) → 0 ≤ v < 65536 →
  rd16 (pre ++ le16 v ++ post) off = v.
Proof.
  intros Hoff Hv. unfold rd16. rewrite (peek_middle pre (le16 v) post) by done.
  unfold le16. pose proof (Z.div_mod v 256).
  rewrite (Z.mod_small (v / 256) 256); [lia|].
  split; [apply Z.div_pos; lia|apply Z.div_lt_upper_bound; lia].
Qed.

Lemma rd32_le32 (pre post : list Z) (off v : Z) :
  off = Z.of_nat (length pre) → 0 ≤ v < 4294967296 →
  rd32 (pre ++ le32 v ++ post) off = v.
Proof.
  intros Hoff Hv. unfold rd32. rewrite (peek_middle pre (le32 v) post) by done.
  unfold le32.
  pose proof (Z.div_mod v 256). pose proof (Z.div_mod (v / 256) 256).
  pose proof (Z.div_mod (v / 256 / 256) 256).
  rewrite !Z.div_div in * by lia.
  change (256 * 256) with 65536 in *. change (65536 * 256) with 16777216 in *.
  rewrite (Z.mod_small (v / 16777216) 256); [lia|].
  split; [apply Z.div_pos; lia|apply Z.div_lt_upper_bound; lia].
Qed.

Lemma cstring_app (name rest : list Z) :
  c_string name → cstring (name ++ 0 :: rest) = name.
Proof.
  induction 1 as [|b name Hb _ IH]; simpl.
  - done.
  - destruct (decide (b = 0)); [lia|]. by rewrite IH.
Qed.

(** ** Directory updates *)

(** The five stores of [update_file_in_directory] write the record's
    encoding at its offset. *)
Lemma update_file_in_directory_ok (f : file) (s : fs) :
  strlen (filename f) ≤ MAX_FILENAME_SIZE →
  0 ≤ dir_data_off f →
  dir_data_off f + record_size f ≤ DIR_DATA_SIZE →
  length (dir_data s) = 1024%nat →
  update_file_in_directory f s =
    (0, set_dir_data s (poke (dir_data s) (dir_data_off f) (encode_record f))).
Proof.
  intros Hn H0 Hfit Hlen. unfold update_file_in_directory.
  unfold record_size, DIR_DATA_SIZE, STORAGE_BLOCK_SIZE, DIR_DATA_NUM_BLOCKS in *.
  assert (Hs : 0 ≤ strlen (filename f)) by (unfold strlen; lia).
  destruct (decide _) as [?|_]; [lia|].
  destruct (decide _) as [?|_]; [lia|].
  f_equal. f_equal. unfold encode_record.
  assert (Eu : u16 (strlen (filename f)) = strlen (filename f)).
  { unfold u16. apply Z.mod_small. unfold MAX_FILENAME_SIZE in Hn. lia. }
  rewrite Eu.
  set (d := dir_data s) in *. set (off := dir_data_off f) in *.
  set (name := filename f) in *.
  assert (Hl : Z.of_nat (length (name ++ [0])) = strlen name + 1).
  { rewrite length_app. unfold strlen. simpl. lia. }
  assert (Hp : ∀ buf o o' a b, 0 ≤ o → o' = o + Z.of_nat (length a) →
            o + Z.of_nat (length a) ≤ Z.of_nat (length buf) →
            poke (poke buf o a) o' b = poke buf o (a ++ b)).
  { intros buf o o' a b ? -> ?. by apply poke_app. }
  rewrite (Hp d off _ (le16 _) (name ++ [0])) by (rewrite ?length_le16; lia).
  rewrite (Hp d off _ _ (le32 (start_block f)))
    by (rewrite ?length_app, ?length_le16; simpl; unfold strlen in *; lia).
  rewrite (Hp d off _ _ (le32 (num_blocks f)))
    by (rewrite ?length_app, ?length_le16, ?length_le32; simpl; unfold strlen in *; lia).
  rewrite (Hp d off _ _ (le32 (size f)))
    by (rewrite ?length_app, ?length_le16, ?length_le32; simpl; unfold strlen in *; lia).
  by rewrite <- !app_assoc.
Qed.

Lemma update_file_in_directory_err (f : file) (s : fs) :
  strlen (filename f) > MAX_FILENAME_SIZE ∨
  dir_data_off f + record_size f > DIR_DATA_SIZE →
  snd (update_file_in_directory f s) = s ∧ fst (update_file_in_directory f s) ≠ 0.
Proof.
  intros H. unfold update_file_in_directory, record_size in *.
  destruct (decide _) as [?|?]; [done|].
  destruct (decide _) as [?|?]; [done|]. lia.
Qed.

(** ** Bounds that follow from the invariants *)

Lemma u32_small (x : Z) : is_u32 x → u32 x = x.
Proof. intros H. unfold u32. apply Z.mod_small. exact H. Qed.

Lemma dir_end_app (l1 l2 : list file) :
  dir_end (l1 ++ l2) = dir_end l1 + dir_end l2 - 6.
Proof.
  induction l1 as [|f l1 IH]; [change (dir_end []) with 6; rewrite app_nil_l; lia|].
  change (dir_end ((f :: l1) ++ l2)) with (record_size f + dir_end (l1 ++ l2)).
  change (dir_end (f :: l1)) with (record_size f + dir_end l1). lia.
Qed.

Lemma dir_end_count (l : list file) : 6 + 15 * Z.of_nat (length l) ≤ dir_end l.
Proof.
  induction l as [|f l IH]; [unfold dir_end; simpl; lia|].
  assert (15 ≤ record_size f) by (unfold record_size, strlen; lia).
  unfold dir_end in *. cbn [length foldr]. lia.
Qed.

Lemma max_end_ge (l : list file) : DIR_DATA_NUM_BLOCKS ≤ max_end l.
Proof.
  induction l as [|f l IH]; [done|].
  change (max_end (f :: l)) with (Z.max (extent_end f) (max_end l)). lia.
Qed.

Lemma max_end_app (l1 l2 : list file) :
  max_end (l1 ++ l2) = Z.max (max_end l1) (max_end l2).
Proof.
  induction l1 as [|f l1 IH].
  - pose proof (max_end_ge l2). change (max_end []) with DIR_DATA_NUM_BLOCKS.
    rewrite app_nil_l. lia.
  - change (max_end ((f :: l1) ++ l2)) with (Z.max (extent_end f) (max_end (l1 ++ l2))).
    change (max_end (f :: l1)) with (Z.max (extent_end f) (max_end l1)).
    rewrite IH. lia.
Qed.

Lemma max_end_lookup (l : list file) (i : nat) (f : file) :
  l !! i = Some f → extent_end f ≤ max_end l.
Proof.
  revert i. induction l as [|g l IH]; intros i H; [done|].
  change (max_end (g :: l)) with (Z.max (extent_end g) (max_end l)).
  destruct i as [|i]; simpl in H.
  - injection H as ->. lia.
  - specialize (IH i H). lia.
Qed.

Lemma sum_blocks_app (l1 l2 : list file) :
  sum_blocks (l1 ++ l2) = sum_blocks l1 + sum_blocks l2.
Proof.
  induction l1 as [|f l1 IH]; [done|].
  change (sum_blocks ((f :: l1) ++ l2)) with (num_blocks f + sum_blocks (l1 ++ l2)).
  change (sum_blocks (f :: l1)) with (num_blocks f + sum_blocks l1). lia.
Qed.

Lemma file_ok_blocks (N : Z) (f : file) :
  file_ok N f → 0 ≤ num_blocks f ≤ 16777216.
Proof.
  unfold file_ok, STORAGE_BLOCK_SIZE. intros [(_ & -> & _)|(_ & Hn & _ & Hs & _ & Hb)]; [lia|].
  assert ((size f + 511) / 512 < 8388609); [|lia].
  apply Z.div_lt_upper_bound; lia.
Qed.

Lemma sum_blocks_bound (N : Z) (l : list file) :
  Forall (file_ok N) l → 0 ≤ sum_blocks l ≤ 16777216 * Z.of_nat (length l).
Proof.
  induction 1 as [|f l Hf _ IH]; [simpl; unfold sum_blocks; simpl; lia|].
  pose proof (file_ok_blocks N f Hf). unfold sum_blocks in *. cbn [length foldr]. lia.
Qed.

(** No allocated block number comes near the end of the 32-bit range:
    the directory holds at most 67 records of at most 2^24 blocks. *)
Lemma max_end_bound (s : fs) :
  ext_inv s → dir_inv s → max_end (file_list s) ≤ 1124073474.
Proof.
  intros (_ & Hok & _ & Hp) (_ & _ & Hd & _).
  pose proof (dir_end_count (file_list s)).
  pose proof (sum_blocks_bound _ _ Hok).
  unfold DIR_DATA_SIZE, STORAGE_BLOCK_SIZE, DIR_DATA_NUM_BLOCKS in *. lia.
Qed.

Lemma file_ok_end (N : Z) (f : file) :
  file_ok N f → 0 < num_blocks f →
  DIR_DATA_NUM_BLOCKS ≤ start_block f ∧ start_block f < extent_end f ∧ extent_end f < N.
Proof. unfold file_ok, extent_end. intros [(_ & -> & _)|H] Hn; lia. Qed.

(** ** The allocator *)

Lemma last_block_scan_max_gen (N : Z) (suf pre : list file) (sb : Z) :
  is_u32 N →
  Forall (file_ok N) (pre ++ suf) →
  disjoint_extents (pre ++ suf) →
  sb = max_end pre →
  (sb = DIR_DATA_NUM_BLOCKS ∨
   ∃ k g, pre !! k = Some g ∧ 0 < num_blocks g ∧ sb = extent_end g) →
  last_block_scan suf sb = max_end (pre ++ suf).
Proof.
  intros HN. revert pre sb.
  induction suf as [|f suf IH]; intros pre sb Hok Hdis Hsb Hwhy; simpl.
  - by rewrite app_nil_r.
  - assert (Hf : file_ok N f).
    { eapply Forall_forall; [exact Hok|]. apply list_elem_of_In, in_or_app. right. by left. }
    assert (Hfi : (pre ++ f :: suf) !! length pre = Some f) by (by rewrite list_lookup_middle).
    replace (pre ++ f :: suf) with ((pre ++ [f]) ++ suf) in * by (by rewrite <- app_assoc).
    pose proof (max_end_ge pre) as Hge.
    apply IH; [done|done| |].
    + rewrite max_end_app. unfold max_end at 2. simpl.
      destruct (decide (start_block f >= sb)) as [Hs|Hs].
      * assert (Hn : 0 < num_blocks f).
        { destruct Hf as [(H0 & _)|H]; [|lia].
          unfold DIR_DATA_NUM_BLOCKS in *. lia. }
        destruct (file_ok_end N f Hf Hn) as (? & ? & ?).
        rewrite u32_small by (unfold is_u32 in *; unfold extent_end in *;
                              unfold DIR_DATA_NUM_BLOCKS in *; lia).
        unfold extent_end in *. lia.
      * assert (extent_end f ≤ sb); [|unfold DIR_DATA_NUM_BLOCKS in *; lia].
        destruct Hf as [(H0 & H1 & _)|Hne].
        { unfold extent_end. unfold DIR_DATA_NUM_BLOCKS in *. lia. }
        destruct Hwhy as [->|(k & g & Hk & Hg & ->)]; [lia|].
        assert (Hkl : (k < length pre)%nat) by (by eapply lookup_lt_Some).
        assert (Hgi : ((pre ++ [f]) ++ suf) !! k = Some g).
        { rewrite <- app_assoc. by rewrite lookup_app_l. }
        destruct (Hdis k (length pre) g f) as [Hd|Hd]; try done; try lia.
        destruct (file_ok_end N g) as (? & ? & ?); [|done|lia].
        eapply Forall_forall; [exact Hok|]. apply list_elem_of_lookup. by exists k.
    + destruct (decide (start_block f >= sb)) as [Hs|Hs].
      * right. exists (length pre), f.
        assert (Hn : 0 < num_blocks f).
        { destruct Hf as [(H0 & _)|H]; [|lia].
          unfold DIR_DATA_NUM_BLOCKS in *. lia. }
        destruct (file_ok_end N f Hf Hn) as (? & ? & ?).
        split; [by rewrite list_lookup_middle|]. split; [done|].
        apply u32_small. unfold is_u32 in *. unfold extent_end in *.
        unfold DIR_DATA_NUM_BLOCKS in *. lia.
      * destruct Hwhy as [->|(k & g & Hk & Hg & ->)]; [by left|].
        right. exists k, g. split; [|done].
        apply lookup_app_l_Some. done.
Qed.

(** Over disjoint extents the scan of [expand_empty_file] computes the
    maximum end of all extents (and at least DIR_DATA_NUM_BLOCKS). *)
Lemma last_block_scan_max (s : fs) :
  ext_inv s → last_block_scan (file_list s) DIR_DATA_NUM_BLOCKS = max_end (file_list s).
Proof.
  intros (HN & Hok & Hdis & _).
  apply (last_block_scan_max_gen (partition_num_blocks s) (file_list s) []); try done.
  by left.
Qed.

Lemma tail_free_spec (l : list file) (lo hi : Z) :
  tail_free l lo hi = true ↔ Forall (λ g, ¬ (lo ≤ start_block g < hi)) l.
Proof.
  induction l as [|g l IH]; simpl; [done|].
  destruct (bool_decide (start_block g >= lo)) eqn:E1;
    destruct (bool_decide (start_block g < hi)) eqn:E2; simpl;
    try apply bool_decide_eq_true in E1; try apply bool_decide_eq_true in E2;
    try apply bool_decide_eq_false in E1; try apply bool_decide_eq_false in E2.
  - split; [done|]. intros H. apply Forall_cons in H as [H _]. lia.
  - rewrite IH, Forall_cons. split; [|tauto]. intros H; split; [lia|done].
  - rewrite IH, Forall_cons. split; [|tauto]. intros H; split; [lia|done].
  - rewrite IH, Forall_cons. split; [|tauto]. intros H; split; [lia|done].
Qed.

Lemma tail_free_false (l : list file) (lo hi : Z) :
  tail_free l lo hi = false → ∃ j g, l !! j = Some g ∧ lo ≤ start_block g < hi.
Proof.
  induction l as [|g l IH]; simpl; [done|].
  destruct (bool_decide (start_block g >= lo)) eqn:E1;
    destruct (bool_decide (start_block g < hi)) eqn:E2; simpl;
    try apply bool_decide_eq_true in E1; try apply bool_decide_eq_true in E2.
  - intros _. exists 0%nat, g. split; [done|lia].
  - intros H. destruct (IH H) as (j & g' & ? & ?). by exists (S j), g'.
  - intros H. destruct (IH H) as (j & g' & ? & ?). by exists (S j), g'.
  - intros H. destruct (IH H) as (j & g' & ? & ?). by exists (S j), g'.
Qed.

(** For a record with blocks, "some record starts in the tail range" is
    the same as "some other record does": its own start lies before. *)
Lemma tail_free_blocked (l : list file) (i : nat) (f : file) (hi : Z) :
  l !! i = Some f → start_block f < extent_end f →
  tail_free l (extent_end f) hi = false ↔ tail_blocked l i (extent_end f) hi.
Proof.
  intros Hf Hn. split.
  - intros H. destruct (tail_free_false _ _ _ H) as (j & g & Hj & Hr).
    exists j, g. split; [|done]. intros ->. rewrite Hf in Hj. injection Hj as <-. lia.
  - intros (j & g & Hj & Hg & Hr).
    destruct (tail_free l (extent_end f) hi) eqn:E; [|done].
    apply tail_free_spec in E. eapply Forall_lookup_1 in E; [|exact Hg]. lia.
Qed.

Lemma expand_empty_file_eq (s : fs) (i : nat) (f : file) (needed_blocks : Z) :
  ext_inv s → dir_inv s →
  file_list s !! i = Some f →
  0 < needed_blocks ≤ MAX_NEEDED_BLOCKS →
  expand_empty_file i needed_blocks s =
    let sb := max_end (file_list s) in
    if decide (sb + needed_blocks >= partition_num_blocks s) then (ERR_FOUND, s)
    else (0, set_storage
               (set_file_list s (<[i := set_extent f sb needed_blocks]> (file_list s)))
               (zero_blocks sb 0 (Z.to_nat needed_blocks) (storage s))).
Proof.
  intros Hext Hdir Hf Hnb. unfold expand_empty_file.
  rewrite (last_block_scan_max s Hext).
  pose proof (max_end_bound s Hext Hdir) as Hb.
  pose proof (max_end_ge (file_list s)) as Hg.
  unfold MAX_NEEDED_BLOCKS, DIR_DATA_NUM_BLOCKS in *.
  rewrite u32_small by (unfold is_u32; lia).
  cbv zeta. destruct (decide _) as [?|?]; [done|].
  f_equal. unfold update_file. simpl. by rewrite Hf.
Qed.

Lemma expand_existing_file_eq (s : fs) (i : nat) (f : file) (needed_blocks : Z) :
  ext_inv s → dir_inv s →
  file_list s !! i = Some f → 0 < num_blocks f →
  0 < needed_blocks ≤ MAX_NEEDED_BLOCKS →
  expand_existing_file i needed_blocks s =
    let tail := extent_end f in
    if tail_free (file_list s) tail (tail + needed_blocks) then
      if decide (tail + needed_blocks >= partition_num_blocks s) then (ERR_FOUND, s)
      else (0, set_storage
                 (set_file_list s
                    (<[i := set_extent f (start_block f) (num_blocks f + needed_blocks)]>
                       (file_list s)))
                 (zero_blocks tail 0 (Z.to_nat needed_blocks) (storage s)))
    else (ERR_FOUND, s).
Proof.
  intros Hext Hdir Hf Hn Hnb. unfold expand_existing_file. rewrite Hf.
  pose proof (max_end_bound s Hext Hdir) as Hb.
  pose proof (max_end_lookup _ _ _ Hf) as Hle.
  destruct Hext as (HN & Hok & _).
  assert (Hfo : file_ok (partition_num_blocks s) f).
  { eapply Forall_forall; [exact Hok|]. apply list_elem_of_lookup. by exists i. }
  destruct (file_ok_end _ _ Hfo Hn) as (H2 & Hlt & HeN).
  pose proof (file_ok_blocks _ _ Hfo) as Hfb.
  unfold MAX_NEEDED_BLOCKS, DIR_DATA_NUM_BLOCKS in *.
  fold (extent_end f).
  rewrite (u32_small (extent_end f)) by (unfold is_u32; lia).
  rewrite (u32_small (extent_end f + needed_blocks)) by (unfold is_u32; lia).
  cbv zeta. destruct (tail_free _ _ _); [|done].
  destruct (decide _) as [?|?]; [done|].
  f_equal. unfold update_file. simpl. rewrite Hf.
  rewrite u32_small by (unfold is_u32; lia). done.
Qed.

Lemma blocks_for_bounds (n : Z) :
  0 < n < 4294967296 →
  0 < blocks_for n ≤ MAX_NEEDED_BLOCKS ∧
  n ≤ blocks_for n * STORAGE_BLOCK_SIZE < n + STORAGE_BLOCK_SIZE.
Proof.
  intros Hn. unfold blocks_for, MAX_NEEDED_BLOCKS, STORAGE_BLOCK_SIZE.
  pose proof (Z.div_mod n 512). pose proof (Z.mod_pos_bound n 512).
  destruct (decide (n mod 512 ≠ 0)); lia.
Qed.

(** Records of the list with their place in the directory buffer. *)
Lemma layout_app (l1 l2 : list file) (off : Z) :
  layout (l1 ++ l2) off ↔ layout l1 off ∧ layout l2 (off + dir_end l1 - 6).
Proof.
  revert off. induction l1 as [|f l1 IH]; intros off.
  - change (dir_end []) with 6. rewrite app_nil_l. simpl.
    replace (off + 6 - 6) with off by lia. tauto.
  - change (dir_end (f :: l1)) with (record_size f + dir_end l1). simpl.
    rewrite IH. replace (off + record_size f + dir_end l1 - 6)
      with (off + (record_size f + dir_end l1) - 6) by lia. tauto.
Qed.

Lemma layout_lookup (l : list file) (i : nat) (f : file) :
  layout l 6 → l !! i = Some f →
  dir_data_off f = dir_end (take i l) ∧
  dir_end l = dir_end (take i l) + record_size f + (dir_end (drop (S i) l) - 6).
Proof.
  intros Hl Hf. rewrite <- (take_drop_middle l i f Hf) in Hl at 1.
  apply layout_app in Hl as [_ Hl]. simpl in Hl. destruct Hl as [Ho _].
  split; [lia|].
  rewrite <- (take_drop_middle l i f Hf) at 1.
  rewrite dir_end_app.
  change (dir_end (f :: drop (S i) l)) with (record_size f + dir_end (drop (S i) l)). lia.
Qed.

Lemma dir_end_ge (l : list file) : 6 ≤ dir_end l.
Proof. pose proof (dir_end_count l). lia. Qed.

Lemma record_fits (s : fs) (i : nat) (f : file) :
  dir_inv s → file_list s !! i = Some f →
  strlen (filename f) ≤ MAX_FILENAME_SIZE ∧ 6 ≤ dir_data_off f ∧
  dir_data_off f + record_size f ≤ DIR_DATA_SIZE.
Proof.
  intros (_ & _ & Hfit & Hlay & _ & Hnames & _) Hf.
  destruct (layout_lookup _ _ _ Hlay Hf) as [Ho He].
  pose proof (dir_end_ge (take i (file_list s))).
  pose proof (dir_end_ge (drop (S i) (file_list s))).
  split; [|lia].
  eapply Forall_lookup_1 in Hnames; [|exact Hf]. by destruct Hnames.
Qed.

(** ** Growing a file *)

Lemma file_ok_lookup (s : fs) (i : nat) (f : file) :
  ext_inv s → file_list s !! i = Some f → file_ok (partition_num_blocks s) f.
Proof.
  intros (_ & Hok & _) Hf. eapply Forall_lookup_1; [exact Hok|exact Hf].
Qed.

Lemma file_ok_size (N : Z) (f : file) : file_ok N f → 0 ≤ size f < 4294967296.
Proof. intros [(_ & _ & ->)|(_ & _ & _ & H & _)]; lia. Qed.

(** The second half of [expand_file_size]: store the new size, re-encode
    the record in the directory buffer, flush. *)
Lemma expand_commit (s1 : fs) (i : nat) (f1 : file) (sz : Z) :
  file_list s1 !! i = Some f1 →
  strlen (filename f1) ≤ MAX_FILENAME_SIZE →
  0 ≤ dir_data_off f1 →
  dir_data_off f1 + record_size f1 ≤ DIR_DATA_SIZE →
  length (dir_data s1) = 1024%nat →
  (let s := update_file s1 i (λ f, set_size f sz) in
   let '(ret, s) :=
     match file_list s !! i with
     | Some f => update_file_in_directory f s
     | None => (ERR_INVALID, s)
     end in
   (ret, flush_dir_data_to_storage s)) =
  (0, Fs (partition_num_blocks s1) (fd_bitmap s1) (file_array s1)
         (<[i := set_size f1 sz]> (file_list s1))
         (poke (dir_data s1) (dir_data_off f1) (encode_record (set_size f1 sz)))
         (dir_data_ptr s1)
         (snd (write_blocks
                 (poke (dir_data s1) (dir_data_off f1) (encode_record (set_size f1 sz)))
                 0 DIR_DATA_NUM_BLOCKS (storage s1)))).
Proof.
  intros Hf Hn H0 Hfit Hlen. cbv zeta.
  rewrite (update_file_list _ _ _ _ Hf). simpl file_list.
  rewrite list_lookup_insert_eq by (by eapply lookup_lt_Some).
  rewrite update_file_in_directory_ok by done. done.
Qed.

Lemma expand_file_size_spec (s : fs) (i : nat) (f : file) (sz : Z) :
  fs_inv s → file_list s !! i = Some f → is_u32 sz → size f < sz →
  expand_file_size i sz s = (ERR_FOUND, s) ∨
  ∃ f' st', grown s f sz f' ∧
    expand_file_size i sz s =
      (0, Fs (partition_num_blocks s) (fd_bitmap s) (file_array s)
             (<[i := f']> (file_list s))
             (poke (dir_data s) (dir_data_off f) (encode_record f'))
             (dir_data_ptr s) st').
Proof.
  intros (Hfd & Hext & Hdir) Hf Hsz Hlt.
  pose proof (file_ok_lookup s i f Hext Hf) as Hok.
  pose proof (file_ok_size _ _ Hok) as Hfs.
  destruct (record_fits s i f Hdir Hf) as (Hn & Ho & Hfit).
  assert (Hlen : length (dir_data s) = 1024%nat) by (by destruct Hdir).
  unfold is_u32 in Hsz.
  unfold expand_file_size. rewrite Hf.
  destruct (decide (size f >= sz)) as [?|_]; [lia|].
  pose proof (Z.mod_pos_bound (size f) 512 ltac:(lia)) as Hm.
  rewrite (u32_small (STORAGE_BLOCK_SIZE - _))
    by (unfold is_u32, STORAGE_BLOCK_SIZE; lia).
  destruct (decide (size f = 0)) as [Hz|Hnz].
  - (* empty file *)
    rewrite (bool_decide_eq_true_2 (size f = 0)) by done.
    rewrite Hz. change (0 mod STORAGE_BLOCK_SIZE) with 0.
    rewrite (bool_decide_eq_false_2 (STORAGE_BLOCK_SIZE - 0 ≠ STORAGE_BLOCK_SIZE)) by lia.
    cbn [andb].
    destruct (blocks_for_bounds sz ltac:(lia)) as (Hb1 & Hb2).
    assert (Enb : (if decide (sz mod STORAGE_BLOCK_SIZE ≠ 0)
                   then u32 (sz / STORAGE_BLOCK_SIZE + 1) else sz / STORAGE_BLOCK_SIZE)
                  = blocks_for sz).
    { unfold blocks_for in *. unfold MAX_NEEDED_BLOCKS in *.
      destruct (decide _); [|lia]. rewrite u32_small; [done|]. unfold is_u32. lia. }
    rewrite Enb, (expand_empty_file_eq s i f) by done. cbv zeta.
    destruct (decide (max_end (file_list s) + blocks_for sz >= partition_num_blocks s)).
    + left. done.
    + right. cbv iota beta. rewrite decide_True by done.
      set (f1 := set_extent f (max_end (file_list s)) (blocks_for sz)).
      set (s1 := set_storage _ _).
      rewrite (expand_commit s1 i f1) by
        (first [ by (subst s1; simpl; apply list_lookup_insert_eq; eapply lookup_lt_Some)
               | done | simpl; lia ]).
      eexists (set_size f1 sz), _. split.
      * unfold grown. simpl. split_and!; try done. right. left. split_and!; try done; lia.
      * subst s1 f1. simpl. by rewrite list_insert_insert_eq.
  - (* file with blocks *)
    rewrite (bool_decide_eq_false_2 (size f = 0)) by done.
    rewrite (u32_small (sz - size f)) by (unfold is_u32; lia).
    destruct (decide (STORAGE_BLOCK_SIZE - size f mod STORAGE_BLOCK_SIZE ≠ STORAGE_BLOCK_SIZE
                      ∧ STORAGE_BLOCK_SIZE - size f mod STORAGE_BLOCK_SIZE >= sz - size f))
      as [[Hl1 Hl2]|Hnl].
    + (* room in the last block *)
      rewrite !bool_decide_eq_true_2 by done. cbn [andb]. cbv iota beta.
      rewrite decide_True by done.
      rewrite (expand_commit s i f) by (first [done|lia]).
      right. eexists (set_size f sz), _. split; [|done].
      unfold grown. simpl. split_and!; try done. left.
      unfold STORAGE_BLOCK_SIZE in *. split_and!; try done; lia.
    + assert (Ecase : bool_decide (STORAGE_BLOCK_SIZE - size f mod STORAGE_BLOCK_SIZE
                                   ≠ STORAGE_BLOCK_SIZE)
                      && bool_decide (STORAGE_BLOCK_SIZE - size f mod STORAGE_BLOCK_SIZE
                                      >= sz - size f) = false).
      { apply andb_false_iff.
        destruct (decide (STORAGE_BLOCK_SIZE - size f mod STORAGE_BLOCK_SIZE
                          ≠ STORAGE_BLOCK_SIZE)).
        - right. apply bool_decide_eq_false_2. tauto.
        - left. by apply bool_decide_eq_false_2. }
      rewrite Ecase.
      destruct (blocks_for_bounds (sz - size f) ltac:(lia)) as (Hb1 & Hb2).
      assert (Enb : (if decide ((sz - size f) mod STORAGE_BLOCK_SIZE ≠ 0)
                     then u32 ((sz - size f) / STORAGE_BLOCK_SIZE + 1)
                     else (sz - size f) / STORAGE_BLOCK_SIZE)
                    = blocks_for (sz - size f)).
      { unfold blocks_for in *. unfold MAX_NEEDED_BLOCKS in *.
        destruct (decide _); [|lia]. rewrite u32_small; [done|]. unfold is_u32. lia. }
      assert (Hnum : 0 < num_blocks f).
      { destruct Hok as [(_ & _ & ?)|H]; [lia|]. lia. }
      rewrite Enb, (expand_existing_file_eq s i f) by done. cbv zeta.
      destruct (tail_free _ _ _) eqn:Htf; [|by left].
      destruct (decide (extent_end f + blocks_for (sz - size f) >= partition_num_blocks s)).
      * left. done.
      * right. cbv iota beta. rewrite decide_True by done.
        set (f1 := set_extent f (start_block f)
                     (num_blocks f + blocks_for (sz - size f))).
        set (s1 := set_storage _ _).
        rewrite (expand_commit s1 i f1) by
          (first [ by (subst s1; simpl; apply list_lookup_insert_eq; eapply lookup_lt_Some)
               | done | simpl; lia ]).
        eexists (set_size f1 sz), _. split.
        -- unfold grown. simpl. split_and!; try done. right. right.
           unfold STORAGE_BLOCK_SIZE in *. split_and!; try done; try lia.
        -- subst s1 f1. simpl. by rewrite list_insert_insert_eq.
Qed.

(** ** Replacing one record of the list *)

Lemma sum_blocks_insert (l : list file) (i : nat) (f f' : file) :
  l !! i = Some f →
  sum_blocks (<[i := f']> l) = sum_blocks l - num_blocks f + num_blocks f'.
Proof.
  intros Hf. rewrite insert_take_drop by (by eapply lookup_lt_Some).
  rewrite <- (take_drop_middle l i f Hf) at 3.
  rewrite !sum_blocks_app.
  change (sum_blocks (f' :: drop (S i) l)) with (num_blocks f' + sum_blocks (drop (S i) l)).
  change (sum_blocks (f :: drop (S i) l)) with (num_blocks f + sum_blocks (drop (S i) l)).
  lia.
Qed.

Lemma max_end_insert (l : list file) (i : nat) (f f' : file) :
  l !! i = Some f →
  max_end (<[i := f']> l) ≤ Z.max (max_end l) (extent_end f').
Proof.
  intros Hf. rewrite insert_take_drop by (by eapply lookup_lt_Some).
  rewrite <- (take_drop_middle l i f Hf) at 3.
  rewrite !max_end_app.
  change (max_end (f' :: drop (S i) l)) with (Z.max (extent_end f') (max_end (drop (S i) l))).
  change (max_end (f :: drop (S i) l)) with (Z.max (extent_end f) (max_end (drop (S i) l))).
  lia.
Qed.

Lemma dir_end_insert (l : list file) (i : nat) (f f' : file) :
  l !! i = Some f → filename f' = filename f →
  dir_end (<[i := f']> l) = dir_end l.
Proof.
  intros Hf Hn. rewrite insert_take_drop by (by eapply lookup_lt_Some).
  rewrite <- (take_drop_middle l i f Hf) at 3.
  rewrite !dir_end_app.
  change (dir_end (f' :: drop (S i) l)) with (record_size f' + dir_end (drop (S i) l)).
  change (dir_end (f :: drop (S i) l)) with (record_size f + dir_end (drop (S i) l)).
  unfold record_size. by rewrite Hn.
Qed.

Lemma layout_insert (l : list file) (i : nat) (f f' : file) :
  l !! i = Some f → filename f' = filename f → dir_data_off f' = dir_data_off f →
  layout l 6 → layout (<[i := f']> l) 6.
Proof.
  intros Hf Hn Ho. rewrite insert_take_drop by (by eapply lookup_lt_Some).
  rewrite <- (take_drop_middle l i f Hf) at 1.
  rewrite !layout_app. simpl. unfold record_size. rewrite Hn, Ho. tauto.
Qed.

Lemma length_concat_encode (l : list file) :
  Z.of_nat (length (concat (map encode_record l))) = dir_end l - 6.
Proof.
  induction l as [|f l IH]; [done|].
  change (dir_end (f :: l)) with (record_size f + dir_end l).
  cbn [map concat]. rewrite length_app, Nat2Z.inj_add, IH, length_encode_record. lia.
Qed.

Lemma length_serialize (l : list file) : Z.of_nat (length (serialize l)) = dir_end l.
Proof.
  unfold serialize. rewrite !length_app, !Nat2Z.inj_add, length_concat_encode.
  rewrite length_le16. change (Z.of_nat (length signature)) with 4. lia.
Qed.

Lemma serialize_split (l1 l2 : list file) (f : file) (n : Z) :
  signature ++ le16 n ++ concat (map encode_record (l1 ++ f :: l2)) =
  (signature ++ le16 n ++ concat (map encode_record l1)) ++
  encode_record f ++ concat (map encode_record l2).
Proof. rewrite map_app, concat_app. cbn [map concat]. by rewrite <- !app_assoc. Qed.

Lemma length_serialize_prefix (l1 : list file) (n : Z) :
  Z.of_nat (length (signature ++ le16 n ++ concat (map encode_record l1))) = dir_end l1.
Proof.
  rewrite !length_app, !Nat2Z.inj_add, length_concat_encode.
  rewrite length_le16. change (Z.of_nat (length signature)) with 4. lia.
Qed.

(** Re-encoding record [i] in place turns the serialized list into the
    serialized updated list. *)
Lemma poke_serialize (l : list file) (i : nat) (f f' : file) (rest : list Z) :
  l !! i = Some f → filename f' = filename f → layout l 6 →
  poke (serialize l ++ rest) (dir_data_off f) (encode_record f') =
  serialize (<[i := f']> l) ++ rest.
Proof.
  intros Hf Hn Hlay.
  destruct (layout_lookup l i f Hlay Hf) as [Ho _].
  assert (Hi : (i < length l)%nat) by (by eapply lookup_lt_Some).
  unfold serialize. rewrite length_insert.
  rewrite insert_take_drop by done.
  set (n := Z.of_nat (length l)).
  set (pre := signature ++ le16 n ++ concat (map encode_record (take i l))).
  set (post := concat (map encode_record (drop (S i) l)) ++ rest).
  assert (E1 : (signature ++ le16 n ++ concat (map encode_record l)) ++ rest
               = pre ++ encode_record f ++ post).
  { rewrite <- (take_drop_middle l i f Hf) at 1.
    rewrite serialize_split. subst pre post. by rewrite <- !app_assoc. }
  assert (E2 : (signature ++ le16 n ++
                concat (map encode_record (take i l ++ f' :: drop (S i) l))) ++ rest
               = pre ++ encode_record f' ++ post).
  { rewrite serialize_split. subst pre post. by rewrite <- !app_assoc. }
  rewrite E1, E2. apply poke_middle.
  - subst pre. rewrite length_serialize_prefix. done.
  - apply Nat2Z.inj. rewrite !length_encode_record. unfold record_size. by rewrite Hn.
Qed.

(** ** Growing a file preserves the invariants *)

Lemma grown_file_ok (s : fs) (i : nat) (f f' : file) (sz : Z) :
  ext_inv s → file_list s !! i = Some f → is_u32 sz → size f < sz →
  grown s f sz f' → file_ok (partition_num_blocks s) f'.
Proof.
  intros Hext Hf Hsz Hlt (_ & _ & _ & Hs' & Hg).
  pose proof (file_ok_lookup s i f Hext Hf) as Hok.
  pose proof (file_ok_size _ _ Hok) as Hfs.
  pose proof (max_end_ge (file_list s)) as Hge.
  unfold is_u32 in Hsz. right. unfold extent_end.
  pose proof (Z.div_mod (size f) 512 ltac:(lia)) as D1.
  pose proof (Z.mod_pos_bound (size f) 512 ltac:(lia)) as D2.
  pose proof (Z.div_mod (size f + 511) 512 ltac:(lia)) as D3.
  pose proof (Z.mod_pos_bound (size f + 511) 512 ltac:(lia)) as D4.
  pose proof (Z.div_mod (sz + 511) 512 ltac:(lia)) as D5.
  pose proof (Z.mod_pos_bound (sz + 511) 512 ltac:(lia)) as D6.
  unfold file_ok, extent_end in Hok.
  unfold STORAGE_BLOCK_SIZE, DIR_DATA_NUM_BLOCKS in *.
  destruct Hg as [(E1 & E2 & Hm & Hroom)|[(Hz & E1 & E2 & HN)|(Hp & E1 & E2 & Hno & _ & HN)]];
    rewrite Hs', E1, E2.
  - destruct Hok as [(_ & _ & ?)|(H2 & Hn & HeN & _ & Hcap & Hdbl)]; [lia|].
    unfold extent_end in *. split_and!; try lia.
  - destruct (blocks_for_bounds sz ltac:(lia)) as (Hb1 & Hb2).
    unfold STORAGE_BLOCK_SIZE in *. split_and!; try lia.
  - destruct Hok as [(_ & _ & ?)|(H2 & Hn & HeN & _ & Hcap & Hdbl)]; [lia|].
    destruct (blocks_for_bounds (sz - size f) ltac:(lia)) as (Hb1 & Hb2).
    unfold STORAGE_BLOCK_SIZE, extent_end in *. split_and!; try lia.
Qed.

Lemma grown_disjoint (s : fs) (i : nat) (f f' : file) (sz : Z) :
  ext_inv s → file_list s !! i = Some f → is_u32 sz → size f < sz →
  grown s f sz f' → disjoint_extents (<[i := f']> (file_list s)).
Proof.
  intros Hext Hf Hsz Hlt Hgr.
  pose proof (file_ok_lookup s i f Hext Hf) as Hok.
  assert (Hi : (i < length (file_list s))%nat) by (by eapply lookup_lt_Some).
  assert (Hone : ∀ k g, k ≠ i → file_list s !! k = Some g →
            0 < num_blocks g → 0 < num_blocks f' →
            extent_end f' ≤ start_block g ∨ extent_end g ≤ start_block f').
  { intros k g Hk Hg Hng Hnf'.
    pose proof (max_end_lookup _ _ _ Hg) as Hmax.
    pose proof (file_ok_lookup s k g Hext Hg) as Hokg.
    destruct Hext as (_ & _ & Hdis & _).
    destruct Hgr as (_ & _ & _ & _ & [(E1 & E2 & _)|[(Hz & E1 & E2 & _)|(Hp & E1 & E2 & _ & Htf & _)]]).
    - unfold extent_end. rewrite E1, E2.
      destruct (Hdis i k f g) as [?|?]; try done; try lia; unfold extent_end in *; lia.
    - right. lia.
    - assert (Hnf : 0 < num_blocks f).
      { destruct Hok as [(_ & _ & ?)|?]; lia. }
      unfold extent_end at 1. rewrite E1, E2.
      apply tail_free_spec in Htf. eapply Forall_lookup_1 in Htf; [|exact Hg].
      destruct (Hdis i k f g) as [?|?]; try done; try lia;
        unfold extent_end in *; lia. }
  intros j k a b Hjk Ha Hb Hna Hnb.
  destruct (decide (j = i)) as [->|Hj]; destruct (decide (k = i)) as [->|Hk]; [done| | |].
  - rewrite list_lookup_insert_eq in Ha by done. injection Ha as <-.
    rewrite list_lookup_insert_ne in Hb by done. by apply (Hone k b).
  - rewrite list_lookup_insert_eq in Hb by done. injection Hb as <-.
    rewrite list_lookup_insert_ne in Ha by done.
    destruct (Hone j a) as [?|?]; try done; by auto.
  - rewrite list_lookup_insert_ne in Ha, Hb by done.
    destruct Hext as (_ & _ & Hdis & _). by apply (Hdis j k).
Qed.

Lemma grown_ext_inv (s : fs) (i : nat) (f f' : file) (sz : Z) (d : list Z)
    (st : gmap Z (list Z)) :
  ext_inv s → file_list s !! i = Some f → is_u32 sz → size f < sz →
  grown s f sz f' →
  ext_inv (Fs (partition_num_blocks s) (fd_bitmap s) (file_array s)
              (<[i := f']> (file_list s)) d (dir_data_ptr s) st).
Proof.
  intros Hext Hf Hsz Hlt Hgr. unfold ext_inv. simpl.
  pose proof (grown_file_ok s i f f' sz Hext Hf Hsz Hlt Hgr) as Hok'.
  pose proof (grown_disjoint s i f f' sz Hext Hf Hsz Hlt Hgr) as Hdis'.
  pose proof (file_ok_lookup s i f Hext Hf) as Hok.
  pose proof (max_end_lookup _ _ _ Hf) as Hmax.
  destruct Hext as (HN & Hall & Hdis & Hpack).
  split_and!; try done.
  - by apply Forall_insert.
  - pose proof (max_end_insert (file_list s) i f f' Hf).
    rewrite (sum_blocks_insert _ _ f) by done.
    destruct Hgr as (_ & _ & _ & _ & [(E1 & E2 & _)|[(Hz & E1 & E2 & _)|(Hp & E1 & E2 & _)]]).
    + unfold extent_end in *. rewrite E1, E2 in *. lia.
    + destruct Hok as [(_ & Hn0 & _)|?]; [|lia].
      destruct (blocks_for_bounds sz ltac:(unfold is_u32 in *; lia)) as (Hb1 & _).
      unfold extent_end in *. rewrite E1, E2 in *. lia.
    + destruct (blocks_for_bounds (sz - size f)) as (Hb1 & _).
      { pose proof (file_ok_size _ _ Hok). unfold is_u32 in *. lia. }
      unfold extent_end in *. rewrite E1, E2 in *. lia.
Qed.

Lemma grown_dir_inv (s : fs) (i : nat) (f f' : file) (sz : Z) (st : gmap Z (list Z)) :
  dir_inv s → file_list s !! i = Some f → grown s f sz f' →
  dir_inv (Fs (partition_num_blocks s) (fd_bitmap s) (file_array s)
              (<[i := f']> (file_list s))
              (poke (dir_data s) (dir_data_off f) (encode_record f'))
              (dir_data_ptr s) st).
Proof.
  intros Hdir Hf (Hn & Ho & _).
  destruct (record_fits s i f Hdir Hf) as (Hnl & H6 & Hfit).
  destruct Hdir as (Hlen & Hptr & Hend & Hlay & (rest & Hd) & Hnames & Hnd).
  unfold dir_inv. simpl. rewrite (dir_end_insert _ _ f) by done.
  split_and!; try done.
  - rewrite length_poke; [done|lia|].
    rewrite length_encode_record. unfold record_size in *. rewrite Hn.
    unfold DIR_DATA_SIZE, STORAGE_BLOCK_SIZE, DIR_DATA_NUM_BLOCKS in *. lia.
  - by apply (layout_insert _ _ f).
  - exists rest. rewrite Hd. by apply poke_serialize.
  - apply Forall_insert; [done|]. unfold name_ok. rewrite Hn.
    by eapply (Forall_lookup_1 _ _ _ _ Hnames).
  - rewrite list_fmap_insert, Hn. rewrite list_insert_id; [done|].
    by rewrite list_lookup_fmap, Hf.
Qed.

Lemma grown_fs_inv (s : fs) (i : nat) (f f' : file) (sz : Z) (st : gmap Z (list Z)) :
  fs_inv s → file_list s !! i = Some f → is_u32 sz → size f < sz →
  grown s f sz f' →
  fs_inv (Fs (partition_num_blocks s) (fd_bitmap s) (file_array s)
             (<[i := f']> (file_list s))
             (poke (dir_data s) (dir_data_off f) (encode_record f'))
             (dir_data_ptr s) st).
Proof.
  intros (Hfd & Hext & Hdir) Hf Hsz Hlt Hgr. split_and!.
  - eapply fd_inv_frame; [..|exact Hfd]; try done. simpl.
    intros j g Hg Ho. destruct (decide (j = i)) as [->|Hj].
    + exists f'. rewrite list_lookup_insert_eq by (by eapply lookup_lt_Some).
      split; [done|]. destruct Hgr as (_ & _ & -> & _). congruence.
    + exists g. by rewrite list_lookup_insert_ne.
  - by apply (grown_ext_inv s i f f' sz).
  - by apply (grown_dir_inv s i f f' sz).
Qed.

(** ** Every call preserves the invariants *)

Lemma fs_inv_storage (s : fs) (st : gmap Z (list Z)) :
  fs_inv s → fs_inv (set_storage s st).
Proof. intros H. exact H. Qed.

Lemma expand_file_size_inv (s : fs) (i : nat) (sz : Z) :
  fs_inv s → is_u32 sz → fs_inv (snd (expand_file_size i sz s)).
Proof.
  intros Hinv Hsz.
  destruct (file_list s !! i) as [f|] eqn:Hf.
  - destruct (decide (size f < sz)) as [Hlt|Hge].
    + destruct (expand_file_size_spec s i f sz Hinv Hf Hsz Hlt) as [->|(f' & st' & Hg & ->)];
        [done|]. simpl. by apply (grown_fs_inv s i f f' sz).
    + unfold expand_file_size. rewrite Hf. by rewrite decide_True by lia.
  - unfold expand_file_size. by rewrite Hf.
Qed.

Lemma write_inv (fd : Z) (data : list Z) (sz offset : Z) (s : fs) :
  fs_inv s → fs_inv (snd (file_system_write_to_file fd data sz offset s)).
Proof.
  intros Hinv. unfold file_system_write_to_file.
  destruct (decide _); [done|].
  destruct (file_array s !! Z.to_nat fd) as [[i|]|]; [|done|done].
  destruct (file_list s !! i) as [f|]; [|done].
  destruct (negb (opened f)); [done|].
  destruct (_ && _); [done|].
  set (s1 := if decide (size f < u32 (offset + sz)) then _ else s).
  assert (H1 : fs_inv s1).
  { subst s1. destruct (decide _); [|done].
    apply expand_file_size_inv; [done|]. unfold is_u32, u32. apply Z.mod_pos_bound. lia. }
  clearbody s1.
  destruct (file_list s1 !! i) as [f1|]; [|done].
  destruct (decide _); [done|].
  destruct (write_loop _ _ _ _ _ _ _ _ _) as [w st]. simpl. done.
Qed.

Lemma read_inv (fd sz offset : Z) (s : fs) :
  fs_inv s → fs_inv (snd (file_system_read_from_file fd sz offset s)).
Proof.
  intros Hinv. unfold file_system_read_from_file.
  destruct (decide _); [done|].
  destruct (file_array s !! Z.to_nat fd) as [[i|]|]; [|done|done].
  destruct (file_list s !! i) as [f|]; [|done].
  destruct (negb (opened f)); [done|].
  destruct (decide _); [done|].
  destruct (read_loop _ _ _ _ _ _ _ _ _) as [[out r] st]. simpl. done.
Qed.

Lemma shutdown_inv (s : fs) : fs_inv s → fs_inv (close_file_system s).
Proof. intros H. exact H. Qed.

(** Setting or clearing [opened] leaves extents and directory alone. *)
Lemma max_end_insert_same (l : list file) (i : nat) (f f' : file) :
  l !! i = Some f → extent_end f' = extent_end f →
  max_end (<[i := f']> l) = max_end l.
Proof.
  intros Hf He. rewrite insert_take_drop by (by eapply lookup_lt_Some).
  rewrite <- (take_drop_middle l i f Hf) at 3.
  rewrite !max_end_app.
  change (max_end (f' :: drop (S i) l)) with (Z.max (extent_end f') (max_end (drop (S i) l))).
  change (max_end (f :: drop (S i) l)) with (Z.max (extent_end f) (max_end (drop (S i) l))).
  by rewrite He.
Qed.

Lemma retag_ext_inv (s : fs) (i : nat) (f : file) (b : bool) (bm : list Z)
    (fa : list (option nat)) :
  ext_inv s → file_list s !! i = Some f →
  ext_inv (Fs (partition_num_blocks s) bm fa (<[i := set_opened f b]> (file_list s))
              (dir_data s) (dir_data_ptr s) (storage s)).
Proof.
  intros Hext Hf.
  pose proof (file_ok_lookup s i f Hext Hf) as Hok.
  assert (Hi : (i < length (file_list s))%nat) by (by eapply lookup_lt_Some).
  destruct Hext as (HN & Hall & Hdis & Hpack).
  unfold ext_inv. simpl. split_and!; try done.
  - by apply Forall_insert.
  - intros j k a c Hjk Ha Hc Hna Hnc.
    assert (Hsame : ∀ m x, <[i := set_opened f b]> (file_list s) !! m = Some x →
              ∃ y, file_list s !! m = Some y ∧ start_block y = start_block x ∧
                   num_blocks y = num_blocks x).
    { intros m x Hx. destruct (decide (m = i)) as [->|Hm].
      - rewrite list_lookup_insert_eq in Hx by done. injection Hx as <-. by exists f.
      - rewrite list_lookup_insert_ne in Hx by done. by exists x. }
    destruct (Hsame j a Ha) as (a' & Ha' & Ea1 & Ea2).
    destruct (Hsame k c Hc) as (c' & Hc' & Ec1 & Ec2).
    unfold extent_end. rewrite <- Ea1, <- Ea2, <- Ec1, <- Ec2.
    apply (Hdis j k a' c'); try done; lia.
  - rewrite (max_end_insert_same _ _ f) by done.
    rewrite (sum_blocks_insert _ _ f) by done. simpl. lia.
Qed.

Lemma retag_dir_inv (s : fs) (i : nat) (f : file) (b : bool) (bm : list Z)
    (fa : list (option nat)) :
  dir_inv s → file_list s !! i = Some f →
  dir_inv (Fs (partition_num_blocks s) bm fa (<[i := set_opened f b]> (file_list s))
              (dir_data s) (dir_data_ptr s) (storage s)).
Proof.
  intros (Hlen & Hptr & Hend & Hlay & (rest & Hd) & Hnames & Hnd) Hf.
  unfold dir_inv. simpl. rewrite (dir_end_insert _ _ f) by done.
  split_and!; try done.
  - by apply (layout_insert _ _ f).
  - exists rest. rewrite Hd. f_equal. unfold serialize. rewrite length_insert.
    do 3 f_equal. rewrite list_fmap_insert. rewrite list_insert_id; [done|].
    by rewrite list_lookup_fmap, Hf.
  - apply Forall_insert; [done|]. change (name_ok f).
    by eapply (Forall_lookup_1 _ _ _ _ Hnames).
  - rewrite list_fmap_insert. rewrite list_insert_id; [done|].
    by rewrite list_lookup_fmap, Hf.
Qed.

Lemma close_inv (fd : Z) (s : fs) :
  fs_inv s → fs_inv (snd (file_system_close_file fd s)).
Proof.
  intros Hinv. unfold file_system_close_file.
  destruct (decide (fd = 0 ∨ fd >= MAX_NUM_FD)) as [|Hfd]; [done|].
  destruct (file_array s !! Z.to_nat fd) as [[i|]|] eqn:Hslot; [|done|done].
  destruct (file_list s !! i) as [f|] eqn:Hf; [|done].
  destruct (negb (opened f)); [done|].
  destruct Hinv as (Hfdi & Hext & Hdir).
  rewrite (update_file_list _ _ _ f) by done.
  destruct Hfdi as (H1 & H2 & H3 & H4 & H5 & H6 & H7 & H8).
  assert (Hfd1 : 2 ≤ fd < MAX_NUM_FD).
  { unfold MAX_NUM_FD in *. split; [|lia].
    destruct (decide (fd < 0)) as [Hneg|Hpos].
    - replace (Z.to_nat fd) with 0%nat in Hslot by lia. congruence.
    - destruct (decide (fd = 1)) as [->|?]; [|lia].
      change (Z.to_nat 1) with 1%nat in Hslot. congruence. }
  set (s1 := set_file_array _ _).
  destruct (mark_fd_as_unused_spec s1 fd) as (bm' & -> & Hl' & Hb' & Hbits); try done.
  { unfold MAX_NUM_FD in *. lia. }
  subst s1. simpl. split_and!.
  - unfold fd_inv. simpl. rewrite length_insert.
    assert (Hlt : (Z.to_nat fd < length (file_array s))%nat)
      by (unfold MAX_NUM_FD in *; lia).
    split_and!; try done.
    + unfold fd_bit in *. change (1 - 1) with 0 in *. rewrite Hbits by lia.
      simpl. rewrite H4. rewrite bool_decide_eq_false_2; [done|lia].
    + rewrite list_lookup_insert_ne; [done|lia].
    + rewrite list_lookup_insert_ne; [done|lia].
    + intros d j Hd.
      assert (Hne : d ≠ Z.to_nat fd).
      { intros ->. rewrite list_lookup_insert_eq in Hd by done. congruence. }
      rewrite list_lookup_insert_ne in Hd by done.
      destruct (H7 d j Hd) as (Hbit & g & Hg & Ho).
      assert (Hd1 : (1 ≤ d)%nat).
      { destruct d as [|d]; [congruence|lia]. }
      split.
      * unfold fd_bit in *. rewrite Hbits by lia. simpl. rewrite Hbit.
        rewrite bool_decide_eq_false_2; [done|lia].
      * assert (Hji : j ≠ i).
        { intros ->. apply Hne. by apply (H8 d (Z.to_nat fd) i). }
        exists g. by rewrite list_lookup_insert_ne.
    + intros d d' j Hd Hd'.
      assert (Hne : d ≠ Z.to_nat fd).
      { intros ->. rewrite list_lookup_insert_eq in Hd by done. congruence. }
      assert (Hne' : d' ≠ Z.to_nat fd).
      { intros ->. rewrite list_lookup_insert_eq in Hd' by done. congruence. }
      rewrite list_lookup_insert_ne in Hd, Hd' by done. by apply (H8 d d' j).
  - by apply (retag_ext_inv s i f false).
  - by apply (retag_dir_inv s i f false).
Qed.

(** ** Opening and creating *)

Lemma find_file_found (name : list Z) (l : list file) (k : nat) (cur : option nat)
    (i : nat) :
  find_file name l k cur = Some (Some i) →
  cur = Some i ∨
  ∃ f, l !! (i - k)%nat = Some f ∧ (k ≤ i)%nat ∧ filename f = name ∧ opened f = false.
Proof.
  revert k cur. induction l as [|g l IH]; intros k cur; simpl.
  - intros [= ->]. by left.
  - destruct (decide (filename g = name)) as [Hn|Hn].
    + destruct (opened g) eqn:Ho; [done|]. intros H.
      destruct (IH _ _ H) as [[= <-]|(f & Hf & Hk & Hfn & Hfo)].
      * right. exists g. by rewrite Nat.sub_diag.
      * right. exists f. replace (i - k)%nat with (S (i - S k)) by lia. split_and!; try done. lia.
    + intros H. destruct (IH _ _ H) as [->|(f & Hf & Hk & Hfn & Hfo)]; [by left|].
      right. exists f. replace (i - k)%nat with (S (i - S k)) by lia. split_and!; try done. lia.
Qed.

Lemma find_file_none (name : list Z) (l : list file) (k : nat) (cur : option nat) :
  find_file name l k cur = Some None →
  cur = None ∧ Forall (λ g, filename g ≠ name) l.
Proof.
  revert k cur. induction l as [|g l IH]; intros k cur; simpl.
  - intros [= ->]. done.
  - destruct (decide (filename g = name)) as [Hn|Hn].
    + destruct (opened g); [done|]. intros H. by destruct (IH _ _ H).
    + intros H. destruct (IH _ _ H) as [-> ?]. split; [done|]. by constructor.
Qed.

Lemma install_fd_fs_inv (i : nat) (f : file) (s : fs) :
  fs_inv s → file_list s !! i = Some f →
  (∀ d, file_array s !! d ≠ Some (Some i)) →
  fs_inv (snd (install_fd i s)) ∧
  (fst (install_fd i s) = 0 ∨ 2 ≤ fst (install_fd i s) < MAX_NUM_FD).
Proof.
  intros (Hfd & Hext & Hdir) Hf Hfree.
  destruct (install_fd_inv i f s Hfd Hf Hfree) as [Hfd' Hr].
  split; [|done]. split; [done|].
  destruct (install_fd_shape i s) as [->|(bm' & fd & Hs & [->|(-> & _)])]; simpl; [done|done|].
  rewrite (update_file_list _ _ _ f) by done. simpl.
  split; [by apply (retag_ext_inv s i f true)|by apply (retag_dir_inv s i f true)].
Qed.

Lemma serialize_snoc (l : list file) (f : file) (rest : list Z) :
  Z.of_nat (length l) < 65535 →
  poke (serialize l ++ encode_record f ++ rest) 4
       (le16 (u16 (rd16 (serialize l ++ encode_record f ++ rest) 4 + 1)))
  = serialize (l ++ [f]) ++ rest.
Proof.
  intros Hl. unfold serialize.
  rewrite <- !app_assoc.
  rewrite (rd16_le16 signature) by (try done; lia).
  unfold u16. rewrite Z.mod_small by lia.
  rewrite (poke_middle signature (le16 (Z.of_nat (length l)))) by done.
  rewrite length_app, map_app, concat_app. cbn [map concat length].
  rewrite app_nil_r, <- !app_assoc. do 2 f_equal. f_equal. lia.
Qed.

Lemma add_file_to_directory_ok (f : file) (s : fs) :
  dir_inv s →
  strlen (filename f) ≤ MAX_FILENAME_SIZE →
  dir_data_ptr s + record_size f ≤ DIR_DATA_SIZE →
  ∃ rest st,
    add_file_to_directory f s =
      (0, set_dir_data_off f (dir_data_ptr s),
       Fs (partition_num_blocks s) (fd_bitmap s) (file_array s) (file_list s)
          (serialize (file_list s ++ [set_dir_data_off f (dir_data_ptr s)]) ++ rest)
          (dir_data_ptr s + record_size f) st) ∧
    length (serialize (file_list s ++ [set_dir_data_off f (dir_data_ptr s)]) ++ rest)
      = 1024%nat.
Proof.
  intros (Hlen & Hptr & Hend & Hlay & (rest & Hd) & Hnames & Hnd) Hn Hfit.
  pose proof (dir_end_ge (file_list s)) as H6.
  pose proof (dir_end_count (file_list s)) as Hcnt.
  pose proof (length_serialize (file_list s)) as Hls.
  set (f0 := set_dir_data_off f (dir_data_ptr s)).
  assert (Hrs : Z.of_nat (length (encode_record f0)) = record_size f)
    by (by rewrite length_encode_record).
  assert (Hrl : Z.of_nat (length rest) = 1024 - dir_end (file_list s)).
  { rewrite Hd, length_app in Hlen. lia. }
  unfold DIR_DATA_SIZE, STORAGE_BLOCK_SIZE, DIR_DATA_NUM_BLOCKS in *.
  assert (Hpoke : poke (dir_data s) (dir_data_off f0) (encode_record f0)
                  = serialize (file_list s) ++ encode_record f0 ++
                    drop (length (encode_record f0)) rest).
  { rewrite Hd. unfold poke. simpl dir_data_off. rewrite Hptr.
    replace (Z.to_nat (dir_end (file_list s))) with (length (serialize (file_list s))) by lia.
    rewrite take_app_length, drop_app_add. done. }
  exists (drop (length (encode_record f0)) rest). eexists.
  unfold add_file_to_directory. fold f0.
  rewrite (update_file_in_directory_ok f0 s); try done; try (simpl; lia).
  rewrite decide_False by (intros H; by apply H).
  cbn [dir_data dir_data_ptr set_dir_data set_dir_data_ptr flush_dir_data_to_storage
       set_storage partition_num_blocks fd_bitmap file_array file_list storage].
  rewrite Hpoke, serialize_snoc by lia.
  split; [reflexivity|].
  apply Nat2Z.inj. rewrite length_app, Nat2Z.inj_add, length_serialize, dir_end_app.
  change (dir_end [f0]) with (record_size f + 6).
  rewrite length_drop, Nat2Z.inj_sub by lia. lia.
Qed.

Lemma add_file_to_directory_fail (f : file) (s : fs) :
  strlen (filename f) > MAX_FILENAME_SIZE ∨
  dir_data_ptr s + record_size f > DIR_DATA_SIZE →
  ∃ r f', add_file_to_directory f s = (r, f', s) ∧ r ≠ 0.
Proof.
  intros H. unfold add_file_to_directory.
  destruct (update_file_in_directory_err (set_dir_data_off f (dir_data_ptr s)) s H)
    as [Hs Hr].
  destruct (update_file_in_directory _ s) as [r s']. simpl in *. subst s'.
  rewrite decide_True by done. by eexists _, _.
Qed.

Lemma create_fs_inv (s : fs) (f0 : file) (rest : list Z) (st : gmap Z (list Z)) :
  fs_inv s → name_ok f0 →
  Forall (λ g, filename g ≠ filename f0) (file_list s) →
  start_block f0 = 0 → num_blocks f0 = 0 → size f0 = 0 →
  dir_data_off f0 = dir_data_ptr s →
  dir_data_ptr s + record_size f0 ≤ DIR_DATA_SIZE →
  length (serialize (file_list s ++ [f0]) ++ rest) = 1024%nat →
  fs_inv (Fs (partition_num_blocks s) (fd_bitmap s) (file_array s)
             (file_list s ++ [f0]) (serialize (file_list s ++ [f0]) ++ rest)
             (dir_data_ptr s + record_size f0) st).
Proof.
  intros (Hfd & Hext & Hdir) Hname Hfresh Hsb Hnb Hsz Hoff Hfit Hlen.
  split_and!.
  - eapply fd_inv_frame; [..|exact Hfd]; try done. simpl.
    intros i f Hf Ho. exists f. split; [|done]. by apply lookup_app_l_Some.
  - destruct Hext as (HN & Hall & Hdis & Hpack). unfold ext_inv. simpl.
    split_and!; try done.
    + apply Forall_app. split; [done|]. constructor; [|done]. by left.
    + intros j k a b Hjk Ha Hb Hna Hnb'.
      assert (Hold : ∀ m x, (file_list s ++ [f0]) !! m = Some x → 0 < num_blocks x →
                file_list s !! m = Some x).
      { intros m x Hx Hnx. apply lookup_app_Some in Hx as [Hx|[_ Hx]]; [done|].
        apply list_lookup_singleton_Some in Hx as [_ <-]. lia. }
      apply (Hdis j k a b); try done; by apply Hold.
    + rewrite max_end_app, sum_blocks_app.
      change (max_end [f0]) with (Z.max (extent_end f0) DIR_DATA_NUM_BLOCKS).
      change (sum_blocks [f0]) with (num_blocks f0 + 0).
      pose proof (max_end_ge (file_list s)).
      unfold extent_end. rewrite Hsb, Hnb. unfold DIR_DATA_NUM_BLOCKS in *. lia.
  - destruct Hdir as (_ & Hptr & Hend & Hlay & _ & Hnames & Hnd).
    unfold dir_inv. simpl. rewrite dir_end_app.
    change (dir_end [f0]) with (record_size f0 + 6).
    split_and!; try done; try lia.
    + apply layout_app. split; [done|]. simpl. split; [lia|done].
    + by exists rest.
    + apply Forall_app. split; [done|]. by constructor.
    + rewrite map_app. apply NoDup_app. split_and!; [done| |apply NoDup_singleton].
      intros x Hx Hx'. apply list_elem_of_singleton in Hx'. subst x.
      apply list_elem_of_fmap in Hx as (g & Hg & Hin).
      eapply Forall_forall in Hfresh; [|exact Hin]. congruence.
Qed.

Lemma open_inv (uo : Z) (ub : bool) (name : list Z) (mode : Z) (s : fs) :
  fs_inv s → c_string name →
  fs_inv (snd (file_system_open_file uo ub name mode s)) ∧
  (fst (file_system_open_file uo ub name mode s) = 0 ∨
   2 ≤ fst (file_system_open_file uo ub name mode s) < MAX_NUM_FD).
Proof.
  intros Hinv Hname. unfold file_system_open_file.
  destruct (decide _); [by auto|].
  destruct (find_file name (file_list s) 0 None) as [[i|]|] eqn:Hfind; [| |by auto].
  - (* an existing record *)
    destruct (find_file_found _ _ _ _ _ Hfind) as [?|(f & Hf & _ & _ & Ho)]; [done|].
    rewrite Nat.sub_0_r in Hf.
    apply (install_fd_fs_inv i f s Hinv Hf).
    intros d Hd. destruct Hinv as ((_ & _ & _ & _ & _ & _ & H7 & _) & _).
    destruct (H7 d i Hd) as (_ & g & Hg & Hog). congruence.
  - (* no record of that name *)
    destruct (decide (mode = FILE_OPEN_CREATE_MODE)); [|by auto].
    apply find_file_none in Hfind as [_ Hfresh].
    set (f := File name 0 0 0 uo ub).
    destruct (decide (strlen name ≤ MAX_FILENAME_SIZE
                      ∧ dir_data_ptr s + record_size f ≤ DIR_DATA_SIZE)) as [[Hn Hfit]|Hno].
    + assert (Hdir : dir_inv s) by (by destruct Hinv as (_ & _ & ?)).
      destruct (add_file_to_directory_ok f s Hdir Hn Hfit) as (rest & st & -> & Hlen).
      rewrite decide_False by (intros H; by apply H).
      set (f0 := set_dir_data_off f (dir_data_ptr s)) in *.
      set (s2 := add_file_to_list _ _).
      assert (Hinv2 : fs_inv s2).
      { subst s2. unfold add_file_to_list. simpl.
        by apply (create_fs_inv s f0 rest st). }
      apply (install_fd_fs_inv _ f0 s2 Hinv2).
      * subst s2. simpl. by rewrite list_lookup_middle.
      * intros d Hd. subst s2. simpl in Hd.
        destruct Hinv as ((_ & _ & _ & _ & _ & _ & H7 & _) & _).
        destruct (H7 d _ Hd) as (_ & g & Hg & _).
        apply lookup_lt_Some in Hg. lia.
    + destruct (add_file_to_directory_fail f s) as (r & f' & -> & Hr).
      { unfold record_size in *. simpl in *.
        destruct (decide (strlen name > MAX_FILENAME_SIZE)); [by left|right]. lia. }
      rewrite decide_True by done. by auto.
Qed.

(** ** Flushing the directory and reading it back *)

Lemma poke_peek (d : list Z) (off n : Z) :
  0 ≤ off → 0 ≤ n → off + n ≤ Z.of_nat (length d) →
  poke d off (peek d off n) = d.
Proof.
  intros H0 Hn Hl. unfold poke, peek.
  rewrite length_take, length_drop.
  replace (Z.to_nat off + Z.to_nat n `min` (length d - Z.to_nat off))%nat
    with (Z.to_nat off + Z.to_nat n)%nat by lia.
  rewrite <- drop_drop, take_drop. by rewrite take_drop.
Qed.

Lemma length_peek (d : list Z) (off n : Z) :
  0 ≤ off → 0 ≤ n → off + n ≤ Z.of_nat (length d) →
  Z.of_nat (length (peek d off n)) = n.
Proof. intros. unfold peek. rewrite length_take, length_drop. lia. Qed.

Lemma write_blocks_dir (d : list Z) (st : gmap Z (list Z)) :
  length d = 1024%nat →
  write_blocks d 0 DIR_DATA_NUM_BLOCKS st =
    (1024, <[1 := peek d 512 512]> (<[0 := peek d 0 512]> st)).
Proof.
  intros Hl. unfold write_blocks. change (Z.to_nat DIR_DATA_NUM_BLOCKS) with 2%nat.
  cbn [write_blocks_loop].
  change (0 * STORAGE_BLOCK_SIZE) with 0. change ((0 + 1) * STORAGE_BLOCK_SIZE) with 512.
  change STORAGE_BLOCK_SIZE with 512.
  rewrite !length_peek by lia.
  rewrite !decide_False by lia. done.
Qed.

Lemma read_blocks_dir (d : list Z) (st : gmap Z (list Z)) :
  length d = 1024%nat →
  st !! 0 = Some (peek d 0 512) → st !! 1 = Some (peek d 512 512) →
  read_blocks d 0 DIR_DATA_NUM_BLOCKS st = (d, 1024, st).
Proof.
  intros Hl H0 H1. unfold read_blocks. change (Z.to_nat DIR_DATA_NUM_BLOCKS) with 2%nat.
  cbn [read_blocks_loop].
  change (u32 (0 + 0)) with 0. change (u32 (0 + (0 + 1))) with 1.
  rewrite H0. cbn iota. rewrite H0.
  change (0 * STORAGE_BLOCK_SIZE) with 0. change ((0 + 1) * STORAGE_BLOCK_SIZE) with 512.
  change STORAGE_BLOCK_SIZE with 512.
  assert (E0 : take (Z.to_nat 512) (peek d 0 512) = peek d 0 512).
  { apply take_ge. pose proof (length_peek d 0 512). lia. }
  assert (E1 : take (Z.to_nat 512) (peek d 512 512) = peek d 512 512).
  { apply take_ge. pose proof (length_peek d 512 512). lia. }
  rewrite E0, length_peek by lia.
  rewrite decide_True by done. rewrite poke_peek by lia.
  rewrite H1. cbn iota. rewrite H1. rewrite E1, length_peek by lia.
  rewrite decide_True by done. rewrite poke_peek by lia. done.
Qed.

Lemma flush_then_read (s : fs) :
  length (dir_data s) = 1024%nat →
  read_dir_data_from_storage (flush_dir_data_to_storage s) = flush_dir_data_to_storage s.
Proof.
  intros Hl. unfold read_dir_data_from_storage, flush_dir_data_to_storage.
  rewrite write_blocks_dir by done. simpl.
  rewrite read_blocks_dir; try done.
  - rewrite lookup_insert_ne by done. by rewrite lookup_insert_eq.
  - by rewrite lookup_insert_eq.
Qed.

(** ** Parsing a serialized directory *)

Lemma parse_record_fields (pre post : list Z) (f : file) (p : Z) :
  p = Z.of_nat (length pre) → name_ok f → fields_ok f →
  let d := pre ++ encode_record f ++ post in
  rd16 d p = strlen (filename f) ∧
  cstring_at d (p + 2) = filename f ∧
  rd32 d (p + 2 + strlen (filename f) + 1) = start_block f ∧
  rd32 d (p + 2 + strlen (filename f) + 1 + 4) = num_blocks f ∧
  rd32 d (p + 2 + strlen (filename f) + 1 + 4 + 4) = size f.
Proof.
  intros Hp [Hn Hc] (Hsb & Hnb & Hsz). cbv zeta. unfold encode_record.
  set (name := filename f) in *.
  assert (Hs : strlen name = Z.of_nat (length name)) by done.
  unfold MAX_FILENAME_SIZE in Hn. unfold is_u32 in *.
  split_and!.
  - rewrite <- !app_assoc. apply rd16_le16; [done|lia].
  - unfold cstring_at.
    replace (Z.to_nat (p + 2)) with (length (pre ++ le16 (strlen name)))
      by (rewrite length_app, length_le16; lia).
    rewrite <- !app_assoc, (app_assoc pre), drop_app_length. simpl.
    by apply cstring_app.
  - replace (pre ++ (le16 (strlen name) ++ name ++ [0] ++
                     le32 (start_block f) ++ le32 (num_blocks f) ++ le32 (size f)) ++ post)
      with ((pre ++ le16 (strlen name) ++ name ++ [0]) ++ le32 (start_block f) ++
            (le32 (num_blocks f) ++ le32 (size f) ++ post))
      by (by rewrite <- !app_assoc).
    apply rd32_le32; [|done].
    rewrite !length_app, length_le16. simpl. lia.
  - replace (pre ++ (le16 (strlen name) ++ name ++ [0] ++
                     le32 (start_block f) ++ le32 (num_blocks f) ++ le32 (size f)) ++ post)
      with ((pre ++ le16 (strlen name) ++ name ++ [0] ++ le32 (start_block f)) ++
            le32 (num_blocks f) ++ (le32 (size f) ++ post))
      by (by rewrite <- !app_assoc).
    apply rd32_le32; [|done].
    rewrite !length_app, length_le16, length_le32. simpl. lia.
  - replace (pre ++ (le16 (strlen name) ++ name ++ [0] ++
                     le32 (start_block f) ++ le32 (num_blocks f) ++ le32 (size f)) ++ post)
      with ((pre ++ le16 (strlen name) ++ name ++ [0] ++ le32 (start_block f) ++
             le32 (num_blocks f)) ++ le32 (size f) ++ post)
      by (by rewrite <- !app_assoc).
    apply rd32_le32; [|done].
    rewrite !length_app, length_le16, !length_le32. simpl. lia.
Qed.

Lemma records_of_serialize (l : list file) (rest : list Z) :
  layout l 6 → Forall (record_at (serialize l ++ rest)) l.
Proof.
  intros Hlay. apply Forall_lookup. intros i f Hf.
  destruct (layout_lookup l i f Hlay Hf) as [Ho _].
  exists (signature ++ le16 (Z.of_nat (length l)) ++ concat (map encode_record (take i l))),
         (concat (map encode_record (drop (S i) l)) ++ rest).
  split.
  - unfold serialize. rewrite <- (take_drop_middle l i f Hf) at 2.
    rewrite serialize_split. by rewrite <- !app_assoc.
  - rewrite length_serialize_prefix. done.
Qed.

Lemma parse_directory_records (d : list Z) (l2 : list file) (ptr : Z) (acc : list file) :
  layout l2 ptr →
  Forall (record_at d) l2 → Forall name_ok l2 → Forall fields_ok l2 →
  0 ≤ ptr → ptr + (dir_end l2 - 6) ≤ DIR_DATA_SIZE →
  parse_directory (length l2) d ptr acc = (ptr + (dir_end l2 - 6), acc ++ map closed l2).
Proof.
  revert ptr acc.
  induction l2 as [|f l2 IH]; intros ptr acc Hlay Hrec Hnames Hfields H0 Hfit.
  - simpl. rewrite app_nil_r. change (dir_end []) with 6. f_equal. lia.
  - destruct Hlay as [Hoff Hlay].
    apply Forall_cons in Hrec as [(pre & post & -> & Hpre) Hrec].
    apply Forall_cons in Hnames as [Hname Hnames].
    apply Forall_cons in Hfields as [Hfield Hfields].
    pose proof (dir_end_ge l2) as H6'.
    change (dir_end (f :: l2)) with (record_size f + dir_end l2) in *.
    assert (Hlen : 0 ≤ strlen (filename f)) by (unfold strlen; lia).
    destruct (parse_record_fields pre post f ptr) as (E1 & E2 & E3 & E4 & E5);
      [lia|done|done|].
    cbn [length parse_directory].
    unfold record_size, DIR_DATA_SIZE, STORAGE_BLOCK_SIZE, DIR_DATA_NUM_BLOCKS in *.
    rewrite decide_False by lia.
    rewrite E1. rewrite decide_False by lia.
    destruct Hname as [Hn Hc]. rewrite decide_False by (unfold MAX_FILENAME_SIZE in *; lia).
    rewrite E2, E3, E4, E5.
    replace (File (filename f) (start_block f) (num_blocks f) (size f) ptr false)
      with (closed f) by (unfold closed, set_opened; by rewrite Hoff).
    rewrite IH; try done; try lia.
    + rewrite <- app_assoc. cbn [map app]. f_equal. lia.
    + replace (ptr + 2 + strlen (filename f) + 1 + 4 + 4 + 4)
        with (ptr + (strlen (filename f) + 15)) by lia. done.
Qed.

(** ** Initialisation *)

(** Reduce only the projections and setters of the state record. *)
Ltac fs_simpl :=
  cbn [partition_num_blocks fd_bitmap file_array file_list dir_data dir_data_ptr
       storage set_fd_bitmap set_file_array set_file_list set_dir_data
       set_dir_data_ptr set_storage] in *.

Lemma length_read_blocks_loop (n : nat) (data : list Z) (start i read : Z)
    (st : gmap Z (list Z)) :
  0 ≤ i → (i + Z.of_nat n) * STORAGE_BLOCK_SIZE ≤ Z.of_nat (length data) →
  length (read_blocks_loop data start i n read st).1.1 = length data.
Proof.
  revert data i read st. induction n as [|n IH]; intros data i read st Hi Hl; [done|].
  cbn [read_blocks_loop]. unfold STORAGE_BLOCK_SIZE in *.
  set (st1 := match st !! u32 (start + i) with Some _ => st | None => _ end).
  destruct (st1 !! u32 (start + i)) as [b|]; [|done].
  assert (Hp : length (poke data (i * 512) (take (Z.to_nat 512) b)) = length data).
  { apply length_poke; [lia|]. rewrite length_take. lia. }
  destruct (decide _); [|done].
  rewrite IH; [done|lia|]. rewrite Hp. lia.
Qed.

Lemma fd_inv_initial (N : Z) (l : list file) (d : list Z) (ptr : Z)
    (st : gmap Z (list Z)) :
  fd_inv (Fs N initial_fd_bitmap (replicate (Z.to_nat MAX_NUM_FD) None) l d ptr st).
Proof.
  unfold fd_inv. fs_simpl. split_and!; try done.
  - unfold initial_fd_bitmap. simpl. repeat constructor; lia.
  - intros d0 i H. apply lookup_replicate in H as [H _]. done.
  - intros d0 d' i H. apply lookup_replicate in H as [H _]. done.
Qed.

Lemma initialize_unformatted (N : Z) (st : gmap Z (list Z)) :
  unformatted st →
  ∃ d st',
    initialize_file_system N (boot st) =
      Fs N initial_fd_bitmap (replicate (Z.to_nat MAX_NUM_FD) None) []
         (poke d 0 (signature ++ [0; 0])) 6 st' ∧
    length d = 1024%nat.
Proof.
  intros Hun. unfold unformatted, read_dir_data_from_storage in Hun.
  unfold initialize_file_system, read_dir_data_from_storage.
  cbn [set_file_list set_dir_data_ptr set_fd_bitmap partition_num_blocks fd_bitmap
       file_array file_list dir_data dir_data_ptr storage boot] in *.
  pose proof (length_read_blocks_loop 2 (replicate (Z.to_nat DIR_DATA_SIZE) 0) 0 0 0 st) as Hl.
  unfold read_blocks in *. change (Z.to_nat DIR_DATA_NUM_BLOCKS) with 2%nat in *.
  destruct (read_blocks_loop _ 0 0 2 0 st) as [[d r] st1].
  cbn [set_dir_data set_storage dir_data partition_num_blocks fd_bitmap file_array
       file_list dir_data_ptr storage] in *.
  rewrite decide_False by done.
  eexists d, _. split; [reflexivity|].
  rewrite length_replicate in Hl. cbn [fst] in Hl. apply Hl; [lia|done].
Qed.

Lemma fs_inv_initial (N : Z) (st : gmap Z (list Z)) :
  is_u32 N → unformatted st → fs_inv (initialize_file_system N (boot st)).
Proof.
  intros HN Hun. destruct (initialize_unformatted N st Hun) as (d & st' & -> & Hl).
  split_and!.
  - apply fd_inv_initial.
  - unfold ext_inv. simpl. split_and!; try done.
  - unfold dir_inv. fs_simpl. change (dir_end []) with 6. split_and!; try done.
    + rewrite length_poke; [done|lia|]. simpl. lia.
    + exists (drop 6 d). unfold poke. simpl. done.
    + constructor.
Qed.

Lemma file_ok_fields (N : Z) (f : file) : is_u32 N → file_ok N f → fields_ok f.
Proof.
  unfold file_ok, fields_ok, is_u32, extent_end, DIR_DATA_NUM_BLOCKS.
  intros HN [(-> & -> & ->)|H]; lia.
Qed.

Lemma peek_signature (l : list file) (rest : list Z) :
  peek (serialize l ++ rest) 0 4 = signature.
Proof. done. Qed.

Lemma rd16_count (l : list file) (rest : list Z) :
  Z.of_nat (length l) < 65536 →
  rd16 (serialize l ++ rest) 4 = Z.of_nat (length l).
Proof.
  intros H. unfold serialize. rewrite <- !app_assoc.
  apply rd16_le16; [done|lia].
Qed.

(** Shutting down and initialising again with the same partition size
    rebuilds the file list from the directory blocks, all records closed. *)
Lemma restart_eq (s : fs) :
  fs_inv s →
  restart s =
    Fs (partition_num_blocks s) initial_fd_bitmap
       (replicate (Z.to_nat MAX_NUM_FD) None)
       (map closed (file_list s)) (dir_data s) (dir_end (file_list s))
       (storage (close_file_system s)).
Proof.
  intros (Hfd & Hext & Hdir).
  pose proof Hdir as (Hlen & Hptr & Hend & Hlay & (rest & Hd) & Hnames & Hnd).
  pose proof (dir_end_count (file_list s)) as Hcnt.
  unfold restart, initialize_file_system, close_file_system.
  set (s0 := Fs _ _ _ _ _ _ _).
  assert (E : read_dir_data_from_storage s0 = s0).
  { subst s0. unfold read_dir_data_from_storage, flush_dir_data_to_storage. fs_simpl.
    rewrite write_blocks_dir by done. cbn [snd].
    rewrite read_blocks_dir; try done.
    - rewrite lookup_insert_ne by done. by rewrite lookup_insert_eq.
    - by rewrite lookup_insert_eq. }
  rewrite E. subst s0. unfold flush_dir_data_to_storage. fs_simpl.
  rewrite Hd. rewrite peek_signature, decide_True by done.
  unfold DIR_DATA_SIZE, STORAGE_BLOCK_SIZE, DIR_DATA_NUM_BLOCKS in Hend.
  rewrite rd16_count, Nat2Z.id by lia.
  rewrite (parse_directory_records _ (file_list s) 6 []); try done; try lia.
  - unfold set_file_array, set_file_list, set_dir_data_ptr. fs_simpl.
    rewrite app_nil_l. f_equal. lia.
  - by apply records_of_serialize.
  - destruct Hext as (HN & Hok & _).
    eapply Forall_impl; [exact Hok|]. intros f. by apply file_ok_fields.
  - unfold DIR_DATA_SIZE, STORAGE_BLOCK_SIZE, DIR_DATA_NUM_BLOCKS. lia.
Qed.

Lemma closed_list_lookup (l : list file) (i : nat) (x : file) :
  map closed l !! i = Some x → ∃ y, l !! i = Some y ∧ x = closed y.
Proof.
  intros H. change (map closed l) with (closed <$> l) in H.
  rewrite list_lookup_fmap in H. destruct (l !! i) as [y|]; [|done].
  injection H as <-. by exists y.
Qed.

Lemma max_end_closed (l : list file) : max_end (map closed l) = max_end l.
Proof.
  induction l as [|f l IH]; [done|].
  change (max_end (map closed (f :: l)))
    with (Z.max (extent_end f) (max_end (map closed l))).
  by rewrite IH.
Qed.

Lemma sum_blocks_closed (l : list file) : sum_blocks (map closed l) = sum_blocks l.
Proof.
  induction l as [|f l IH]; [done|].
  change (sum_blocks (map closed (f :: l)))
    with (num_blocks f + sum_blocks (map closed l)).
  by rewrite IH.
Qed.

Lemma dir_end_closed (l : list file) : dir_end (map closed l) = dir_end l.
Proof.
  induction l as [|f l IH]; [done|].
  change (dir_end (map closed (f :: l)))
    with (record_size f + dir_end (map closed l)).
  by rewrite IH.
Qed.

Lemma layout_closed (l : list file) (off : Z) : layout l off → layout (map closed l) off.
Proof.
  revert off. induction l as [|f l IH]; intros off; [done|].
  intros [Ho Hl]. split; [done|]. by apply IH.
Qed.

Lemma serialize_closed (l : list file) : serialize (map closed l) = serialize l.
Proof.
  unfold serialize. rewrite length_map, map_map. done.
Qed.

Lemma restart_inv (s : fs) : fs_inv s → fs_inv (restart s).
Proof.
  intros Hinv. rewrite restart_eq by done.
  destruct Hinv as (Hfd & Hext & Hdir). split_and!.
  - apply fd_inv_initial.
  - destruct Hext as (HN & Hok & Hdis & Hpack). unfold ext_inv. fs_simpl.
    rewrite max_end_closed, sum_blocks_closed. split_and!; try done.
    + apply Forall_fmap. eapply Forall_impl; [exact Hok|]. by intros f.
    + intros j k a b Hjk Ha Hb.
      apply closed_list_lookup in Ha as (a' & Ha & ->).
      apply closed_list_lookup in Hb as (b' & Hb & ->).
      by apply (Hdis j k a' b').
  - destruct Hdir as (Hlen & Hptr & Hend & Hlay & (rest & Hd) & Hnames & Hnd).
    unfold dir_inv. fs_simpl. rewrite dir_end_closed, serialize_closed.
    split_and!; try done.
    + by apply layout_closed.
    + by exists rest.
    + apply Forall_fmap. eapply Forall_impl; [exact Hnames|]. by intros f.
    + by rewrite map_map.
Qed.

(** ** Reachable states *)

Lemma exec_inv (c : call) (s : fs) : fs_inv s → call_ok c → fs_inv (exec c s).
Proof.
  intros Hinv Hc. destruct c; simpl.
  - destruct Hc as [Hn _]. by apply open_inv.
  - by apply write_inv.
  - by apply read_inv.
  - by apply close_inv.
  - by apply shutdown_inv.
  - by apply restart_inv.
Qed.

Lemma reachable_inv (s : fs) : reachable s → fs_inv s.
Proof.
  induction 1 as [N st HN Hun|c s _ IH Hc].
  - by apply fs_inv_initial.
  - by apply exec_inv.
Qed.

Lemma reachable_run (cs : list call) (s : fs) :
  reachable s → Forall call_ok cs → reachable (run cs s).
Proof.
  intros Hs Hcs. revert s Hs. induction Hcs as [|c cs Hc _ IH]; intros s Hs; [done|].
  apply IH. by constructor.
Qed.

Lemma unformatted_blank : unformatted ∅.
Proof. vm_compute. intros H. discriminate H. Qed.

(** C2: in every reachable state, two distinct records that own blocks
    have no block in common. *)
Theorem extents_disjoint (s : fs) (i j : nat) (a b : file) (x : Z) :
  reachable s → i ≠ j →
  file_list s !! i = Some a → file_list s !! j = Some b →
  0 < num_blocks a → 0 < num_blocks b →
  ¬ (in_extent a x ∧ in_extent b x).
Proof.
  intros Hr Hij Ha Hb Hna Hnb [Hxa Hxb].
  destruct (reachable_inv s Hr) as (_ & (_ & _ & Hdis & _) & _).
  unfold in_extent in *.
  destruct (Hdis i j a b Hij Ha Hb Hna Hnb) as [H|H]; unfold extent_end in H; lia.
Qed.

Ltac solve_calls_ok :=
  repeat (apply Forall_cons; split);
  try apply Forall_nil;
  cbn [call_ok]; unfold is_u32, c_string, FILE_OPEN_CREATE_MODE, FILE_OPEN_MODE;
  repeat split; try lia; repeat (constructor; try lia).

Lemma fresh_reachable (N : Z) : is_u32 N → reachable (fresh N).
Proof. intros HN. unfold fresh. exact (reach_init N ∅ HN unformatted_blank). Qed.

Lemma two_files_reachable : reachable two_files.
Proof.
  apply reachable_run; [apply fresh_reachable; unfold is_u32; lia|].
  unfold two_files_calls, name_a, name_b. solve_calls_ok.
Qed.

Lemma extents_disjoint_witness :
  ¬ (in_extent (File name_a 2 1 1 6 true) 2 ∧ in_extent (File name_b 3 1 1 22 true) 2).
Proof.
  apply (extents_disjoint two_files 0 1 _ _ 2 two_files_reachable).
  - lia.
  - vm_compute. reflexivity.
  - vm_compute. reflexivity.
  - simpl. lia.
  - simpl. lia.
Defined.

(** ** Descriptors *)

(** C7: in every reachable state, a slot [d] of the descriptor table in
    [1, MAX_NUM_FD) that is in use references a record of the file list
    whose [opened] flag is set, and the bitmap bit of [d] is set; a slot
    whose bitmap bit is clear is empty.  The bit of descriptor [d] is the
    one [get_unused_fd] sets when it returns [d] and that
    [mark_fd_as_unused d] clears (bit [d - 1] of the map). *)
Theorem descriptor_table_invariant (s : fs) :
  reachable s →
  (∀ d i, 1 ≤ d < MAX_NUM_FD →
     file_array s !! Z.to_nat d = Some (Some i) →
     (∃ f, file_list s !! i = Some f ∧ opened f = true) ∧
     fd_bit (fd_bitmap s) d = true) ∧
  (∀ d, 1 ≤ d < MAX_NUM_FD →
     fd_bit (fd_bitmap s) d = false → file_array s !! Z.to_nat d = Some None).
Proof.
  intros Hr.
  destruct (reachable_inv s Hr) as ((_ & _ & Hlen & _ & _ & _ & H7 & _) & _).
  assert (H1 : ∀ d i, 1 ≤ d < MAX_NUM_FD →
            file_array s !! Z.to_nat d = Some (Some i) →
            (∃ f, file_list s !! i = Some f ∧ opened f = true) ∧
            fd_bit (fd_bitmap s) d = true).
  { intros d i Hd Hslot. destruct (H7 _ _ Hslot) as [Hbit Hrec].
    rewrite Z2Nat.id in Hbit by lia. done. }
  split; [exact H1|].
  intros d Hd Hbit. unfold MAX_NUM_FD in *.
  destruct (lookup_lt_is_Some_2 (file_array s) (Z.to_nat d)) as [[i|] Hslot]; [lia| |done].
  destruct (H1 d i Hd Hslot) as [_ Hset]. congruence.
Qed.

Lemma descriptor_table_invariant_witness :
  (∀ d i, 1 ≤ d < MAX_NUM_FD →
     file_array two_files !! Z.to_nat d = Some (Some i) →
     (∃ f, file_list two_files !! i = Some f ∧ opened f = true) ∧
     fd_bit (fd_bitmap two_files) d = true) ∧
  (∀ d, 1 ≤ d < MAX_NUM_FD →
     fd_bit (fd_bitmap two_files) d = false →
     file_array two_files !! Z.to_nat d = Some None).
Proof. exact (descriptor_table_invariant two_files two_files_reachable). Defined.

(** C8: in every reachable state, open returns 0 or a descriptor [d] with
    [2 ≤ d < MAX_NUM_FD]; descriptor 1 is never returned, since the bit
    set by initialisation is the one the scan maps to the value 1. *)
Theorem open_descriptor_range (s : fs) (uo : Z) (ub : bool) (name : list Z) (mode : Z) :
  reachable s → c_string name →
  fst (file_system_open_file uo ub name mode s) = 0 ∨
  2 ≤ fst (file_system_open_file uo ub name mode s) < MAX_NUM_FD.
Proof.
  intros Hr Hn. by apply open_inv; [apply reachable_inv|].
Qed.

Lemma open_descriptor_range_witness :
  fst (file_system_open_file 0 false hello FILE_OPEN_CREATE_MODE two_files) = 0 ∨
  2 ≤ fst (file_system_open_file 0 false hello FILE_OPEN_CREATE_MODE two_files) < MAX_NUM_FD.
Proof.
  apply (open_descriptor_range two_files 0 false hello FILE_OPEN_CREATE_MODE
           two_files_reachable).
  unfold c_string, hello. simpl. repeat (constructor; try lia).
Defined.

Example open_returns_two_first :
  fst (file_system_open_file 0 false hello FILE_OPEN_CREATE_MODE (fresh 390)) = 2.
Proof. vm_compute. reflexivity. Qed.

Lemma write_beyond_end_rejected_witness :
  file_system_write_to_file 2 [67] 1 5 two_files = (0, two_files).
Proof.
  apply (write_beyond_end_rejected two_files 2 0 (File name_a 2 1 1 6 true)).
  - lia.
  - unfold MAX_NUM_FD. lia.
  - vm_compute. reflexivity.
  - vm_compute. reflexivity.
  - reflexivity.
  - simpl. lia.
Defined.

(** ** Allocation *)

(** C3: in a reachable state, for a block count [expand_file_size] can
    ask for, [expand_empty_file] places the extent at
    max(DIR_DATA_NUM_BLOCKS, max over the list of start_block +
    num_blocks); it fails with ERR_FOUND, changing nothing, exactly when
    that start plus the count reaches partition_num_blocks, and otherwise
    zero-fills the blocks and stores the start and the count in the
    record. *)
Theorem expand_empty_file_placement (s : fs) (i : nat) (f : file) (needed_blocks : Z) :
  reachable s → file_list s !! i = Some f → size f = 0 →
  0 < needed_blocks ≤ MAX_NEEDED_BLOCKS →
  expand_empty_file i needed_blocks s =
    let sb := max_end (file_list s) in
    if decide (sb + needed_blocks >= partition_num_blocks s) then (ERR_FOUND, s)
    else (0, set_storage
               (set_file_list s (<[i := set_extent f sb needed_blocks]> (file_list s)))
               (zero_blocks sb 0 (Z.to_nat needed_blocks) (storage s))).
Proof.
  intros Hr Hf _ Hnb. destruct (reachable_inv s Hr) as (_ & Hext & Hdir).
  by apply expand_empty_file_eq.
Qed.

(** C4, amended: in a reachable state, for a record with blocks and a
    block count [expand_file_size] can ask for, [expand_existing_file]
    fails with ERR_FOUND, changing nothing, exactly when another record
    starts in the tail range or the end of the tail range reaches
    partition_num_blocks (equality included); otherwise it zero-fills the
    tail and adds the count to num_blocks. *)
Theorem expand_existing_file_condition (s : fs) (i : nat) (f : file) (needed_blocks : Z) :
  reachable s → file_list s !! i = Some f → 0 < num_blocks f →
  0 < needed_blocks ≤ MAX_NEEDED_BLOCKS →
  let tail := extent_end f in
  (tail_blocked (file_list s) i tail (tail + needed_blocks) ∨
   tail + needed_blocks >= partition_num_blocks s →
   expand_existing_file i needed_blocks s = (ERR_FOUND, s)) ∧
  (¬ tail_blocked (file_list s) i tail (tail + needed_blocks) →
   tail + needed_blocks < partition_num_blocks s →
   expand_existing_file i needed_blocks s =
     (0, set_storage
           (set_file_list s
              (<[i := set_extent f (start_block f) (num_blocks f + needed_blocks)]>
                 (file_list s)))
           (zero_blocks tail 0 (Z.to_nat needed_blocks) (storage s)))).
Proof.
  intros Hr Hf Hn Hnb. destruct (reachable_inv s Hr) as (_ & Hext & Hdir).
  rewrite (expand_existing_file_eq s i f) by done. cbv zeta.
  assert (Hlt : start_block f < extent_end f) by (unfold extent_end; lia).
  pose proof (tail_free_blocked (file_list s) i f (extent_end f + needed_blocks) Hf Hlt) as Hb.
  destruct (tail_free _ _ _) eqn:E.
  - split.
    + intros [Hbl|Hge]; [apply Hb in Hbl; done|]. by rewrite decide_True.
    + intros _ Hfit. by rewrite decide_False by lia.
  - split; [done|]. intros Hnb'. destruct Hnb'. by apply Hb.
Qed.

Lemma one_empty_reachable : reachable one_empty.
Proof.
  apply reachable_run; [apply fresh_reachable; unfold is_u32; lia|].
  unfold name_a, name_b. solve_calls_ok.
Qed.

Lemma small_partition_reachable : reachable small_partition.
Proof.
  apply reachable_run; [apply fresh_reachable; unfold is_u32; lia|].
  unfold name_a. solve_calls_ok.
Qed.

Lemma expand_empty_file_placement_witness :
  expand_empty_file 1 1 one_empty =
    let sb := max_end (file_list one_empty) in
    if decide (sb + 1 >= partition_num_blocks one_empty) then (ERR_FOUND, one_empty)
    else (0, set_storage
               (set_file_list one_empty
                  (<[1%nat := set_extent (File name_b 0 0 0 22 true) sb 1]>
                     (file_list one_empty)))
               (zero_blocks sb 0 (Z.to_nat 1) (storage one_empty))).
Proof.
  apply (expand_empty_file_placement one_empty 1 (File name_b 0 0 0 22 true) 1
           one_empty_reachable).
  - vm_compute. reflexivity.
  - reflexivity.
  - unfold MAX_NEEDED_BLOCKS. lia.
Defined.

Example expand_empty_file_after_last :
  max_end (file_list one_empty) = 3 ∧
  fst (expand_empty_file 1 1 one_empty) = 0 ∧
  file_list (snd (expand_empty_file 1 1 one_empty)) !! 1%nat
    = Some (File name_b 3 1 0 22 true).
Proof. vm_compute. done. Qed.

Lemma expand_existing_file_condition_witness :
  let f := File name_b 3 1 1 22 true in
  let tail := extent_end f in
  (tail_blocked (file_list two_files) 1 tail (tail + 1) ∨
   tail + 1 >= partition_num_blocks two_files →
   expand_existing_file 1 1 two_files = (ERR_FOUND, two_files)) ∧
  (¬ tail_blocked (file_list two_files) 1 tail (tail + 1) →
   tail + 1 < partition_num_blocks two_files →
   expand_existing_file 1 1 two_files =
     (0, set_storage
           (set_file_list two_files
              (<[1%nat := set_extent f (start_block f) (num_blocks f + 1)]>
                 (file_list two_files)))
           (zero_blocks tail 0 (Z.to_nat 1) (storage two_files)))).
Proof.
  apply (expand_existing_file_condition two_files 1 (File name_b 3 1 1 22 true) 1
           two_files_reachable).
  - vm_compute. reflexivity.
  - simpl. lia.
  - unfold MAX_NEEDED_BLOCKS. lia.
Defined.

(** C4 as stated fails on the code: with the file in blocks [2, 3) of a
    four-block partition the tail range [3, 4) lies inside the partition
    and no record starts in it, yet the expansion is refused. *)
Lemma tail_expansion_claim_fails :
  reachable small_partition ∧
  file_list small_partition !! 0%nat = Some (File name_a 2 1 1 6 true) ∧
  ¬ tail_expansion_claim small_partition 0 (File name_a 2 1 1 6 true) 1.
Proof.
  split; [apply small_partition_reachable|]. split; [vm_compute; reflexivity|].
  unfold tail_expansion_claim. intros [Hfail _].
  assert (Hret : fst (expand_existing_file 0 1 small_partition) = ERR_FOUND)
    by (vm_compute; reflexivity).
  destruct (Hfail Hret) as [(j & g & Hj & Hg & _)|Hpast].
  - assert (Hl : file_list small_partition = [File name_a 2 1 1 6 true])
      by (vm_compute; reflexivity).
    rewrite Hl in Hg. clear Hfail Hret Hl.
    destruct j as [|j]; [by apply Hj|]. destruct j; discriminate Hg.
  - assert (Hn : partition_num_blocks small_partition = 4) by (vm_compute; reflexivity).
    rewrite Hn in Hpast. clear Hfail Hret Hn.
    unfold extent_end in Hpast. cbn [start_block num_blocks] in Hpast. lia.
Qed.

(** ** Descriptor exhaustion *)

Lemma install_fd_exhausted (i : nat) (s : fs) :
  fd_bitmap s = last_bit_free →
  install_fd i s = (0, set_fd_bitmap s (replicate 8 255)).
Proof.
  intros Hbm. unfold install_fd, get_unused_fd. rewrite Hbm.
  assert (E : scan_bitmap last_bit_free 0 = Some (replicate 8 255, 64))
    by (vm_compute; reflexivity).
  rewrite E. rewrite decide_False by lia.
  change (u32 64) with 64.
  rewrite decide_True; [done|]. right. unfold MAX_NUM_FD. lia.
Qed.

Lemma add_file_to_directory_bitmap (f : file) (s : fs) :
  fd_bitmap (add_file_to_directory f s).2 = fd_bitmap s.
Proof.
  unfold add_file_to_directory, update_file_in_directory.
  repeat (destruct (decide _); simpl; try done).
Qed.

Lemma open_bitmap (uo : Z) (ub : bool) (name : list Z) (mode : Z) (s : fs) :
  fd_bitmap (file_system_open_file uo ub name mode s).2 = fd_bitmap s ∨
  ∃ bm' fd, scan_bitmap (fd_bitmap s) 0 = Some (bm', fd) ∧
    fd_bitmap (file_system_open_file uo ub name mode s).2 = bm'.
Proof.
  unfold file_system_open_file.
  destruct (decide _); [by left|].
  destruct (find_file name (file_list s) 0 None) as [[i|]|]; [| |by left].
  - destruct (install_fd_shape i s) as [->|(bm' & fd & Hs & [->|(-> & _)])]; [by left| |].
    + right. by exists bm', fd.
    + right. exists bm', fd. split; [done|]. unfold update_file. fs_simpl.
      by destruct (_ !! i).
  - destruct (decide _); [|by left].
    pose proof (add_file_to_directory_bitmap (File name 0 0 0 uo ub) s) as Hb.
    destruct (add_file_to_directory _ s) as [[r f'] s']. simpl in Hb.
    destruct (decide _); [by left|].
    set (s2 := add_file_to_list f' s').
    assert (Hb2 : fd_bitmap s2 = fd_bitmap s) by done.
    destruct (install_fd_shape (length (file_list s')) s2)
      as [->|(bm' & fd & Hs & [->|(-> & _)])]; [by left| |].
    + right. exists bm', fd. by rewrite <- Hb2.
    + right. exists bm', fd. rewrite <- Hb2. split; [done|]. unfold update_file. fs_simpl.
      by destruct (_ !! _).
Qed.

Lemma write_bitmap (fd : Z) (data : list Z) (sz offset : Z) (s : fs) :
  fs_inv s →
  fd_bitmap (file_system_write_to_file fd data sz offset s).2 = fd_bitmap s.
Proof.
  intros Hinv. unfold file_system_write_to_file.
  destruct (decide _); [done|].
  destruct (file_array s !! Z.to_nat fd) as [[i|]|]; [|done|done].
  destruct (file_list s !! i) as [f|] eqn:Hf; [|done].
  destruct (negb (opened f)); [done|].
  destruct (_ && _); [done|].
  set (s1 := if decide (size f < u32 (offset + sz)) then _ else s).
  assert (H1 : fd_bitmap s1 = fd_bitmap s).
  { subst s1. destruct (decide _) as [Hlt|]; [|done].
    destruct (expand_file_size_spec s i f (u32 (offset + sz)) Hinv Hf)
      as [->|(f' & st' & _ & ->)]; try done.
    unfold is_u32, u32. apply Z.mod_pos_bound. lia. }
  clearbody s1.
  destruct (file_list s1 !! i) as [f1|]; [|done].
  destruct (decide _); [done|].
  destruct (write_loop _ _ _ _ _ _ _ _ _) as [w st]. done.
Qed.

Lemma read_bitmap (fd sz offset : Z) (s : fs) :
  fd_bitmap (file_system_read_from_file fd sz offset s).2 = fd_bitmap s.
Proof.
  unfold file_system_read_from_file.
  destruct (decide _); [done|].
  destruct (file_array s !! Z.to_nat fd) as [[i|]|]; [|done|done].
  destruct (file_list s !! i) as [f|]; [|done].
  destruct (negb (opened f)); [done|].
  destruct (decide _); [done|].
  destruct (read_loop _ _ _ _ _ _ _ _ _) as [[out r] st]. done.
Qed.

(** No call other than a re-initialisation clears the last bit of the
    map: [file_system_close_file] only releases descriptors below
    MAX_NUM_FD. *)
Lemma last_bit_kept (c : call) (s : fs) :
  fs_inv s → call_ok c → c ≠ Restart →
  fd_bit (fd_bitmap s) MAX_NUM_FD = true →
  fd_bit (fd_bitmap (exec c s)) MAX_NUM_FD = true.
Proof.
  intros Hinv Hok Hc Hbit. destruct c; cbn [exec]; [| | | | done|done].
  - destruct (open_bitmap uninit_off uninit_opened name mode s)
      as [->|(bm' & fd & Hs & ->)]; [done|].
    destruct Hinv as ((_ & Hb & _) & _).
    destruct (scan_bitmap_bits _ _ _ Hb Hs) as (_ & _ & _ & _ & Hbits & _).
    unfold fd_bit in *. rewrite Hbits by (unfold MAX_NUM_FD; lia).
    rewrite Hbit. apply orb_true_r.
  - by rewrite write_bitmap.
  - by rewrite read_bitmap.
  - unfold file_system_close_file.
    destruct (decide (fd = 0 ∨ fd >= MAX_NUM_FD)) as [|Hfd]; [done|].
    destruct (file_array s !! Z.to_nat fd) as [[i|]|]; [|done|done].
    destruct (file_list s !! i) as [f|] eqn:Hf; [|done].
    destruct (negb (opened f)); [done|].
    destruct Hinv as ((Hl & Hb & _) & _).
    rewrite (update_file_list _ _ _ f) by done.
    set (s1 := set_file_array _ _).
    cbn [call_ok] in Hok. unfold is_u32 in Hok.
    destruct (mark_fd_as_unused_spec s1 fd) as (bm' & -> & _ & _ & Hbits);
      [exact Hl|exact Hb|lia|].
    cbn [snd fd_bitmap set_fd_bitmap]. unfold fd_bit in *.
    rewrite Hbits by (unfold MAX_NUM_FD; lia). subst s1. fs_simpl.
    rewrite Hbit. rewrite bool_decide_eq_false_2; [done|]. lia.
Qed.

Lemma last_bit_run (cs : list call) (s : fs) :
  fs_inv s → Forall call_ok cs → Forall (λ c, c ≠ Restart) cs →
  fd_bit (fd_bitmap s) MAX_NUM_FD = true →
  fd_bit (fd_bitmap (run cs s)) MAX_NUM_FD = true.
Proof.
  intros Hinv Hok. revert s Hinv.
  induction Hok as [|c cs Hc _ IH]; intros s Hinv Hnr Hbit; [done|].
  apply Forall_cons in Hnr as [Hn Hnr].
  apply IH; [by apply exec_inv|done|by apply last_bit_kept].
Qed.

(** C9: when every bit of the map below the last one is set and open
    gets as far as the descriptor scan, the scan sets the last bit and
    returns MAX_NUM_FD, open returns 0, and the bit stays set through
    every later call (until the file system is initialised again): the
    failed open has used up a slot of the map. *)
Theorem failed_open_consumes_descriptor (s : fs) (uo : Z) (ub : bool)
    (name : list Z) (mode : Z) :
  reachable s → c_string name →
  fd_bitmap s = last_bit_free →
  reaches_scan name mode s →
  fst (file_system_open_file uo ub name mode s) = 0 ∧
  fd_bit (fd_bitmap s) MAX_NUM_FD = false ∧
  fd_bitmap (snd (file_system_open_file uo ub name mode s)) = replicate 8 255 ∧
  ∀ cs, Forall call_ok cs → Forall (λ c, c ≠ Restart) cs →
    fd_bit (fd_bitmap (run cs (snd (file_system_open_file uo ub name mode s))))
      MAX_NUM_FD = true.
Proof.
  intros Hr Hname Hbm (Hmode & Hscan).
  pose proof (reachable_inv s Hr) as Hinv.
  assert (Hres : fst (file_system_open_file uo ub name mode s) = 0 ∧
                 fd_bitmap (snd (file_system_open_file uo ub name mode s))
                 = replicate 8 255).
  { unfold file_system_open_file. rewrite decide_False by tauto.
    destruct Hscan as [[i ->]|(-> & Hcreate & Hn & Hfit)].
    - by rewrite install_fd_exhausted.
    - rewrite decide_True by done.
      destruct Hinv as (_ & _ & Hdir).
      destruct (add_file_to_directory_ok (File name 0 0 0 uo ub) s Hdir Hn)
        as (rest & st & -> & _); [unfold record_size; simpl; lia|].
      rewrite decide_False by (intros H; by apply H).
      by rewrite install_fd_exhausted. }
  destruct Hres as [Hret Hfull]. split_and!; try done.
  - rewrite Hbm. vm_compute. reflexivity.
  - intros cs Hok Hnr. apply last_bit_run; try done.
    + apply (open_inv uo ub name mode s Hinv Hname).
    + rewrite Hfull. vm_compute. reflexivity.
Qed.

Lemma open_calls_ok (n : nat) : (n ≤ 255)%nat → Forall call_ok (open_calls n).
Proof.
  intros Hn. unfold open_calls. apply Forall_fmap, Forall_forall.
  intros k Hk. apply elem_of_seq in Hk.
  split; [|unfold is_u32, FILE_OPEN_CREATE_MODE; lia].
  constructor; [lia|constructor].
Qed.

Lemma sixty_two_open_reachable : reachable sixty_two_open.
Proof.
  apply reachable_run; [apply fresh_reachable; unfold is_u32; lia|].
  apply open_calls_ok. lia.
Qed.

Lemma directory_full_reachable : reachable directory_full.
Proof.
  apply reachable_run; [apply fresh_reachable; unfold is_u32; lia|].
  apply open_calls_ok. lia.
Qed.

Lemma failed_open_consumes_descriptor_witness :
  fst (file_system_open_file 0 false [63] FILE_OPEN_CREATE_MODE sixty_two_open) = 0 ∧
  fd_bit (fd_bitmap sixty_two_open) MAX_NUM_FD = false ∧
  fd_bitmap (snd (file_system_open_file 0 false [63] FILE_OPEN_CREATE_MODE sixty_two_open))
    = replicate 8 255 ∧
  ∀ cs, Forall call_ok cs → Forall (λ c, c ≠ Restart) cs →
    fd_bit (fd_bitmap (run cs (snd (file_system_open_file 0 false [63]
                                      FILE_OPEN_CREATE_MODE sixty_two_open))))
      MAX_NUM_FD = true.
Proof.
  apply (failed_open_consumes_descriptor sixty_two_open 0 false [63]
           FILE_OPEN_CREATE_MODE sixty_two_open_reachable).
  - constructor; [lia|constructor].
  - vm_compute. reflexivity.
  - split; [by right|]. right. split_and!.
    + vm_compute. reflexivity.
    + reflexivity.
    + unfold strlen, MAX_FILENAME_SIZE. simpl. lia.
    + assert (E : dir_data_ptr sixty_two_open = 998) by (vm_compute; reflexivity).
      rewrite E. vm_compute. discriminate.
Defined.


Example directory_full_count :
  length (file_list directory_full) = 63%nat ∧
  rd16 (dir_data directory_full) 4 = 63 ∧
  fd_bitmap directory_full = replicate 8 255.
Proof. vm_compute. done. Qed.

(** ** Directory round trip *)

Lemma initialize_loads (N : Z) (s : fs) :
  let d := dir_data (read_dir_data_from_storage s) in
  file_list (initialize_file_system N s) = snd (load_directory d) ∧
  dir_data_ptr (initialize_file_system N s) = fst (load_directory d).
Proof.
  cbv zeta. unfold initialize_file_system, load_directory, read_dir_data_from_storage.
  fs_simpl.
  destruct (read_blocks (dir_data s) 0 DIR_DATA_NUM_BLOCKS (storage s)) as [[d r] st].
  fs_simpl. destruct (decide (peek d 0 4 = signature)); fs_simpl.
  - destruct (parse_directory _ _ _ _) as [ptr l]. done.
  - done.
Qed.




(** ** Block transfers *)

Lemma write_blocks_one (buf : list Z) (b : Z) (st : gmap Z (list Z)) :
  is_u32 b → length buf = 512%nat →
  write_blocks buf b 1 st = (512, <[b := buf]> st).
Proof.
  intros Hb Hl. unfold write_blocks. change (Z.to_nat 1) with 1%nat.
  cbn [write_blocks_loop]. rewrite Z.add_0_r, (u32_small b) by done.
  change (0 * STORAGE_BLOCK_SIZE) with 0.
  assert (E : peek buf 0 STORAGE_BLOCK_SIZE = buf).
  { unfold peek. simpl drop. apply take_ge. unfold STORAGE_BLOCK_SIZE. lia. }
  rewrite E, Hl. rewrite decide_False by lia. done.
Qed.

Lemma length_zero_buf : length zero_buf = 512%nat.
Proof. done. Qed.




(** ** The transfer loops, for a transfer that starts at offset 0 *)

Lemma write_loop_done (fuel : nat) (data : list Z) (first w bn bo next : Z)
    (st : gmap Z (list Z)) :
  write_loop fuel data first w w bn bo next st = (w, st).
Proof. destruct fuel; [done|]. cbn [write_loop]. by rewrite decide_False by lia. Qed.


Lemma read_loop_done (fuel : nat) (out : list Z) (first w bn bo next : Z)
    (st : gmap Z (list Z)) :
  read_loop fuel out first w w bn bo next st = (out, w, st).
Proof. destruct fuel; [done|]. cbn [read_loop]. by rewrite decide_False by lia. Qed.


(** ** What a successful open, a write at offset 0 and a close leave behind *)




Lemma mark_fd_as_unused_frame (fd : Z) (s : fs) :
  file_list (mark_fd_as_unused fd s) = file_list s ∧
  file_array (mark_fd_as_unused fd s) = file_array s ∧
  storage (mark_fd_as_unused fd s) = storage s.
Proof.
  unfold mark_fd_as_unused. destruct (decide _); [done|].
  by destruct (fd_bitmap s !! _).
Qed.






(** The partition size is only set by initialisation. *)
Lemma install_fd_partition (i : nat) (s : fs) :
  partition_num_blocks (snd (install_fd i s)) = partition_num_blocks s.
Proof.
  destruct (install_fd_shape i s) as [->|(bm' & fd & Hs & [->|(-> & _)])]; [done|done|].
  cbn [snd]. unfold update_file. fs_simpl. by destruct (_ !! i).
Qed.

Lemma open_partition (uo : Z) (ub : bool) (name : list Z) (mode : Z) (s : fs) :
  partition_num_blocks (snd (file_system_open_file uo ub name mode s))
  = partition_num_blocks s.
Proof.
  unfold file_system_open_file.
  destruct (decide _); [done|].
  destruct (find_file name (file_list s) 0 None) as [[i|]|]; [| |done].
  - apply install_fd_partition.
  - destruct (decide _); [|done].
    assert (Hp : partition_num_blocks (add_file_to_directory (File name 0 0 0 uo ub) s).2
                 = partition_num_blocks s).
    { unfold add_file_to_directory, update_file_in_directory.
      repeat (destruct (decide _); simpl; try done). }
    destruct (add_file_to_directory _ s) as [[r f'] s']. cbn [snd] in Hp.
    destruct (decide _); [done|].
    by rewrite install_fd_partition.
Qed.

Lemma write_partition (fd : Z) (data : list Z) (sz offset : Z) (s : fs) :
  fs_inv s →
  partition_num_blocks (snd (file_system_write_to_file fd data sz offset s))
  = partition_num_blocks s.
Proof.
  intros Hinv. unfold file_system_write_to_file.
  destruct (decide _); [done|].
  destruct (file_array s !! Z.to_nat fd) as [[i|]|]; [|done|done].
  destruct (file_list s !! i) as [f|] eqn:Hf; [|done].
  destruct (negb (opened f)); [done|].
  destruct (_ && _); [done|].
  set (s1 := if decide (size f < u32 (offset + sz)) then _ else s).
  assert (H1 : partition_num_blocks s1 = partition_num_blocks s).
  { subst s1. destruct (decide _) as [Hlt|]; [|done].
    destruct (expand_file_size_spec s i f (u32 (offset + sz)) Hinv Hf)
      as [->|(f' & st' & _ & ->)]; try done.
    unfold is_u32, u32. apply Z.mod_pos_bound. lia. }
  clearbody s1.
  destruct (file_list s1 !! i) as [f1|]; [|done].
  destruct (decide _); [done|].
  destruct (write_loop _ _ _ _ _ _ _ _ _) as [w st]. done.
Qed.

Lemma close_partition (fd : Z) (s : fs) :
  partition_num_blocks (snd (file_system_close_file fd s)) = partition_num_blocks s.
Proof.
  unfold file_system_close_file.
  destruct (decide _); [done|].
  destruct (file_array s !! Z.to_nat fd) as [[i|]|]; [|done|done].
  destruct (file_list s !! i) as [f|] eqn:Hf; [|done].
  destruct (negb (opened f)); [done|].
  cbn [snd]. unfold mark_fd_as_unused. destruct (decide _).
  - unfold update_file. rewrite Hf. done.
  - destruct (fd_bitmap _ !! _); unfold update_file; rewrite Hf; done.
Qed.

(** ** Persistence *)




Example persistence_example :
  fst (file_system_write_to_file 2 hello_text 21 0
         (snd (file_system_open_file 0 false hello FILE_OPEN_CREATE_MODE (fresh 390))))
  = 21.
Proof. vm_compute. reflexivity. Qed.

(** * Further properties of the code *)

(** ** What holds in every reachable state *)

(** X1: Every record that owns blocks lies in the data area: it starts at or
    after DIR_DATA_NUM_BLOCKS and ends before partition_num_blocks (the
    allocator never hands out the last block of the partition). *)
Theorem extents_in_bounds (s : fs) (i : nat) (f : file) :
  reachable s → file_list s !! i = Some f → 0 < num_blocks f →
  DIR_DATA_NUM_BLOCKS ≤ start_block f ∧
  start_block f + num_blocks f < partition_num_blocks s.
Proof.
  intros Hr Hf Hn. destruct (reachable_inv s Hr) as (_ & Hext & _).
  destruct (file_ok_end _ _ (file_ok_lookup s i f Hext Hf) Hn) as (? & _ & ?).
  unfold extent_end in *. done.
Qed.

Lemma extents_in_bounds_witness :
  DIR_DATA_NUM_BLOCKS ≤ start_block (File name_b 3 1 1 22 true) ∧
  start_block (File name_b 3 1 1 22 true) + num_blocks (File name_b 3 1 1 22 true)
    < partition_num_blocks two_files.
Proof.
  apply (extents_in_bounds two_files 1 (File name_b 3 1 1 22 true) two_files_reachable).
  - vm_compute. reflexivity.
  - cbn [num_blocks]. lia.
Defined.

(** X2: The bytes of a file fit in its blocks, a file has no bytes exactly
    when it has no blocks, and a file without blocks has start_block 0. *)
Theorem size_within_blocks (s : fs) (i : nat) (f : file) :
  reachable s → file_list s !! i = Some f →
  0 ≤ size f ≤ num_blocks f * STORAGE_BLOCK_SIZE ∧
  (size f = 0 ↔ num_blocks f = 0) ∧
  (num_blocks f = 0 → start_block f = 0).
Proof.
  intros Hr Hf. destruct (reachable_inv s Hr) as (_ & Hext & _).
  pose proof (file_ok_lookup s i f Hext Hf) as Hok.
  unfold file_ok, STORAGE_BLOCK_SIZE in *.
  destruct Hok as [(-> & -> & ->)|H]; [done|]. lia.
Qed.

Lemma size_within_blocks_witness :
  let f := File name_b 0 0 0 22 true in
  0 ≤ size f ≤ num_blocks f * STORAGE_BLOCK_SIZE ∧
  (size f = 0 ↔ num_blocks f = 0) ∧
  (num_blocks f = 0 → start_block f = 0).
Proof.
  apply (size_within_blocks one_empty 1 (File name_b 0 0 0 22 true) one_empty_reachable).
  vm_compute. reflexivity.
Defined.

(** X3: A record is referenced by at most one slot of the descriptor table. *)
Theorem descriptor_unique (s : fs) (d d' i : nat) :
  reachable s →
  file_array s !! d = Some (Some i) → file_array s !! d' = Some (Some i) → d = d'.
Proof.
  intros Hr. destruct (reachable_inv s Hr) as ((_ & _ & _ & _ & _ & _ & _ & H8) & _).
  apply H8.
Qed.

Lemma descriptor_unique_witness : 2%nat = 2%nat.
Proof.
  apply (descriptor_unique two_files 2 2 0 two_files_reachable);
    vm_compute; reflexivity.
Defined.









(** ** Descriptors: lowest free first, release and reuse *)

Lemma scan_lowest_checked : forallb scan_lowest_check (seqZ 0 256) = true.
Proof. vm_compute. reflexivity. Qed.

Lemma set_clear_checked : forallb set_clear_check (seqZ 0 256) = true.
Proof. vm_compute. reflexivity. Qed.

Lemma scan_byte_lowest (b b' j k : Z) :
  0 ≤ b < 256 → scan_byte b 1 0 8 = Some (b', j) → 0 ≤ k < j → Z.testbit b k = true.
Proof.
  intros Hb Hs Hk.
  assert (Hin : In b (seqZ 0 256)) by (apply list_elem_of_In, elem_of_seqZ; lia).
  pose proof (proj1 (forallb_forall _ _) scan_lowest_checked b Hin) as H.
  unfold scan_lowest_check in H. rewrite Hs in H.
  apply (proj1 (forallb_forall _ _) H). apply list_elem_of_In, elem_of_seqZ. lia.
Qed.

Lemma bitmap_bit_cons (b : Z) (bm : list Z) (q : Z) :
  0 ≤ q →
  bitmap_bit (b :: bm) q = if decide (q < 8) then Z.testbit b q else bitmap_bit bm (q - 8).
Proof.
  intros Hq. unfold bitmap_bit. destruct (decide (q < 8)) as [Hlt|Hge].
  - rewrite Z.div_small, Z.mod_small by lia. done.
  - assert (E : q / 8 = (q - 8) / 8 + 1).
    { replace q with ((q - 8) + 1 * 8) at 1 by lia. by rewrite Z.div_add by lia. }
    assert (E' : q mod 8 = (q - 8) mod 8).
    { replace q with ((q - 8) + 1 * 8) at 1 by lia. by rewrite Z.mod_add by lia. }
    assert (0 ≤ (q - 8) / 8) by (apply Z.div_pos; lia).
    rewrite E, E', Z2Nat.inj_add by lia.
    change (Z.to_nat 1) with 1%nat. rewrite Nat.add_1_r. done.
Qed.

Lemma scan_bitmap_lowest (bm bm' : list Z) (i fd q : Z) :
  Forall (λ b, 0 ≤ b < 256) bm →
  scan_bitmap bm i = Some (bm', fd) →
  0 ≤ q < fd - 1 - 8 * i → bitmap_bit bm q = true.
Proof.
  intros Hbm. revert i bm' fd q.
  induction Hbm as [|b bm Hb _ IH]; intros i bm' fd q; cbn [scan_bitmap]; [done|].
  assert (Hrec : b = 255 →
            match scan_bitmap bm (i + 1) with
            | Some (r, fd0) => Some (b :: r, fd0)
            | None => None
            end = Some (bm', fd) →
            0 ≤ q < fd - 1 - 8 * i → bitmap_bit (b :: bm) q = true).
  { intros ->. destruct (scan_bitmap bm (i + 1)) as [[r fd0]|] eqn:E; [|done].
    intros [= <- <-] Hq. rewrite bitmap_bit_cons by lia.
    destruct (decide (q < 8)).
    - assert (Hc : q = 0 ∨ q = 1 ∨ q = 2 ∨ q = 3 ∨ q = 4 ∨ q = 5 ∨ q = 6 ∨ q = 7) by lia.
      destruct Hc as [->|[->|[->|[->|[->|[->|[->| ->]]]]]]]; reflexivity.
    - apply (IH (i + 1) r fd0); [done|lia]. }
  destruct (decide (b = 255)) as [E|E]; [by apply Hrec|].
  pose proof (scan_byte_spec b Hb) as Hs.
  destruct (scan_byte b 1 0 8) as [[b' j]|] eqn:Hsb; [|done].
  destruct Hs as (Hj & _).
  intros [= <- <-] Hq. rewrite bitmap_bit_cons by lia.
  rewrite decide_True by lia. eapply scan_byte_lowest; [done|done|lia].
Qed.

Lemma scan_bitmap_full (bm : list Z) (i : Z) :
  Forall (λ b, b = 255) bm → scan_bitmap bm i = None.
Proof.
  intros Hbm. revert i. induction Hbm as [|b bm -> _ IH]; intros i; [done|].
  cbn [scan_bitmap]. rewrite decide_True by done. by rewrite IH.
Qed.

(** A successful open returns the descriptor the scan of the bitmap
    produced. *)
Lemma open_scan (uo : Z) (ub : bool) (name : list Z) (mode : Z) (s : fs) :
  fst (file_system_open_file uo ub name mode s) ≠ 0 →
  ∃ bm' fd, scan_bitmap (fd_bitmap s) 0 = Some (bm', fd) ∧
    fst (file_system_open_file uo ub name mode s) = u32 fd ∧
    fd_bitmap (snd (file_system_open_file uo ub name mode s)) = bm'.
Proof.
  unfold file_system_open_file.
  destruct (decide _); [done|].
  destruct (find_file name (file_list s) 0 None) as [[i|]|]; [| |done].
  - destruct (install_fd_shape i s) as [->|(bm' & fd & Hs & [->|(-> & _)])]; [done|done|].
    intros _. exists bm', fd. split_and!; [done|done|].
    cbn [snd]. unfold update_file. fs_simpl. by destruct (_ !! i).
  - destruct (decide _); [|done].
    pose proof (add_file_to_directory_bitmap (File name 0 0 0 uo ub) s) as Hb.
    destruct (add_file_to_directory _ s) as [[r f'] s']. simpl in Hb.
    destruct (decide _); [done|].
    set (s2 := add_file_to_list f' s').
    assert (Hb2 : fd_bitmap s2 = fd_bitmap s) by done.
    destruct (install_fd_shape (length (file_list s')) s2)
      as [->|(bm' & fd & Hs & [->|(-> & _)])]; [done|done|].
    intros _. exists bm', fd. rewrite <- Hb2. split_and!; [done|done|].
    cbn [snd]. unfold update_file. fs_simpl. by destruct (_ !! _).
Qed.

Lemma open_lowest (uo : Z) (ub : bool) (name : list Z) (mode : Z) (s : fs) (d : Z) :
  fs_inv s →
  fst (file_system_open_file uo ub name mode s) ≠ 0 →
  fd_bit (fd_bitmap s) (fst (file_system_open_file uo ub name mode s)) = false ∧
  fd_bit (fd_bitmap (snd (file_system_open_file uo ub name mode s)))
    (fst (file_system_open_file uo ub name mode s)) = true ∧
  (1 ≤ d < fst (file_system_open_file uo ub name mode s) →
   fd_bit (fd_bitmap s) d = true).
Proof.
  intros (Hfd & _) Hret.
  destruct (open_scan uo ub name mode s Hret) as (bm' & fd & Hs & -> & ->).
  destruct (fd_inv_scan s bm' fd Hfd Hs) as (_ & Hr & Hset).
  destruct Hfd as (_ & Hb & _).
  destruct (scan_bitmap_bits _ _ _ Hb Hs) as (_ & _ & _ & Hclear & _).
  rewrite u32_small by (unfold is_u32; lia).
  unfold fd_bit. split_and!; [done|done|].
  intros Hd. eapply scan_bitmap_lowest; [exact Hb|exact Hs|lia].
Qed.

(** X8: A successful open returns the lowest descriptor whose bit in the
    bitmap is clear: the bit of the returned descriptor was clear and is
    now set, and the bit of every lower descriptor was set. *)
Theorem open_returns_lowest_free (uo : Z) (ub : bool) (name : list Z) (mode : Z)
    (s : fs) (d : Z) :
  reachable s →
  fst (file_system_open_file uo ub name mode s) ≠ 0 →
  fd_bit (fd_bitmap s) (fst (file_system_open_file uo ub name mode s)) = false ∧
  fd_bit (fd_bitmap (snd (file_system_open_file uo ub name mode s)))
    (fst (file_system_open_file uo ub name mode s)) = true ∧
  (1 ≤ d < fst (file_system_open_file uo ub name mode s) →
   fd_bit (fd_bitmap s) d = true).
Proof. intros Hr. apply open_lowest. by apply reachable_inv. Qed.

Lemma open_returns_lowest_free_witness :
  let o := file_system_open_file 0 false hello FILE_OPEN_CREATE_MODE two_files in
  fd_bit (fd_bitmap two_files) (fst o) = false ∧
  fd_bit (fd_bitmap (snd o)) (fst o) = true ∧
  (1 ≤ 3 < fst o → fd_bit (fd_bitmap two_files) 3 = true).
Proof.
  apply (open_returns_lowest_free 0 false hello FILE_OPEN_CREATE_MODE two_files 3
           two_files_reachable).
  vm_compute. discriminate.
Defined.


Lemma find_file_record (name : list Z) (l : list file) (k j : nat) (cur : option nat)
    (f : file) :
  NoDup (map filename l) → l !! j = Some f → filename f = name → opened f = false →
  find_file name l k cur = Some (Some (k + j)%nat).
Proof.
  revert k j cur. induction l as [|g l IH]; intros k j cur Hnd Hj Hn Ho; [done|].
  apply NoDup_cons in Hnd as [Hg Hnd].
  cbn [find_file]. destruct j as [|j]; simpl in Hj.
  - injection Hj as ->. rewrite decide_True by done. rewrite Ho.
    rewrite find_file_absent; [by rewrite Nat.add_0_r|].
    apply Forall_forall. intros x Hx Hxn. apply Hg. rewrite Hn, <- Hxn.
    apply list_elem_of_fmap. by exists x.
  - rewrite decide_False.
    + rewrite (IH (S k) j) by done. do 2 f_equal. lia.
    + intros Hgn. apply Hg. rewrite Hgn, <- Hn. apply list_elem_of_fmap.
      exists f. split; [done|]. apply list_elem_of_lookup. by exists j.
Qed.



(** X10: When every bit of the descriptor bitmap is set, opening a file that
    is on record and closed returns 0 and changes nothing. *)
Theorem open_without_free_descriptor (uo : Z) (ub : bool) (mode : Z) (s : fs)
    (i : nat) (f : file) :
  reachable s →
  mode = FILE_OPEN_MODE ∨ mode = FILE_OPEN_CREATE_MODE →
  file_list s !! i = Some f → opened f = false →
  Forall (λ b, b = 255) (fd_bitmap s) →
  file_system_open_file uo ub (filename f) mode s = (0, s).
Proof.
  intros Hr Hmode Hf Ho Hfull.
  destruct (reachable_inv s Hr) as (_ & _ & (_ & _ & _ & _ & _ & _ & Hnd)).
  unfold file_system_open_file. rewrite decide_False by (intros H; by apply H).
  rewrite (find_file_record (filename f) (file_list s) 0 i None f) by done.
  unfold install_fd, get_unused_fd. rewrite scan_bitmap_full by done.
  rewrite decide_True; [done|]. unfold ERR_EXIST. lia.
Qed.

Lemma open_without_free_descriptor_witness :
  file_system_open_file 0 false (filename (File [63] 0 0 0 998 false)) FILE_OPEN_MODE
    directory_full = (0, directory_full).
Proof.
  apply (open_without_free_descriptor 0 false FILE_OPEN_MODE directory_full 62
           (File [63] 0 0 0 998 false) directory_full_reachable).
  - by left.
  - vm_compute. reflexivity.
  - reflexivity.
  - apply (bool_decide_unpack _). vm_compute. exact I.
Defined.

Lemma close_effect (fd : Z) (s : fs) (i : nat) :
  fd_inv s → 1 ≤ fd < MAX_NUM_FD →
  file_array s !! Z.to_nat fd = Some (Some i) →
  ∃ f bm',
    file_list s !! i = Some f ∧ opened f = true ∧
    file_system_close_file fd s =
      (0, Fs (partition_num_blocks s) bm' (<[Z.to_nat fd := None]> (file_array s))
             (<[i := set_opened f false]> (file_list s))
             (dir_data s) (dir_data_ptr s) (storage s)) ∧
    ∀ q, 0 ≤ q →
      bitmap_bit bm' q = bitmap_bit (fd_bitmap s) q && negb (bool_decide (q = fd - 1)).
Proof.
  intros Hfd Hr Hslot.
  pose proof Hfd as (Hl & Hb & _ & _ & _ & _ & Hused & _).
  destruct (Hused _ _ Hslot) as (_ & f & Hf & Ho).
  exists f. unfold file_system_close_file.
  rewrite decide_False by (unfold MAX_NUM_FD in *; lia).
  rewrite Hslot, Hf, Ho. cbn [negb].
  rewrite (update_file_list _ _ _ f) by done.
  set (s1 := set_file_array _ _).
  destruct (mark_fd_as_unused_spec s1 fd Hl Hb Hr) as (bm' & -> & _ & _ & Hbits).
  exists bm'. split_and!; done.
Qed.

(** X11: Closing succeeds exactly for a descriptor that is in use: it returns
    0 when the slot of the descriptor table holds a record and
    ERR_INVALID otherwise. *)
Theorem close_succeeds_iff_in_use (fd : Z) (s : fs) :
  reachable s → is_u32 fd →
  (fst (file_system_close_file fd s) = 0 ↔
   1 ≤ fd < MAX_NUM_FD ∧ ∃ i, file_array s !! Z.to_nat fd = Some (Some i)) ∧
  (fst (file_system_close_file fd s) = 0 ∨
   file_system_close_file fd s = (ERR_INVALID, s)).
Proof.
  intros Hr Hu. destruct (reachable_inv s Hr) as (Hfd & _).
  assert (Hyes : 1 ≤ fd < MAX_NUM_FD →
                 (∃ i, file_array s !! Z.to_nat fd = Some (Some i)) →
                 fst (file_system_close_file fd s) = 0).
  { intros Hrange (i & Hslot).
    destruct (close_effect fd s i Hfd Hrange Hslot) as (f & bm' & _ & _ & -> & _). done. }
  assert (Hno : ¬ (1 ≤ fd < MAX_NUM_FD ∧ ∃ i, file_array s !! Z.to_nat fd = Some (Some i)) →
                file_system_close_file fd s = (ERR_INVALID, s)).
  { intros Hn. unfold file_system_close_file.
    destruct (decide (fd = 0 ∨ fd >= MAX_NUM_FD)) as [|Hrange]; [done|].
    destruct (file_array s !! Z.to_nat fd) as [[i|]|] eqn:Hslot; [|done|done].
    exfalso. apply Hn. unfold is_u32 in Hu. split; [lia|by exists i]. }
  assert (Hcases : (1 ≤ fd < MAX_NUM_FD ∧ ∃ i, file_array s !! Z.to_nat fd = Some (Some i)) ∨
                   ¬ (1 ≤ fd < MAX_NUM_FD ∧ ∃ i, file_array s !! Z.to_nat fd = Some (Some i))).
  { destruct (decide (1 ≤ fd < MAX_NUM_FD)) as [Hrange|]; [|right; by intros [? _]].
    destruct (file_array s !! Z.to_nat fd) as [[i|]|]; [left; split; [done|by exists i]| |];
      right; by intros [_ [? ?]]. }
  destruct Hcases as [[Hrange Hi]|Hn].
  - split; [|left; by apply Hyes]. split; [done|]. intros _. by apply Hyes.
  - split; [|right; by apply Hno]. split; [|by intros ?].
    rewrite (Hno Hn). unfold ERR_INVALID. cbn [fst]. lia.
Qed.

Lemma close_succeeds_iff_in_use_witness :
  (fst (file_system_close_file 2 two_files) = 0 ↔
   1 ≤ 2 < MAX_NUM_FD ∧ ∃ i, file_array two_files !! Z.to_nat 2 = Some (Some i)) ∧
  (fst (file_system_close_file 2 two_files) = 0 ∨
   file_system_close_file 2 two_files = (ERR_INVALID, two_files)).
Proof.
  apply (close_succeeds_iff_in_use 2 two_files two_files_reachable).
  unfold is_u32. lia.
Defined.

(** X12: Closing the same descriptor twice in a row: the second close always
    returns ERR_INVALID and changes nothing. *)
Theorem close_twice_invalid (fd : Z) (s : fs) :
  file_system_close_file fd (snd (file_system_close_file fd s))
  = (ERR_INVALID, snd (file_system_close_file fd s)).
Proof.
  unfold file_system_close_file at 2 3.
  destruct (decide (fd = 0 ∨ fd >= MAX_NUM_FD)) as [Hbad|Hrange].
  { cbn [snd]. unfold file_system_close_file. by rewrite decide_True. }
  destruct (file_array s !! Z.to_nat fd) as [[i|]|] eqn:Hslot.
  - destruct (file_list s !! i) as [f|] eqn:Hf.
    + destruct (opened f) eqn:Ho; cbn [negb snd].
      * unfold file_system_close_file at 1. rewrite decide_False by done.
        destruct (mark_fd_as_unused_frame fd
                    (set_file_array (update_file s i (λ f, set_opened f false))
                       (<[Z.to_nat fd := None]>
                          (file_array (update_file s i (λ f, set_opened f false))))))
          as (_ & -> & _).
        rewrite (update_file_list _ _ _ f) by done. fs_simpl.
        rewrite list_lookup_insert_eq by (by eapply lookup_lt_Some). done.
      * unfold file_system_close_file. rewrite decide_False by done.
        by rewrite Hslot, Hf, Ho.
    + cbn [snd]. unfold file_system_close_file. rewrite decide_False by done.
      by rewrite Hslot, Hf.
  - cbn [snd]. unfold file_system_close_file. rewrite decide_False by done.
    by rewrite Hslot.
  - cbn [snd]. unfold file_system_close_file. rewrite decide_False by done.
    by rewrite Hslot.
Qed.

(** X13: Closing releases the descriptor: the slot is emptied, the bit of the
    descriptor is cleared and no other bit changes, the record is marked
    closed, and the next open that succeeds returns a descriptor no
    larger than the one released. *)
Theorem close_releases_descriptor (fd : Z) (s : fs) (i : nat) (uo : Z) (ub : bool)
    (name : list Z) (mode : Z) :
  reachable s → 1 ≤ fd < MAX_NUM_FD →
  file_array s !! Z.to_nat fd = Some (Some i) →
  let s' := snd (file_system_close_file fd s) in
  file_array s' !! Z.to_nat fd = Some None ∧
  fd_bit (fd_bitmap s') fd = false ∧
  (∀ d, 1 ≤ d → d ≠ fd → fd_bit (fd_bitmap s') d = fd_bit (fd_bitmap s) d) ∧
  (∃ f, file_list s' !! i = Some f ∧ opened f = false) ∧
  (fst (file_system_open_file uo ub name mode s') ≠ 0 →
   2 ≤ fst (file_system_open_file uo ub name mode s') ≤ fd).
Proof.
  intros Hr Hrange Hslot s'.
  pose proof (reachable_inv s Hr) as Hinv. pose proof Hinv as (Hfd & _).
  assert (Hinv' : fs_inv s') by (by apply close_inv).
  destruct (close_effect fd s i Hfd Hrange Hslot) as (f & bm' & Hf & Ho & Hc & Hbits).
  assert (Hbit : fd_bit (fd_bitmap s') fd = false).
  { subst s'. rewrite Hc. cbn [snd fd_bitmap]. unfold fd_bit.
    rewrite Hbits by lia. rewrite bool_decide_eq_true_2 by done. apply andb_false_r. }
  split_and!.
  - subst s'. rewrite Hc. cbn [snd file_array].
    apply list_lookup_insert_eq. by eapply lookup_lt_Some.
  - exact Hbit.
  - intros d Hd Hne. subst s'. rewrite Hc. cbn [snd fd_bitmap]. unfold fd_bit.
    rewrite Hbits by lia. rewrite bool_decide_eq_false_2 by lia. apply andb_true_r.
  - exists (set_opened f false). subst s'. rewrite Hc. cbn [snd file_list].
    split; [|done]. apply list_lookup_insert_eq. by eapply lookup_lt_Some.
  - intros Hret.
    destruct (open_lowest uo ub name mode s' fd Hinv' Hret) as (_ & _ & Hlow).
    destruct (open_scan uo ub name mode s' Hret) as (bm2 & fd2 & Hs & Hfd2 & _).
    destruct Hinv' as (Hfd' & _).
    destruct (fd_inv_scan s' bm2 fd2 Hfd' Hs) as (_ & Hr2 & _).
    rewrite u32_small in Hfd2 by (unfold is_u32; lia).
    split; [lia|].
    destruct (decide (fd < fst (file_system_open_file uo ub name mode s'))) as [Hlt|]; [|lia].
    rewrite Hlow in Hbit by lia. done.
Qed.

Lemma close_releases_descriptor_witness :
  let s' := snd (file_system_close_file 2 two_files) in
  file_array s' !! Z.to_nat 2 = Some None ∧
  fd_bit (fd_bitmap s') 2 = false ∧
  (∀ d, 1 ≤ d → d ≠ 2 → fd_bit (fd_bitmap s') d = fd_bit (fd_bitmap two_files) d) ∧
  (∃ f, file_list s' !! 0%nat = Some f ∧ opened f = false) ∧
  (fst (file_system_open_file 0 false hello FILE_OPEN_CREATE_MODE s') ≠ 0 →
   2 ≤ fst (file_system_open_file 0 false hello FILE_OPEN_CREATE_MODE s') ≤ 2).
Proof.
  apply (close_releases_descriptor 2 two_files 0 0 false hello FILE_OPEN_CREATE_MODE
           two_files_reachable).
  - unfold MAX_NUM_FD. lia.
  - vm_compute. reflexivity.
Defined.

(** X14: Releasing the descriptor that [get_unused_fd] has just handed out
    puts the bitmap back as it was. *)
Theorem release_restores_bitmap (s : fs) :
  length (fd_bitmap s) = 8%nat →
  Forall (λ b, 0 ≤ b < 256) (fd_bitmap s) →
  fst (get_unused_fd s) ≠ ERR_EXIST →
  mark_fd_as_unused (fst (get_unused_fd s)) (snd (get_unused_fd s)) = s.
Proof.
  intros Hlen Hb. unfold get_unused_fd.
  destruct (scan_bitmap (fd_bitmap s) 0) as [[bm' fd]|] eqn:Hs; [|done].
  intros _. cbn [fst snd].
  destruct (scan_bitmap_spec _ _ _ _ Hb Hs) as (k & b & j & Hk & Hj & Hc & -> & -> & Hr & _).
  assert (Hklen : (k < 8)%nat) by (rewrite <- Hlen; by eapply lookup_lt_Some).
  assert (Hbr : 0 ≤ b < 256) by (by eapply (Forall_lookup_1 _ _ _ _ Hb)).
  unfold mark_fd_as_unused.
  rewrite decide_False by (unfold MAX_NUM_FD; lia).
  replace ((0 + Z.of_nat k) * 8 + j + 1 - 1) with (Z.of_nat k * 8 + j) by lia.
  rewrite Z.quot_div_nonneg, Z.rem_mod_nonneg by lia.
  assert (Hdiv : (Z.of_nat k * 8 + j) / 8 = Z.of_nat k)
    by (symmetry; apply (Z.div_unique _ 8 _ j); lia).
  assert (Hmod : (Z.of_nat k * 8 + j) mod 8 = j)
    by (symmetry; apply (Z.mod_unique _ 8 (Z.of_nat k) j); lia).
  rewrite Hdiv, Hmod, Nat2Z.id. cbn [fd_bitmap set_fd_bitmap].
  rewrite list_lookup_insert_eq by (by eapply lookup_lt_Some).
  destruct (clear_bit_spec (Z.setbit b j) j Hr Hj) as [-> _].
  assert (E : Z.clearbit (Z.setbit b j) j = b).
  { assert (Hin : In b (seqZ 0 256)) by (apply list_elem_of_In, elem_of_seqZ; lia).
    pose proof (proj1 (forallb_forall _ _) set_clear_checked b Hin) as H.
    unfold set_clear_check in H.
    assert (Hin' : In j (seqZ 0 8)) by (apply list_elem_of_In, elem_of_seqZ; lia).
    pose proof (proj1 (forallb_forall _ _) H j Hin') as H'. cbn beta in H'.
    rewrite Hc in H'. cbn [orb] in H'. lia. }
  rewrite E, list_insert_insert_eq. rewrite (list_insert_id _ k b) by done.
  by destruct s.
Qed.

Lemma release_restores_bitmap_witness :
  mark_fd_as_unused (fst (get_unused_fd two_files)) (snd (get_unused_fd two_files))
  = two_files.
Proof.
  apply (release_restores_bitmap two_files).
  - vm_compute. reflexivity.
  - apply (bool_decide_unpack _). vm_compute. exact I.
  - vm_compute. discriminate.
Defined.

(** ** Single blocks, at any offset inside the block *)

Lemma is_u32_u32 (x : Z) : is_u32 (u32 x).
Proof. unfold is_u32, u32. apply Z.mod_pos_bound. lia. Qed.

Lemma write_blocks_loop_frame (data : list Z) (start i : Z) (n : nat) (w : Z)
    (st : gmap Z (list Z)) (b : Z) :
  (∀ k, i ≤ k < i + Z.of_nat n → u32 (start + k) ≠ b) →
  (write_blocks_loop data start i n w st).2 !! b = st !! b.
Proof.
  revert i w st. induction n as [|n IH]; intros i w st Hk; [done|].
  cbn [write_blocks_loop]. cbv zeta.
  assert (Hi : u32 (start + i) ≠ b) by (apply Hk; lia).
  destruct (decide _).
  - cbn [snd]. by rewrite lookup_insert_ne.
  - rewrite IH by (intros k ?; apply Hk; lia). by rewrite lookup_insert_ne.
Qed.

Lemma flush_frame (s : fs) (b : Z) :
  b ≠ 0 → b ≠ 1 →
  storage (flush_dir_data_to_storage s) !! b = storage s !! b.
Proof.
  intros H0 H1. unfold flush_dir_data_to_storage, write_blocks. fs_simpl.
  apply write_blocks_loop_frame. intros k Hk.
  change (Z.of_nat (Z.to_nat DIR_DATA_NUM_BLOCKS)) with 2 in Hk.
  assert (Hc : k = 0 ∨ k = 1) by lia. destruct Hc as [-> | ->]; done.
Qed.

(** Reading one block into a zeroed buffer: a missing block is created
    zero-filled, a block that is there is left as it is. *)
Lemma read_blocks_one_cases (b : Z) (st : gmap Z (list Z)) :
  is_u32 b →
  ∃ buf r,
    read_blocks zero_buf b 1 st =
      (buf, r, match st !! b with Some _ => st | None => <[b := zero_buf]> st end) ∧
    (r = 512 → length buf = 512%nat) ∧
    (st !! b = None → buf = zero_buf ∧ r = 512) ∧
    (∀ blk, st !! b = Some blk → length blk = 512%nat → buf = blk ∧ r = 512).
Proof.
  intros Hb. unfold read_blocks. change (Z.to_nat 1) with 1%nat.
  cbn [read_blocks_loop]. rewrite Z.add_0_r, (u32_small b) by done.
  change (0 * STORAGE_BLOCK_SIZE) with 0. change (Z.to_nat STORAGE_BLOCK_SIZE) with 512%nat.
  destruct (st !! b) as [blk|] eqn:Hst.
  - rewrite Hst.
    assert (Hp : length (take 512 blk) = 512%nat → poke zero_buf 0 (take 512 blk) = take 512 blk).
    { intros Hl. unfold poke. simpl take at 1. rewrite app_nil_l.
      rewrite drop_ge; [by rewrite app_nil_r|]. rewrite length_zero_buf. lia. }
    destruct (decide (Z.of_nat (length (take 512 blk)) = STORAGE_BLOCK_SIZE)) as [Hl|Hl];
      unfold STORAGE_BLOCK_SIZE in Hl.
    + eexists _, _. split; [reflexivity|]. rewrite Hp by lia.
      split_and!; [lia|done|].
      intros blk' [= <-] Hlen. rewrite take_ge by lia. split; [done|lia].
    + eexists _, _. split; [reflexivity|]. split_and!; [lia|done|].
      intros blk' [= <-] Hlen. rewrite take_ge in Hl by lia. lia.
  - rewrite write_blocks_one by done. cbn [snd]. rewrite lookup_insert_eq.
    change (take 512 zero_buf) with zero_buf.
    rewrite decide_True by done.
    eexists _, _. split; [reflexivity|]. split_and!; [done|done|done].
Qed.

Lemma read_from_block_full (b o n : Z) (blk : list Z) (st : gmap Z (list Z)) :
  is_u32 b → 0 ≤ o → 0 ≤ n → o + n ≤ 512 →
  st !! b = Some blk → length blk = 512%nat →
  read_from_block b o n st = (peek blk o n, n, st).
Proof.
  intros Hb Ho Hn Hon Hst Hl. unfold read_from_block. unfold STORAGE_BLOCK_SIZE.
  rewrite (u32_small (o + n)) by (unfold is_u32; lia).
  rewrite decide_False by lia.
  destruct (read_blocks_one_cases b st Hb) as (buf & r & -> & _ & _ & Hfull).
  destruct (Hfull blk Hst Hl) as [-> ->]. rewrite Hst.
  by rewrite decide_True.
Qed.

Lemma read_from_block_keeps (b o n : Z) (st : gmap Z (list Z)) (b' : Z) (blk : list Z) :
  is_u32 b → st !! b' = Some blk →
  (read_from_block b o n st).2 !! b' = Some blk.
Proof.
  intros Hb Hst. unfold read_from_block.
  destruct (decide _); [done|].
  destruct (read_blocks_one_cases b st Hb) as (buf & r & -> & _).
  assert (Hk : match st !! b with Some _ => st | None => <[b := zero_buf]> st end !! b'
               = Some blk).
  { destruct (st !! b) eqn:E; [done|].
    rewrite lookup_insert_ne; [done|]. intros ->. congruence. }
  by destruct (decide _).
Qed.

Lemma length_memcpy (buf data : list Z) (o n : Z) :
  0 ≤ o → 0 ≤ n → o + n ≤ Z.of_nat (length buf) →
  length (memcpy buf o data n) = length buf.
Proof.
  intros Ho Hn Hon. unfold memcpy. apply length_poke; [done|].
  rewrite length_take. lia.
Qed.

Lemma write_to_block_full (data : list Z) (b o n : Z) (blk : list Z)
    (st : gmap Z (list Z)) :
  is_u32 b → 0 ≤ o → 0 ≤ n → o + n ≤ 512 → n ≤ Z.of_nat (length data) →
  st !! b = Some blk → length blk = 512%nat →
  write_to_block data b o n st = (n, <[b := poke blk o (take (Z.to_nat n) data)]> st).
Proof.
  intros Hb Ho Hn Hon Hd Hst Hl. unfold write_to_block. unfold STORAGE_BLOCK_SIZE.
  rewrite (u32_small (o + n)) by (unfold is_u32; lia).
  rewrite decide_False by lia.
  destruct (decide (o = 0 ∧ n = 512)) as [[-> ->]|Hpart].
  - rewrite bool_decide_eq_true_2 by done. rewrite decide_True by done.
    assert (Ht : length (take (Z.to_nat 512) data) = 512%nat) by (rewrite length_take; lia).
    assert (E : ∀ buf, length buf = 512%nat →
                memcpy buf 0 data 512 = take (Z.to_nat 512) data).
    { intros buf Hbuf. unfold memcpy, poke. simpl take at 1. rewrite app_nil_l.
      rewrite drop_ge; [by rewrite app_nil_r|]. lia. }
    rewrite (E zero_buf length_zero_buf).
    rewrite write_blocks_one by done. rewrite decide_True by lia.
    do 2 f_equal. symmetry. apply (E blk Hl).
  - rewrite bool_decide_eq_false_2 by done.
    destruct (read_blocks_one_cases b st Hb) as (buf & r & -> & _ & _ & Hfull).
    destruct (Hfull blk Hst Hl) as [-> ->]. rewrite Hst.
    rewrite decide_True by done.
    rewrite write_blocks_one by (try done; rewrite length_memcpy; lia).
    rewrite decide_True by lia. done.
Qed.

Lemma write_to_block_frame (data : list Z) (b o n : Z) (st : gmap Z (list Z)) (b' : Z) :
  is_u32 b → 0 ≤ o → 0 ≤ n → o + n ≤ 512 →
  ((write_to_block data b o n st).2 !! b' = st !! b' ∨
   b' = b ∧ full_block (write_to_block data b o n st).2 b).
Proof.
  intros Hb Ho Hn Hon. unfold write_to_block.
  destruct (decide _); [by left|].
  assert (Hw : ∀ buf st1, length buf = 512%nat →
            (let '(ret, st2) := write_blocks (memcpy buf o data n) b 1 st1 in
             if decide (ret >= n) then (n, st2) else (ret, st2)).2
            = <[b := memcpy buf o data n]> st1).
  { intros buf st1 Hbuf. rewrite write_blocks_one by (try done; rewrite length_memcpy; lia).
    by destruct (decide _). }
  destruct (bool_decide _).
  - rewrite decide_True by done. rewrite (Hw zero_buf st length_zero_buf).
    destruct (decide (b' = b)) as [->|Hne]; [right|left; by rewrite lookup_insert_ne].
    split; [done|]. eexists. rewrite lookup_insert_eq. split; [done|].
    rewrite length_memcpy; [done|done|done|]. rewrite length_zero_buf. lia.
  - destruct (read_blocks_one_cases b st Hb) as (buf & r & -> & Hlen & _).
    unfold STORAGE_BLOCK_SIZE.
    destruct (decide (r = 512)) as [Hr|Hr].
    + specialize (Hlen Hr). rewrite (Hw buf _ Hlen).
      destruct (decide (b' = b)) as [->|Hne].
      * right. split; [done|]. eexists. rewrite lookup_insert_eq. split; [done|].
        rewrite length_memcpy; [done|done|done|]. lia.
      * left. rewrite lookup_insert_ne by done.
        destruct (st !! b); [done|]. by rewrite lookup_insert_ne.
    + cbn [snd]. destruct (st !! b) eqn:E; [by left|].
      destruct (decide (b' = b)) as [->|Hne]; [|left; by rewrite lookup_insert_ne].
      right. split; [done|]. exists zero_buf. by rewrite lookup_insert_eq.
Qed.

Lemma write_to_block_keeps_full (data : list Z) (b o n : Z) (st : gmap Z (list Z))
    (b' : Z) :
  is_u32 b → 0 ≤ o → 0 ≤ n → o + n ≤ 512 →
  full_block st b' → full_block (write_to_block data b o n st).2 b'.
Proof.
  intros Hb Ho Hn Hon Hfull.
  destruct (write_to_block_frame data b o n st b' Hb Ho Hn Hon) as [E|[-> H]]; [|done].
  unfold full_block. by rewrite E.
Qed.

(** ** The bytes of an extent *)

Lemma lookup_poke (buf : list Z) (o : Z) (bs : list Z) (j : nat) :
  0 ≤ o → o + Z.of_nat (length bs) ≤ Z.of_nat (length buf) →
  poke buf o bs !! j =
    if decide (Z.to_nat o ≤ j < Z.to_nat o + length bs)%nat
    then bs !! (j - Z.to_nat o)%nat else buf !! j.
Proof.
  intros Ho Hfit. unfold poke.
  assert (Ht : length (take (Z.to_nat o) buf) = Z.to_nat o) by (rewrite length_take; lia).
  destruct (decide (j < Z.to_nat o)%nat) as [Hlt|Hge].
  - rewrite lookup_app_l by lia. rewrite lookup_take_lt by lia.
    rewrite decide_False by lia. done.
  - rewrite lookup_app_r by lia. rewrite Ht.
    destruct (decide (j < Z.to_nat o + length bs)%nat) as [Hin|Hout].
    + rewrite lookup_app_l by lia. rewrite decide_True by lia. done.
    + rewrite lookup_app_r by lia. rewrite lookup_drop. rewrite decide_False by lia.
      f_equal. lia.
Qed.

Lemma data_byte_drop (data : list Z) (ws j : Z) :
  0 ≤ ws → 0 ≤ j → data_byte (drop (Z.to_nat ws) data) j = data_byte data (ws + j).
Proof.
  intros Hws Hj. unfold data_byte. rewrite lookup_drop. do 2 f_equal. lia.
Qed.

Lemma extent_byte_block (st : gmap Z (list Z)) (first bn j : Z) (blk : list Z) :
  st !! (first + bn) = Some blk → 0 ≤ j < 512 →
  extent_byte st first (512 * bn + j) = default 0 (blk !! Z.to_nat j).
Proof.
  intros Hst Hj. unfold extent_byte.
  replace (512 * bn + j) with (j + bn * 512) by lia.
  rewrite Z.div_add, Z.mod_add, Z.div_small, Z.mod_small by lia.
  rewrite Z.add_0_l, Hst. done.
Qed.

Lemma peek_block (st : gmap Z (list Z)) (first bn o n : Z) (blk : list Z) :
  st !! (first + bn) = Some blk → length blk = 512%nat →
  0 ≤ o → 0 ≤ n → o + n ≤ 512 →
  peek blk o n = map (extent_byte st first) (seqZ (512 * bn + o) n).
Proof.
  intros Hst Hl Ho Hn Hon. apply list_eq. intros j. unfold peek.
  change (map (extent_byte st first) (seqZ (512 * bn + o) n))
    with (extent_byte st first <$> seqZ (512 * bn + o) n).
  rewrite list_lookup_fmap.
  destruct (decide (j < Z.to_nat n)%nat) as [Hlt|Hge].
  - rewrite lookup_take_lt by done. rewrite lookup_drop.
    rewrite lookup_seqZ_lt by lia. cbn [fmap option_fmap option_map].
    replace (512 * bn + o + Z.of_nat j) with (512 * bn + (o + Z.of_nat j)) by lia.
    rewrite (extent_byte_block st first bn _ blk) by (try done; lia).
    replace (Z.to_nat (o + Z.of_nat j)) with (Z.to_nat o + j)%nat by lia.
    destruct (lookup_lt_is_Some_2 blk (Z.to_nat o + j)) as [x Hx]; [lia|].
    by rewrite Hx.
  - rewrite lookup_take_ge by lia. rewrite lookup_seqZ_ge by lia. done.
Qed.

Lemma extent_byte_write (st : gmap Z (list Z)) (first bn bo n : Z) (d blk : list Z)
    (q : Z) :
  st !! (first + bn) = Some blk → length blk = 512%nat →
  0 ≤ bo → 0 ≤ n → bo + n ≤ 512 → n ≤ Z.of_nat (length d) → 0 ≤ q →
  extent_byte (<[first + bn := poke blk bo (take (Z.to_nat n) d)]> st) first q =
    if decide (512 * bn + bo ≤ q < 512 * bn + bo + n)
    then data_byte d (q - (512 * bn + bo))
    else extent_byte st first q.
Proof.
  intros Hst Hl Hbo Hn Hon Hd Hq. unfold extent_byte.
  pose proof (Z.div_mod q 512 ltac:(lia)) as Hdm.
  pose proof (Z.mod_pos_bound q 512 ltac:(lia)) as Hm.
  assert (Ht : length (take (Z.to_nat n) d) = Z.to_nat n) by (rewrite length_take; lia).
  destruct (decide (q / 512 = bn)) as [E|E].
  - rewrite E, lookup_insert_eq, Hst. cbn [default from_option id].
    rewrite lookup_poke by lia. rewrite Ht.
    destruct (decide (512 * bn + bo ≤ q < 512 * bn + bo + n)) as [Hin|Hout].
    + rewrite decide_True by lia. rewrite lookup_take_lt by lia.
      unfold data_byte. do 2 f_equal. lia.
    + rewrite decide_False by lia. done.
  - rewrite lookup_insert_ne by lia. rewrite decide_False by lia. done.
Qed.

Lemma extent_byte_frame (st st' : gmap Z (list Z)) (first q : Z) :
  st' !! (first + q / 512) = st !! (first + q / 512) →
  extent_byte st' first q = extent_byte st first q.
Proof. intros E. unfold extent_byte. by rewrite E. Qed.

(** ** The transfer loops, from any offset *)

Lemma read_loop_keeps (fuel : nat) (out : list Z) (first sz rs bn bo next : Z)
    (st : gmap Z (list Z)) (b' : Z) (blk : list Z) :
  st !! b' = Some blk →
  (read_loop fuel out first sz rs bn bo next st).2 !! b' = Some blk.
Proof.
  revert out rs bn bo next st.
  induction fuel as [|fuel IH]; intros out rs bn bo next st Hst; [done|].
  cbn [read_loop]. destruct (decide _); [|done].
  pose proof (read_from_block_keeps (u32 (first + bn)) bo next st b' blk
                (is_u32_u32 _) Hst) as Hk.
  destruct (read_from_block _ _ _ _) as [[bytes ret] st1]. cbn [snd] in Hk.
  destruct (decide _); [done|]. by apply IH.
Qed.

Lemma write_loop_keeps_full (fuel : nat) (data : list Z) (first sz ws bn bo next : Z)
    (st : gmap Z (list Z)) (b' : Z) :
  0 ≤ bo → 0 ≤ next → bo + next ≤ 512 →
  full_block st b' →
  full_block (write_loop fuel data first sz ws bn bo next st).2 b'.
Proof.
  revert ws bn bo next st.
  induction fuel as [|fuel IH]; intros ws bn bo next st Hbo Hn Hon Hfull; [done|].
  cbn [write_loop]. destruct (decide _); [|done].
  pose proof (write_to_block_keeps_full (drop (Z.to_nat ws) data) (u32 (first + bn))
                bo next st b' (is_u32_u32 _) Hbo Hn Hon Hfull) as Hk.
  destruct (write_to_block _ _ _ _ _) as [ret st1]. cbn [snd] in Hk.
  destruct (decide _); [done|].
  pose proof (is_u32_u32 (sz - u32 (ws + next))) as Hu. unfold is_u32 in Hu.
  apply IH; [done| | |done].
  - destruct (decide _); [done|lia].
  - change (u32 (STORAGE_BLOCK_SIZE - 0)) with 512. unfold STORAGE_BLOCK_SIZE.
    destruct (decide _); lia.
Qed.

Lemma read_loop_spec (fuel : nat) (out : list Z) (first sz rs bn bo : Z)
    (st : gmap Z (list Z)) :
  is_u32 sz → 0 ≤ rs ≤ sz → 0 ≤ bn → 0 ≤ bo < 512 →
  512 * bn + bo + (sz - rs) ≤ 4294967296 →
  (∀ k, bn ≤ k → 512 * k < 512 * bn + bo + (sz - rs) →
     is_u32 (first + k) ∧ full_block st (first + k)) →
  bo + (sz - rs) ≤ 512 * Z.of_nat fuel →
  read_loop fuel out first sz rs bn bo (Z.min (512 - bo) (sz - rs)) st
  = (out ++ map (extent_byte st first) (seqZ (512 * bn + bo) (sz - rs)), sz, st).
Proof.
  intros Hsz. revert out rs bn bo.
  induction fuel as [|fuel IH]; intros out rs bn bo Hrs Hbn Hbo Hend Hblocks Hfuel.
  - assert (rs = sz) as -> by lia. rewrite Z.sub_diag. cbn. by rewrite app_nil_r.
  - destruct (decide (rs = sz)) as [->|Hmore].
    { rewrite read_loop_done, Z.sub_diag. cbn. by rewrite app_nil_r. }
    cbn [read_loop]. rewrite decide_True by lia.
    set (next := Z.min (512 - bo) (sz - rs)).
    assert (Hnext : 0 < next ≤ 512 - bo) by (subst next; lia).
    destruct (Hblocks bn ltac:(lia) ltac:(lia)) as (Hb & blk & Hblk & Hlen).
    rewrite (u32_small (first + bn)) by done.
    rewrite (read_from_block_full (first + bn) bo next blk) by (try done; lia).
    rewrite decide_False by (intros H; by apply H).
    rewrite (peek_block st first bn bo next blk) by (try done; lia).
    unfold is_u32 in Hsz.
    rewrite (u32_small (rs + next)) by (unfold is_u32; lia).
    destruct (decide (sz - rs ≤ 512 - bo)) as [Hlast|Hfull].
    + assert (Enext : next = sz - rs) by (subst next; lia).
      replace (rs + next) with sz by lia. rewrite read_loop_done. by rewrite Enext.
    + assert (Enext : next = 512 - bo) by (subst next; lia).
      rewrite (u32_small (bn + 1)) by (unfold is_u32; lia).
      change (u32 (STORAGE_BLOCK_SIZE - 0)) with 512. change STORAGE_BLOCK_SIZE with 512.
      rewrite (u32_small (sz - (rs + next))) by (unfold is_u32; lia).
      replace (if decide (sz - (rs + next) >= 512) then 512 else sz - (rs + next))
        with (Z.min (512 - 0) (sz - (rs + next))) by (destruct (decide _); lia).
      rewrite IH; try lia.
      * rewrite <- app_assoc. do 2 f_equal. f_equal.
        change (map (extent_byte st first) ?l) with (extent_byte st first <$> l).
        rewrite <- fmap_app. f_equal.
        replace (sz - rs) with (next + (sz - (rs + next))) by lia.
        rewrite seqZ_app by lia. do 2 f_equal; lia.
      * intros k Hk Hkw. apply Hblocks; lia.
Qed.

Lemma write_loop_spec (fuel : nat) (data : list Z) (first sz ws bn bo : Z)
    (st : gmap Z (list Z)) :
  is_u32 sz → sz ≤ Z.of_nat (length data) →
  0 ≤ ws ≤ sz → 0 ≤ bn → 0 ≤ bo < 512 →
  512 * bn + bo + (sz - ws) ≤ 4294967296 →
  (∀ k, bn ≤ k → 512 * k < 512 * bn + bo + (sz - ws) →
     is_u32 (first + k) ∧ full_block st (first + k)) →
  bo + (sz - ws) ≤ 512 * Z.of_nat fuel →
  ∃ st',
    write_loop fuel data first sz ws bn bo (Z.min (512 - bo) (sz - ws)) st = (sz, st') ∧
    (∀ b', (∀ k, bn ≤ k → 512 * k < 512 * bn + bo + (sz - ws) → b' ≠ first + k) →
       st' !! b' = st !! b') ∧
    (∀ b', full_block st b' → full_block st' b') ∧
    (∀ q, 0 ≤ q →
       extent_byte st' first q =
         if decide (512 * bn + bo ≤ q < 512 * bn + bo + (sz - ws))
         then data_byte data (ws + (q - (512 * bn + bo)))
         else extent_byte st first q).
Proof.
  intros Hsz Hdata. revert ws bn bo st.
  induction fuel as [|fuel IH]; intros ws bn bo st Hws Hbn Hbo Hend Hblocks Hfuel.
  - assert (ws = sz) as -> by lia. exists st. split_and!; try done.
    intros q Hq. rewrite decide_False by lia. done.
  - destruct (decide (ws = sz)) as [->|Hmore].
    { rewrite write_loop_done. exists st. split_and!; try done.
      intros q Hq. rewrite decide_False by lia. done. }
    cbn [write_loop]. rewrite decide_True by lia.
    set (next := Z.min (512 - bo) (sz - ws)).
    assert (Hnext : 0 < next ≤ 512 - bo) by (subst next; lia).
    destruct (Hblocks bn ltac:(lia) ltac:(lia)) as (Hb & blk & Hblk & Hlen).
    rewrite (u32_small (first + bn)) by done.
    assert (Hdrop : next ≤ Z.of_nat (length (drop (Z.to_nat ws) data)))
      by (rewrite length_drop; lia).
    rewrite (write_to_block_full _ (first + bn) bo next blk) by (try done; lia).
    rewrite decide_False by (intros H; by apply H).
    unfold is_u32 in Hsz.
    rewrite (u32_small (ws + next)) by (unfold is_u32; lia).
    set (st1 := <[first + bn := _]> st).
    assert (Hst1 : ∀ q, 0 ≤ q →
              extent_byte st1 first q =
                if decide (512 * bn + bo ≤ q < 512 * bn + bo + next)
                then data_byte data (ws + (q - (512 * bn + bo)))
                else extent_byte st first q).
    { intros q Hq. subst st1.
      rewrite (extent_byte_write st first bn bo next _ blk) by (try done; lia).
      destruct (decide _); [|done]. apply data_byte_drop; lia. }
    assert (Hfull1 : ∀ b', full_block st b' → full_block st1 b').
    { intros b' Hf. subst st1. destruct (decide (b' = first + bn)) as [->|Hne].
      - eexists. rewrite lookup_insert_eq. split; [done|].
        rewrite length_poke; [done|lia|]. rewrite length_take. lia.
      - unfold full_block. by rewrite lookup_insert_ne. }
    assert (Hframe1 : ∀ b', b' ≠ first + bn → st1 !! b' = st !! b')
      by (intros b' Hne; subst st1; by rewrite lookup_insert_ne).
    clearbody st1.
    destruct (decide (sz - ws ≤ 512 - bo)) as [Hlast|Hfull].
    + assert (Enext : next = sz - ws) by (subst next; lia).
      replace (ws + next) with sz by lia. rewrite write_loop_done.
      exists st1. split_and!; [done| |done|].
      * intros b' Hb'. apply Hframe1. apply Hb'; lia.
      * intros q Hq. rewrite Hst1 by done. rewrite Enext. done.
    + assert (Enext : next = 512 - bo) by (subst next; lia).
      rewrite (u32_small (bn + 1)) by (unfold is_u32; lia).
      change (u32 (STORAGE_BLOCK_SIZE - 0)) with 512. change STORAGE_BLOCK_SIZE with 512.
      rewrite (u32_small (sz - (ws + next))) by (unfold is_u32; lia).
      replace (if decide (sz - (ws + next) >= 512) then 512 else sz - (ws + next))
        with (Z.min (512 - 0) (sz - (ws + next))) by (destruct (decide _); lia).
      destruct (IH (ws + next) (bn + 1) 0 st1) as (st' & -> & Hframe & Hfull' & Hbytes);
        try lia.
      { intros k Hk Hkw. destruct (Hblocks k ltac:(lia) ltac:(lia)) as [Hu Hf].
        split; [done|]. by apply Hfull1. }
      exists st'. split_and!; [done| | |].
      * intros b' Hb'. rewrite Hframe.
        -- apply Hframe1. apply Hb'; lia.
        -- intros k Hk Hkw. apply Hb'; lia.
      * intros b' Hf. by apply Hfull', Hfull1.
      * intros q Hq. rewrite Hbytes, Hst1 by done.
        repeat destruct (decide _); try lia; try done. f_equal. lia.
Qed.

(** ** Every block of an extent is a full block on the device *)

Lemma write_blocks_dir_frame (d : list Z) (st : gmap Z (list Z)) (b : Z) :
  b ≠ 0 → b ≠ 1 → (write_blocks d 0 DIR_DATA_NUM_BLOCKS st).2 !! b = st !! b.
Proof.
  intros H0 H1. unfold write_blocks. apply write_blocks_loop_frame. intros k Hk.
  change (Z.of_nat (Z.to_nat DIR_DATA_NUM_BLOCKS)) with 2 in Hk.
  assert (Hc : k = 0 ∨ k = 1) by lia. destruct Hc as [-> | ->]; done.
Qed.

Lemma zero_blocks_lookup (first i : Z) (n : nat) (st : gmap Z (list Z)) (b : Z) :
  0 < first → 0 ≤ i → first + i + Z.of_nat n ≤ 4294967296 →
  zero_blocks first i n st !! b =
    if decide (first + i ≤ b < first + i + Z.of_nat n) then Some zero_buf else st !! b.
Proof.
  revert i st. induction n as [|n IH]; intros i st Hf Hi Hend.
  - cbn [zero_blocks]. rewrite decide_False by lia. done.
  - cbn [zero_blocks].
    rewrite (u32_small (first + i)), (u32_small (i + 1)) by (unfold is_u32; lia).
    rewrite write_blocks_one by (try done; unfold is_u32; lia). cbn [snd].
    rewrite IH by lia.
    destruct (decide (b = first + i)) as [->|Hne].
    + rewrite decide_False by lia. rewrite decide_True by lia. by rewrite lookup_insert_eq.
    + rewrite lookup_insert_ne by done.
      destruct (decide (first + (i + 1) ≤ b < first + (i + 1) + Z.of_nat n)).
      * rewrite decide_True by lia. done.
      * rewrite decide_False by lia. done.
Qed.

(** [expand_file_size] on the device: the blocks it adds to the extent
    are zero-filled, and no other block of the data area changes. *)
Lemma expand_file_size_blocks (s : fs) (i : nat) (f : file) (sz : Z) :
  fs_inv s → file_list s !! i = Some f → is_u32 sz → size f < sz →
  expand_file_size i sz s = (ERR_FOUND, s) ∨
  ∃ f' st', grown s f sz f' ∧
    expand_file_size i sz s =
      (0, Fs (partition_num_blocks s) (fd_bitmap s) (file_array s)
             (<[i := f']> (file_list s))
             (poke (dir_data s) (dir_data_off f) (encode_record f'))
             (dir_data_ptr s) st') ∧
    (∀ b, 2 ≤ b → in_extent f' b → ¬ in_extent f b → st' !! b = Some zero_buf) ∧
    (∀ b, 2 ≤ b → in_extent f b ∨ ¬ in_extent f' b → st' !! b = storage s !! b).
Proof.
  intros (Hfd & Hext & Hdir) Hf Hsz Hlt.
  pose proof (file_ok_lookup s i f Hext Hf) as Hok.
  pose proof (file_ok_size _ _ Hok) as Hfs.
  destruct (record_fits s i f Hdir Hf) as (Hn & Ho & Hfit).
  assert (Hlen : length (dir_data s) = 1024%nat) by (by destruct Hdir).
  pose proof (max_end_ge (file_list s)) as Hmax2.
  pose proof (max_end_lookup _ _ _ Hf) as Hmaxf.
  assert (HN : is_u32 (partition_num_blocks s)) by (by destruct Hext).
  unfold is_u32 in Hsz, HN.
  unfold expand_file_size. rewrite Hf.
  destruct (decide (size f >= sz)) as [?|_]; [lia|].
  pose proof (Z.mod_pos_bound (size f) 512 ltac:(lia)) as Hm.
  rewrite (u32_small (STORAGE_BLOCK_SIZE - _))
    by (unfold is_u32, STORAGE_BLOCK_SIZE; lia).
  destruct (decide (size f = 0)) as [Hz|Hnz].
  - (* empty file *)
    rewrite (bool_decide_eq_true_2 (size f = 0)) by done.
    rewrite Hz. change (0 mod STORAGE_BLOCK_SIZE) with 0.
    rewrite (bool_decide_eq_false_2 (STORAGE_BLOCK_SIZE - 0 ≠ STORAGE_BLOCK_SIZE)) by lia.
    cbn [andb].
    destruct (blocks_for_bounds sz ltac:(lia)) as (Hb1 & Hb2).
    assert (Enb : (if decide (sz mod STORAGE_BLOCK_SIZE ≠ 0)
                   then u32 (sz / STORAGE_BLOCK_SIZE + 1) else sz / STORAGE_BLOCK_SIZE)
                  = blocks_for sz).
    { unfold blocks_for in *. unfold MAX_NEEDED_BLOCKS in *.
      destruct (decide _); [|lia]. rewrite u32_small; [done|]. unfold is_u32. lia. }
    rewrite Enb, (expand_empty_file_eq s i f) by done. cbv zeta.
    destruct (decide (max_end (file_list s) + blocks_for sz >= partition_num_blocks s)).
    + left. done.
    + right. cbv iota beta. rewrite decide_True by done.
      set (f1 := set_extent f (max_end (file_list s)) (blocks_for sz)).
      set (s1 := set_storage _ _).
      rewrite (expand_commit s1 i f1) by
        (first [ by (subst s1; simpl; apply list_lookup_insert_eq; eapply lookup_lt_Some)
               | done | simpl; lia ]).
      eexists (set_size f1 sz), _. split_and!.
      * unfold grown. simpl. split_and!; try done. right. left. split_and!; try done; lia.
      * subst s1 f1. simpl. by rewrite list_insert_insert_eq.
      * intros b Hb Hin _. rewrite write_blocks_dir_frame by lia.
        subst s1 f1. unfold in_extent in Hin. cbn in Hin. cbn [storage set_storage].
        unfold DIR_DATA_NUM_BLOCKS in *.
        rewrite zero_blocks_lookup by lia. rewrite decide_True by lia. done.
      * intros b Hb Hin. rewrite write_blocks_dir_frame by lia.
        subst s1 f1. unfold in_extent in Hin. cbn in Hin. cbn [storage set_storage].
        unfold DIR_DATA_NUM_BLOCKS, extent_end in *.
        rewrite zero_blocks_lookup by lia. rewrite decide_False; [done|].
        destruct Hin as [Hin|Hin]; lia.
  - (* file with blocks *)
    rewrite (bool_decide_eq_false_2 (size f = 0)) by done.
    rewrite (u32_small (sz - size f)) by (unfold is_u32; lia).
    destruct (decide (STORAGE_BLOCK_SIZE - size f mod STORAGE_BLOCK_SIZE ≠ STORAGE_BLOCK_SIZE
                      ∧ STORAGE_BLOCK_SIZE - size f mod STORAGE_BLOCK_SIZE >= sz - size f))
      as [[Hl1 Hl2]|Hnl].
    + (* room in the last block *)
      rewrite !bool_decide_eq_true_2 by done. cbn [andb]. cbv iota beta.
      rewrite decide_True by done.
      rewrite (expand_commit s i f) by (first [done|lia]).
      right. eexists (set_size f sz), _. split_and!; [|done| |].
      * unfold grown. simpl. split_and!; try done. left.
        unfold STORAGE_BLOCK_SIZE in *. split_and!; try done; lia.
      * intros b Hb Hin Hnin. exfalso. apply Hnin. exact Hin.
      * intros b Hb _. by rewrite write_blocks_dir_frame by lia.
    + assert (Ecase : bool_decide (STORAGE_BLOCK_SIZE - size f mod STORAGE_BLOCK_SIZE
                                   ≠ STORAGE_BLOCK_SIZE)
                      && bool_decide (STORAGE_BLOCK_SIZE - size f mod STORAGE_BLOCK_SIZE
                                      >= sz - size f) = false).
      { apply andb_false_iff.
        destruct (decide (STORAGE_BLOCK_SIZE - size f mod STORAGE_BLOCK_SIZE
                          ≠ STORAGE_BLOCK_SIZE)).
        - right. apply bool_decide_eq_false_2. tauto.
        - left. by apply bool_decide_eq_false_2. }
      rewrite Ecase.
      destruct (blocks_for_bounds (sz - size f) ltac:(lia)) as (Hb1 & Hb2).
      assert (Enb : (if decide ((sz - size f) mod STORAGE_BLOCK_SIZE ≠ 0)
                     then u32 ((sz - size f) / STORAGE_BLOCK_SIZE + 1)
                     else (sz - size f) / STORAGE_BLOCK_SIZE)
                    = blocks_for (sz - size f)).
      { unfold blocks_for in *. unfold MAX_NEEDED_BLOCKS in *.
        destruct (decide _); [|lia]. rewrite u32_small; [done|]. unfold is_u32. lia. }
      assert (Hnum : 0 < num_blocks f).
      { destruct Hok as [(_ & _ & ?)|H]; [lia|]. lia. }
      destruct (file_ok_end _ _ Hok Hnum) as (Hs2 & _ & _).
      rewrite Enb, (expand_existing_file_eq s i f) by done. cbv zeta.
      destruct (tail_free _ _ _) eqn:Htf; [|by left].
      destruct (decide (extent_end f + blocks_for (sz - size f) >= partition_num_blocks s)).
      * left. done.
      * right. cbv iota beta. rewrite decide_True by done.
        set (f1 := set_extent f (start_block f)
                     (num_blocks f + blocks_for (sz - size f))).
        set (s1 := set_storage _ _).
        rewrite (expand_commit s1 i f1) by
          (first [ by (subst s1; simpl; apply list_lookup_insert_eq; eapply lookup_lt_Some)
               | done | simpl; lia ]).
        eexists (set_size f1 sz), _. split_and!.
        -- unfold grown. simpl. split_and!; try done. right. right.
           unfold STORAGE_BLOCK_SIZE in *. split_and!; try done; try lia.
        -- subst s1 f1. simpl. by rewrite list_insert_insert_eq.
        -- intros b Hb Hin Hnin. rewrite write_blocks_dir_frame by lia.
           subst s1 f1. unfold in_extent in Hin, Hnin. cbn in Hin.
           cbn [storage set_storage].
           unfold DIR_DATA_NUM_BLOCKS, extent_end in *.
           rewrite zero_blocks_lookup by lia. rewrite decide_True by lia. done.
        -- intros b Hb Hin. rewrite write_blocks_dir_frame by lia.
           subst s1 f1. unfold in_extent in Hin. cbn in Hin. cbn [storage set_storage].
           unfold DIR_DATA_NUM_BLOCKS, extent_end in *.
           rewrite zero_blocks_lookup by lia. rewrite decide_False; [done|].
           destruct Hin as [Hin|Hin]; lia.
Qed.

Lemma install_fd_list (i : nat) (s : fs) :
  storage (snd (install_fd i s)) = storage s ∧
  (file_list (snd (install_fd i s)) = file_list s ∨
   ∃ f, file_list s !! i = Some f ∧
     file_list (snd (install_fd i s)) = <[i := set_opened f true]> (file_list s)).
Proof.
  destruct (install_fd_shape i s) as [->|(bm' & fd & Hs & [->|(-> & _)])];
    [by split; [|left]|by split; [|left]|].
  cbn [snd]. unfold update_file. fs_simpl.
  destruct (file_list s !! i) as [f|] eqn:Hf; fs_simpl; [|by split; [|left]].
  split; [done|]. right. by exists f.
Qed.

(** What open does to the file list and to the data area of the
    device: the list is unchanged, or one record is marked open, or one
    record without blocks is appended; no data block changes. *)
Lemma open_list (uo : Z) (ub : bool) (name : list Z) (mode : Z) (s : fs) :
  (∀ b, 2 ≤ b →
     storage (snd (file_system_open_file uo ub name mode s)) !! b = storage s !! b) ∧
  (file_list (snd (file_system_open_file uo ub name mode s)) = file_list s ∨
   (∃ i f, file_list s !! i = Some f ∧
      file_list (snd (file_system_open_file uo ub name mode s))
      = <[i := set_opened f true]> (file_list s)) ∨
   (∃ o, file_list (snd (file_system_open_file uo ub name mode s))
      = file_list s ++ [File name 0 0 0 (dir_data_ptr s) o])).
Proof.
  unfold file_system_open_file.
  destruct (decide _); [by split; [|left]|].
  destruct (find_file name (file_list s) 0 None) as [[i|]|]; [| |by split; [|left]].
  - destruct (install_fd_list i s) as [-> [->|(f & Hf & ->)]]; [by split; [|left]|].
    split; [done|]. right. left. by exists i, f.
  - destruct (decide _); [|by split; [|left]].
    set (f0 := File name 0 0 0 uo ub).
    assert (Hadd : ∃ r s', add_file_to_directory f0 s = (r, set_dir_data_off f0 (dir_data_ptr s), s') ∧
              file_list s' = file_list s ∧
              (∀ b, 2 ≤ b → storage s' !! b = storage s !! b)).
    { unfold add_file_to_directory.
      destruct (update_file_in_directory (set_dir_data_off f0 (dir_data_ptr s)) s)
        as [r s0] eqn:Hupd.
      assert (Hs0 : file_list s0 = file_list s ∧ storage s0 = storage s).
      { unfold update_file_in_directory in Hupd.
        repeat (destruct (decide _) in Hupd); by injection Hupd as <- <-. }
      destruct Hs0 as [Hl0 Hst0].
      destruct (decide (r ≠ 0)).
      - eexists _, _. split; [reflexivity|]. split; [done|]. intros b _. by rewrite Hst0.
      - eexists _, _. split; [reflexivity|]. split; [done|].
        intros b Hb. rewrite flush_frame by lia. fs_simpl. by rewrite Hst0. }
    destruct Hadd as (r & s' & -> & Hl & Hst).
    destruct (decide _); [split; [done|by left]|].
    set (s2 := add_file_to_list _ s').
    destruct (install_fd_list (length (file_list s')) s2) as [-> [->|(f & Hf & ->)]].
    + split; [done|]. right. right. exists ub. subst s2. unfold add_file_to_list. fs_simpl.
      by rewrite Hl.
    + split; [done|]. right. right. exists true.
      subst s2. unfold add_file_to_list in *. revert Hf. fs_simpl. intros Hf.
      rewrite list_lookup_middle in Hf by done. injection Hf as <-.
      rewrite Hl.
      replace (length (file_list s)) with (length (file_list s) + 0)%nat at 1 by lia.
      rewrite insert_app_r. done.
Qed.

Lemma close_list (fd : Z) (s : fs) :
  storage (snd (file_system_close_file fd s)) = storage s ∧
  (file_list (snd (file_system_close_file fd s)) = file_list s ∨
   ∃ i f, file_list s !! i = Some f ∧
     file_list (snd (file_system_close_file fd s))
     = <[i := set_opened f false]> (file_list s)).
Proof.
  unfold file_system_close_file.
  destruct (decide _); [by split; [|left]|].
  destruct (file_array s !! Z.to_nat fd) as [[i|]|]; [|by split; [|left]..].
  destruct (file_list s !! i) as [f|] eqn:Hf; [|by split; [|left]].
  destruct (negb (opened f)); [by split; [|left]|].
  cbn [snd].
  destruct (mark_fd_as_unused_frame fd
              (set_file_array (update_file s i (λ f, set_opened f false))
                 (<[Z.to_nat fd := None]>
                    (file_array (update_file s i (λ f, set_opened f false))))))
    as (-> & _ & ->).
  rewrite (update_file_list _ _ _ f) by done. fs_simpl.
  split; [done|]. right. by exists i, f.
Qed.

Lemma read_list (fd sz offset : Z) (s : fs) :
  file_list (snd (file_system_read_from_file fd sz offset s)) = file_list s ∧
  file_array (snd (file_system_read_from_file fd sz offset s)) = file_array s ∧
  dir_data (snd (file_system_read_from_file fd sz offset s)) = dir_data s ∧
  dir_data_ptr (snd (file_system_read_from_file fd sz offset s)) = dir_data_ptr s ∧
  ∀ b blk, storage s !! b = Some blk →
    storage (snd (file_system_read_from_file fd sz offset s)) !! b = Some blk.
Proof.
  unfold file_system_read_from_file.
  destruct (decide _); [done|].
  destruct (file_array s !! Z.to_nat fd) as [[i|]|]; [|done|done].
  destruct (file_list s !! i) as [f|]; [|done].
  destruct (negb (opened f)); [done|].
  destruct (decide _); [done|].
  set (cnt := if decide (size f < u32 (offset + sz)) then _ else sz).
  set (next := if decide (_ > cnt) then cnt else _).
  pose proof (λ b blk, read_loop_keeps (loop_fuel cnt) [] (start_block f) cnt 0
                (offset / STORAGE_BLOCK_SIZE) (offset mod STORAGE_BLOCK_SIZE) next
                (storage s) b blk) as Hk.
  destruct (read_loop _ _ _ _ _ _ _ _ _) as [[out r] st]. cbn [snd] in *.
  split_and!; done.
Qed.

Lemma retag_lookup (l : list file) (i : nat) (f : file) (o : bool) (j : nat) (g' : file) :
  l !! i = Some f → <[i := set_opened f o]> l !! j = Some g' →
  ∃ g, l !! j = Some g ∧ start_block g = start_block g' ∧
    num_blocks g = num_blocks g' ∧ size g = size g' ∧ filename g = filename g'.
Proof.
  intros Hf Hg. apply list_lookup_insert_Some in Hg as [(-> & <- & _)|(_ & Hg)].
  - by exists f.
  - by exists g'.
Qed.

Lemma blocks_inv_frame (s s' : fs) :
  ext_inv s → blocks_inv s →
  (∀ b, 2 ≤ b → full_block (storage s) b → full_block (storage s') b) →
  (∀ j g', file_list s' !! j = Some g' → 0 < num_blocks g' →
     ∃ j0 g, file_list s !! j0 = Some g ∧ start_block g = start_block g' ∧
       num_blocks g = num_blocks g') →
  blocks_inv s'.
Proof.
  intros Hext Hblk Hst Hl j g' k Hg' Hk.
  destruct (Hl j g' Hg' ltac:(lia)) as (j0 & g & Hg & Hs & Hn).
  pose proof (file_ok_lookup s j0 g Hext Hg) as Hok.
  destruct (file_ok_end _ _ Hok ltac:(lia)) as (H2 & _).
  unfold DIR_DATA_NUM_BLOCKS in H2.
  apply Hst; [lia|]. rewrite <- Hs. apply (Hblk j0 g k Hg). lia.
Qed.

Lemma blocks_inv_open (uo : Z) (ub : bool) (name : list Z) (mode : Z) (s : fs) :
  ext_inv s → blocks_inv s →
  blocks_inv (snd (file_system_open_file uo ub name mode s)).
Proof.
  intros Hext Hblk. destruct (open_list uo ub name mode s) as [Hst Hl].
  apply (blocks_inv_frame s); [done|done| |].
  - intros b Hb. unfold full_block. by rewrite Hst.
  - intros j g' Hg' Hn. destruct Hl as [Hl|[(i & f & Hf & Hl)|(o & Hl)]]; rewrite Hl in Hg'.
    + by exists j, g'.
    + destruct (retag_lookup _ _ _ _ _ _ Hf Hg') as (g & Hg & ? & ? & _). by exists j, g.
    + apply lookup_app_Some in Hg' as [Hg'|[_ Hg']]; [by exists j, g'|].
      apply list_lookup_singleton_Some in Hg' as [_ <-]. cbn in Hn. lia.
Qed.

Lemma blocks_inv_close (fd : Z) (s : fs) :
  ext_inv s → blocks_inv s → blocks_inv (snd (file_system_close_file fd s)).
Proof.
  intros Hext Hblk. destruct (close_list fd s) as [Hst Hl].
  apply (blocks_inv_frame s); [done|done| |].
  - intros b Hb. by rewrite Hst.
  - intros j g' Hg' Hn. destruct Hl as [Hl|(i & f & Hf & Hl)]; rewrite Hl in Hg'.
    + by exists j, g'.
    + destruct (retag_lookup _ _ _ _ _ _ Hf Hg') as (g & Hg & ? & ? & _). by exists j, g.
Qed.

Lemma blocks_inv_read (fd sz offset : Z) (s : fs) :
  ext_inv s → blocks_inv s → blocks_inv (snd (file_system_read_from_file fd sz offset s)).
Proof.
  intros Hext Hblk. destruct (read_list fd sz offset s) as (Hl & _ & _ & _ & Hst).
  apply (blocks_inv_frame s); [done|done| |].
  - intros b Hb (blk & Hb' & Hlen). exists blk. split; [by apply Hst|done].
  - intros j g' Hg' Hn. rewrite Hl in Hg'. by exists j, g'.
Qed.

Lemma blocks_inv_shutdown (s : fs) :
  ext_inv s → blocks_inv s → blocks_inv (close_file_system s).
Proof.
  intros Hext Hblk. apply (blocks_inv_frame s); [done|done| |].
  - intros b Hb. unfold close_file_system, full_block. by rewrite flush_frame by lia.
  - intros j g' Hg' Hn. by exists j, g'.
Qed.

Lemma blocks_inv_restart (s : fs) :
  fs_inv s → blocks_inv s → blocks_inv (restart s).
Proof.
  intros Hinv Hblk. pose proof Hinv as (_ & Hext & _).
  apply (blocks_inv_frame s); [done|done| |].
  - intros b Hb. rewrite restart_eq by done. cbn [storage].
    unfold close_file_system, full_block. by rewrite flush_frame by lia.
  - intros j g' Hg' Hn. rewrite restart_eq in Hg' by done. cbn [file_list] in Hg'.
    destruct (closed_list_lookup _ _ _ Hg') as (g & Hg & ->). by exists j, g.
Qed.

(** The state after the expansion step of a write: the records other
    than [i] are as before, record [i] is the grown one, and all blocks
    of all extents are full blocks. *)
Lemma blocks_inv_expand (s : fs) (i : nat) (sz : Z) :
  fs_inv s → blocks_inv s → is_u32 sz →
  blocks_inv (snd (expand_file_size i sz s)).
Proof.
  intros Hinv Hblk Hsz.
  destruct (file_list s !! i) as [f|] eqn:Hf;
    [|by unfold expand_file_size; rewrite Hf].
  destruct (decide (size f < sz)) as [Hlt|Hge];
    [|by unfold expand_file_size; rewrite Hf, decide_True by lia].
  pose proof Hinv as (_ & Hext & _).
  destruct (expand_file_size_blocks s i f sz Hinv Hf Hsz Hlt)
    as [->|(f' & st' & Hg & -> & Hnew & Hold)]; [done|].
  pose proof (grown_file_ok s i f f' sz Hext Hf Hsz Hlt Hg) as Hok'.
  pose proof (grown_disjoint s i f f' sz Hext Hf Hsz Hlt Hg) as Hdis.
  assert (Hi : (i < length (file_list s))%nat) by (by eapply lookup_lt_Some).
  assert (Hkeep : ∀ k, 0 ≤ k < num_blocks f →
            start_block f' = start_block f ∧ num_blocks f ≤ num_blocks f').
  { intros k Hk. pose proof (file_ok_lookup s i f Hext Hf) as Hok.
    destruct Hg as (_ & _ & _ & _ & [H|[H|H]]).
    - lia.
    - destruct Hok as [?|?]; lia.
    - pose proof (blocks_for_bounds (sz - size f)).
      unfold is_u32 in Hsz. pose proof (file_ok_size _ _ Hok). lia. }
  intros j g' k Hg' Hk. cbn [snd file_list storage] in *.
  apply list_lookup_insert_Some in Hg' as [(<- & <- & _)|(Hne & Hg')].
  - destruct (file_ok_end _ _ Hok' ltac:(lia)) as (H2 & _).
    unfold DIR_DATA_NUM_BLOCKS in H2.
    destruct (decide (in_extent f (start_block f' + k))) as [Hin|Hnin].
    + unfold full_block. rewrite Hold by (try lia; by left).
      unfold in_extent in Hin.
      destruct (Hkeep (start_block f' + k - start_block f) ltac:(lia)) as [Es _].
      rewrite Es. apply (Hblk i f k Hf). lia.
    + exists zero_buf. split; [|done]. apply Hnew; [lia| |done]. unfold in_extent. lia.
  - pose proof (file_ok_lookup s j g' Hext Hg') as Hokg.
    destruct (file_ok_end _ _ Hokg ltac:(lia)) as (H2 & _).
    unfold DIR_DATA_NUM_BLOCKS in H2.
    unfold full_block. rewrite Hold; [by apply (Hblk j g' k)|lia|].
    right. intros Hin. unfold in_extent in Hin.
    assert (Hf' : <[i := f']> (file_list s) !! i = Some f')
      by (by apply list_lookup_insert_eq).
    assert (Hg2 : <[i := f']> (file_list s) !! j = Some g')
      by (by rewrite list_lookup_insert_ne).
    destruct (Hdis i j f' g' Hne Hf' Hg2 ltac:(lia) ltac:(lia)) as [H|H];
      unfold extent_end in H; lia.
Qed.

Lemma blocks_inv_write (fd : Z) (data : list Z) (sz offset : Z) (s : fs) :
  fs_inv s → blocks_inv s → is_u32 sz →
  blocks_inv (snd (file_system_write_to_file fd data sz offset s)).
Proof.
  intros Hinv Hblk Hsz. unfold file_system_write_to_file.
  destruct (decide _); [done|].
  destruct (file_array s !! Z.to_nat fd) as [[i|]|]; [|done|done].
  destruct (file_list s !! i) as [f|] eqn:Hf; [|done].
  destruct (negb (opened f)); [done|].
  destruct (_ && _); [done|].
  set (s1 := if decide (size f < u32 (offset + sz)) then _ else s).
  assert (H1 : blocks_inv s1).
  { subst s1. destruct (decide _); [|done].
    apply blocks_inv_expand; [done|done|apply is_u32_u32]. }
  clearbody s1.
  destruct (file_list s1 !! i) as [f1|]; [|done].
  destruct (decide _); [done|].
  set (cnt := if decide (size f1 < u32 (offset + sz)) then _ else sz).
  assert (Hn : 0 ≤ cnt).
  { subst cnt. destruct (decide _).
    - pose proof (is_u32_u32 (size f1 - offset)) as H. unfold is_u32 in H. lia.
    - unfold is_u32 in Hsz. lia. }
  set (bo := offset mod STORAGE_BLOCK_SIZE).
  assert (Hbo : 0 ≤ bo < 512) by (subst bo; apply Z.mod_pos_bound; done).
  clearbody cnt bo.
  rewrite (u32_small (STORAGE_BLOCK_SIZE - bo)) by (unfold is_u32, STORAGE_BLOCK_SIZE; lia).
  set (next := if decide (_ > cnt) then cnt else _).
  assert (Hnext : 0 ≤ next ∧ bo + next ≤ 512)
    by (subst next; unfold STORAGE_BLOCK_SIZE; destruct (decide _); lia).
  clearbody next.
  pose proof (λ b, write_loop_keeps_full (loop_fuel cnt) data (start_block f1) cnt 0
                (offset / STORAGE_BLOCK_SIZE) bo next (storage s1) b
                ltac:(lia) ltac:(lia) ltac:(lia)) as Hk.
  destruct (write_loop _ _ _ _ _ _ _ _ _) as [w st]. cbn [snd] in *.
  intros j g k Hg Hkr. fs_simpl. apply Hk. by apply (H1 j g k).
Qed.

Lemma blocks_inv_exec (c : call) (s : fs) :
  fs_inv s → blocks_inv s → call_ok c → blocks_inv (exec c s).
Proof.
  intros Hinv Hblk Hok. pose proof Hinv as (_ & Hext & _).
  destruct c; cbn [exec].
  - by apply blocks_inv_open.
  - destruct Hok as (_ & Hsz & _). by apply blocks_inv_write.
  - by apply blocks_inv_read.
  - by apply blocks_inv_close.
  - by apply blocks_inv_shutdown.
  - by apply blocks_inv_restart.
Qed.

Lemma reachable_blocks (s : fs) : reachable s → blocks_inv s.
Proof.
  induction 1 as [N st HN Hst|c s Hr IH Hok].
  - destruct (initialize_unformatted N st Hst) as (d & st' & -> & _).
    intros i f k Hf. done.
  - apply blocks_inv_exec; [by apply reachable_inv|done|done].
Qed.

(** X15: In every reachable state, each block of each file's extent is on the
    device as a full block of STORAGE_BLOCK_SIZE bytes. *)
Theorem extent_blocks_on_device (s : fs) (i : nat) (f : file) (k : Z) :
  reachable s → file_list s !! i = Some f → 0 ≤ k < num_blocks f →
  ∃ blk, storage s !! (start_block f + k) = Some blk ∧
    Z.of_nat (length blk) = STORAGE_BLOCK_SIZE.
Proof.
  intros Hr Hf Hk. destruct (reachable_blocks s Hr i f k Hf Hk) as (blk & Hb & Hl).
  exists blk. split; [done|]. unfold STORAGE_BLOCK_SIZE. lia.
Qed.

Lemma extent_blocks_on_device_witness :
  ∃ blk, storage two_files !! (start_block (File name_b 3 1 1 22 true) + 0) = Some blk ∧
    Z.of_nat (length blk) = STORAGE_BLOCK_SIZE.
Proof.
  apply (extent_blocks_on_device two_files 1 (File name_b 3 1 1 22 true) 0
           two_files_reachable).
  - vm_compute. reflexivity.
  - cbn [num_blocks]. lia.
Defined.

(** ** Reading and writing a file, at any offset *)

Lemma length_file_bytes (s : fs) (f : file) :
  length (file_bytes s f) = Z.to_nat (size f).
Proof. unfold file_bytes. by rewrite length_map, length_seqZ. Qed.

Lemma map_seqZ_ext (g1 g2 : Z → Z) (m n : Z) :
  (∀ q, m ≤ q < m + n → g1 q = g2 q) → map g1 (seqZ m n) = map g2 (seqZ m n).
Proof.
  intros H. apply list_eq. intros j.
  change (map g1 (seqZ m n)) with (g1 <$> seqZ m n).
  change (map g2 (seqZ m n)) with (g2 <$> seqZ m n).
  rewrite !list_lookup_fmap.
  destruct (decide (Z.of_nat j < n)).
  - rewrite lookup_seqZ_lt by done. cbn. f_equal. apply H. lia.
  - by rewrite lookup_seqZ_ge by lia.
Qed.

Lemma peek_map_seqZ (g : Z → Z) (S off n : Z) :
  0 ≤ off → 0 ≤ n →
  peek (map g (seqZ 0 S)) off n = map g (seqZ off (Z.min n (Z.max 0 (S - off)))).
Proof.
  intros Hoff Hn. apply list_eq. intros j. unfold peek.
  change (map g ?l) with (g <$> l). rewrite list_lookup_fmap.
  destruct (decide (j < Z.to_nat n)%nat) as [Hlt|Hge].
  - rewrite lookup_take_lt by done. rewrite lookup_drop, list_lookup_fmap.
    destruct (decide (Z.of_nat (Z.to_nat off + j) < S)).
    + rewrite !lookup_seqZ_lt by lia. cbn. do 2 f_equal. lia.
    + by rewrite !lookup_seqZ_ge by lia.
  - rewrite lookup_take_ge by lia. by rewrite lookup_seqZ_ge by lia.
Qed.

Lemma bytes_after_write (G E : Z → Z) (data : list Z) (S off w : Z) :
  0 ≤ off ≤ S → 0 ≤ w ≤ Z.of_nat (length data) →
  (∀ q, 0 ≤ q < Z.max S (off + w) →
     G q = if decide (off ≤ q < off + w) then data_byte data (q - off) else E q) →
  map G (seqZ 0 (Z.max S (off + w)))
  = take (Z.to_nat off) (map E (seqZ 0 S)) ++ take (Z.to_nat w) data
    ++ drop (Z.to_nat (off + w)) (map E (seqZ 0 S)).
Proof.
  intros Hoff Hw HG. apply list_eq. intros j.
  change (map G ?l) with (G <$> l). change (map E ?l) with (E <$> l).
  assert (Hl1 : length (take (Z.to_nat off) (E <$> seqZ 0 S)) = Z.to_nat off)
    by (rewrite length_take, length_fmap, length_seqZ; lia).
  assert (Hl2 : length (take (Z.to_nat w) data) = Z.to_nat w)
    by (rewrite length_take; lia).
  rewrite list_lookup_fmap.
  destruct (decide (Z.of_nat j < off)) as [H1|H1].
  - rewrite lookup_app_l by lia. rewrite lookup_take_lt by lia.
    rewrite list_lookup_fmap, !lookup_seqZ_lt by lia. cbn. f_equal.
    rewrite HG by lia. by rewrite decide_False by lia.
  - rewrite lookup_app_r by lia. rewrite Hl1.
    destruct (decide (Z.of_nat j < off + w)) as [H2|H2].
    + rewrite lookup_app_l by lia. rewrite lookup_take_lt by lia.
      rewrite lookup_seqZ_lt by lia. cbn. rewrite HG by lia.
      rewrite decide_True by lia. unfold data_byte.
      replace (Z.to_nat (0 + Z.of_nat j - off)) with (j - Z.to_nat off)%nat by lia.
      destruct (lookup_lt_is_Some_2 data (j - Z.to_nat off)) as [x Hx]; [lia|].
      by rewrite Hx.
    + rewrite lookup_app_r by lia. rewrite Hl2, lookup_drop, list_lookup_fmap.
      destruct (decide (Z.of_nat j < S)) as [H3|H3].
      * rewrite !lookup_seqZ_lt by lia. cbn. f_equal.
        rewrite HG by lia. rewrite decide_False by lia. f_equal. lia.
      * by rewrite !lookup_seqZ_ge by lia.
Qed.

Lemma loop_fuel_enough (n bo : Z) :
  0 ≤ n → 0 ≤ bo < 512 → bo + (n - 0) ≤ 512 * Z.of_nat (loop_fuel n).
Proof.
  intros Hn Hbo. unfold loop_fuel, STORAGE_BLOCK_SIZE.
  pose proof (Z.div_mod n 512 ltac:(lia)). pose proof (Z.mod_pos_bound n 512 ltac:(lia)).
  assert (0 ≤ n / 512) by (apply Z.div_pos; lia). lia.
Qed.

(** The blocks a transfer of [n] bytes from [offset] goes through all
    belong to the extent. *)
Lemma transfer_blocks (s : fs) (i : nat) (f : file) (offset n : Z) :
  ext_inv s → blocks_inv s → file_list s !! i = Some f →
  0 ≤ offset → 0 ≤ n → offset + n ≤ size f →
  ∀ k, offset / 512 ≤ k → 512 * k < 512 * (offset / 512) + offset mod 512 + (n - 0) →
    0 ≤ k < num_blocks f ∧
    is_u32 (start_block f + k) ∧ full_block (storage s) (start_block f + k).
Proof.
  intros Hext Hblk Hf Hoff Hn Hfit k Hk Hkw.
  pose proof (file_ok_lookup s i f Hext Hf) as Hok.
  pose proof (Z.div_mod offset 512 ltac:(lia)) as Hdm.
  pose proof (Z.mod_pos_bound offset 512 ltac:(lia)) as Hm.
  assert (H0 : 0 ≤ offset / 512) by (apply Z.div_pos; lia).
  destruct Hext as (HN & _). unfold is_u32 in *.
  destruct Hok as [(_ & _ & ?)|(Hs2 & Hnb & HeN & _ & Hcap & _)]; [lia|].
  unfold extent_end, STORAGE_BLOCK_SIZE, DIR_DATA_NUM_BLOCKS in *.
  assert (Hkn : 0 ≤ k < num_blocks f) by lia.
  split; [done|]. split; [lia|]. by apply (Hblk i f k).
Qed.

(** Reading through an open descriptor returns the bytes of the file's
    contents from [offset] on, at most [sz] of them and none beyond the
    end of the file, and leaves the state as it is. *)
Lemma read_at (fd sz offset : Z) (s : fs) (i : nat) (f : file) :
  fs_inv s → blocks_inv s → fd ≠ 0 → fd < MAX_NUM_FD →
  file_array s !! Z.to_nat fd = Some (Some i) →
  file_list s !! i = Some f → opened f = true →
  is_u32 sz → is_u32 offset → offset + sz < 4294967296 →
  file_system_read_from_file fd sz offset s
  = (peek (file_bytes s f) offset sz, Z.min sz (Z.max 0 (size f - offset)), s).
Proof.
  intros Hinv Hblk Hfd0 Hfd Hslot Hf Ho Hsz Hoff Hsum.
  pose proof Hinv as (_ & Hext & _).
  pose proof (file_ok_size _ _ (file_ok_lookup s i f Hext Hf)) as Hfs.
  unfold is_u32 in Hsz, Hoff.
  unfold file_system_read_from_file.
  rewrite decide_False by lia. rewrite Hslot, Hf, Ho. cbn [negb].
  unfold file_bytes. rewrite peek_map_seqZ by lia.
  destruct (decide (offset >= size f)) as [Hge|Hlt].
  - replace (Z.min sz (Z.max 0 (size f - offset))) with 0 by lia. done.
  - rewrite (u32_small (offset + sz)), (u32_small (size f - offset))
      by (unfold is_u32; lia).
    set (cnt := if decide (size f < offset + sz) then size f - offset else sz).
    assert (Hcnt : cnt = Z.min sz (Z.max 0 (size f - offset)))
      by (subst cnt; destruct (decide _); lia).
    clearbody cnt. rewrite <- Hcnt.
    pose proof (Z.div_mod offset 512 ltac:(lia)) as Hdm.
    pose proof (Z.mod_pos_bound offset 512 ltac:(lia)) as Hm.
    assert (H0 : 0 ≤ offset / 512) by (apply Z.div_pos; lia).
    change STORAGE_BLOCK_SIZE with 512.
    rewrite (u32_small (512 - offset mod 512)) by (unfold is_u32; lia).
    replace (if decide (512 - offset mod 512 > cnt) then cnt else 512 - offset mod 512)
      with (Z.min (512 - offset mod 512) (cnt - 0)) by (destruct (decide _); lia).
    rewrite read_loop_spec; try (unfold is_u32; lia).
    + rewrite Z.sub_0_r, <- Hdm. cbn [app]. by destruct s.
    + intros k Hk Hkw.
      destruct (transfer_blocks s i f offset cnt Hext Hblk Hf) with (k := k)
        as (_ & ? & ?); try done; lia.
    + apply loop_fuel_enough; lia.
Qed.

(** The state a write transfers into: the record has been grown to the
    target size, or was large enough, or could not be grown. *)
Lemma write_prepare (s : fs) (i : nat) (f : file) (target : Z) :
  fs_inv s → blocks_inv s → file_list s !! i = Some f → is_u32 target →
  ∃ f1,
    fs_inv (if decide (size f < target) then snd (expand_file_size i target s) else s) ∧
    blocks_inv (if decide (size f < target) then snd (expand_file_size i target s) else s) ∧
    (if decide (size f < target) then snd (expand_file_size i target s) else s)
    = Fs (partition_num_blocks s) (fd_bitmap s) (file_array s) (<[i := f1]> (file_list s))
         (dir_data (if decide (size f < target)
                    then snd (expand_file_size i target s) else s))
         (dir_data_ptr s)
         (storage (if decide (size f < target)
                   then snd (expand_file_size i target s) else s)) ∧
    filename f1 = filename f ∧ opened f1 = opened f ∧ dir_data_off f1 = dir_data_off f ∧
    (size f1 = Z.max (size f) target ∨
     (f1 = f ∧ size f < target ∧ expand_file_size i target s = (ERR_FOUND, s))) ∧
    (0 < num_blocks f → start_block f1 = start_block f ∧ num_blocks f ≤ num_blocks f1) ∧
    (∀ b, 2 ≤ b → in_extent f b ∨ ¬ in_extent f1 b →
       storage (if decide (size f < target) then snd (expand_file_size i target s) else s)
         !! b = storage s !! b).
Proof.
  intros Hinv Hblk Hf Ht.
  pose proof Hinv as (_ & Hext & _).
  pose proof (file_ok_lookup s i f Hext Hf) as Hok.
  pose proof (file_ok_size _ _ Hok) as Hfs.
  assert (Hsame : s = Fs (partition_num_blocks s) (fd_bitmap s) (file_array s)
                        (<[i := f]> (file_list s)) (dir_data s) (dir_data_ptr s) (storage s)).
  { rewrite list_insert_id by done. by destruct s. }
  destruct (decide (size f < target)) as [Hlt|Hge].
  - pose proof (expand_file_size_inv s i target Hinv Ht) as Hinv1.
    pose proof (blocks_inv_expand s i target Hinv Hblk Ht) as Hblk1.
    destruct (expand_file_size_blocks s i f target Hinv Hf Ht Hlt)
      as [E|(f' & st' & Hg & E & Hnew & Hold)]; rewrite E in *; cbn [snd] in *.
    + exists f. split_and!; try done. right. done.
    + exists f'. split_and!; try done.
      * by destruct Hg as (? & _).
      * by destruct Hg as (_ & _ & ? & _).
      * by destruct Hg as (_ & ? & _).
      * left. destruct Hg as (_ & _ & _ & ? & _). lia.
      * intros Hnum. destruct Hg as (_ & _ & _ & _ & [H|[H|H]]).
        -- lia.
        -- destruct Hok as [?|?]; lia.
        -- pose proof (blocks_for_bounds (target - size f)). unfold is_u32 in Ht. lia.
  - exists f. split_and!; try done. left. lia.
Qed.

Lemma write_transfer (s : fs) (i : nat) (f : file) (data : list Z) (offset n : Z) :
  ext_inv s → blocks_inv s → file_list s !! i = Some f →
  is_u32 offset → 0 ≤ n → offset + n ≤ size f → n ≤ Z.of_nat (length data) →
  ∃ st',
    write_loop (loop_fuel n) data (start_block f) n 0 (offset / STORAGE_BLOCK_SIZE)
      (offset mod STORAGE_BLOCK_SIZE)
      (if decide (u32 (STORAGE_BLOCK_SIZE - offset mod STORAGE_BLOCK_SIZE) > n)
       then n else u32 (STORAGE_BLOCK_SIZE - offset mod STORAGE_BLOCK_SIZE))
      (storage s) = (n, st') ∧
    (∀ b, ¬ in_extent f b → st' !! b = storage s !! b) ∧
    (∀ b, full_block (storage s) b → full_block st' b) ∧
    (∀ q, 0 ≤ q →
       extent_byte st' (start_block f) q =
         if decide (offset ≤ q < offset + n) then data_byte data (q - offset)
         else extent_byte (storage s) (start_block f) q).
Proof.
  intros Hext Hblk Hf Hoff Hn Hfit Hdata.
  pose proof (file_ok_size _ _ (file_ok_lookup s i f Hext Hf)) as Hfs.
  unfold is_u32 in Hoff.
  pose proof (Z.div_mod offset 512 ltac:(lia)) as Hdm.
  pose proof (Z.mod_pos_bound offset 512 ltac:(lia)) as Hm.
  assert (H0 : 0 ≤ offset / 512) by (apply Z.div_pos; lia).
  change STORAGE_BLOCK_SIZE with 512.
  rewrite (u32_small (512 - offset mod 512)) by (unfold is_u32; lia).
  replace (if decide (512 - offset mod 512 > n) then n else 512 - offset mod 512)
    with (Z.min (512 - offset mod 512) (n - 0)) by (destruct (decide _); lia).
  destruct (write_loop_spec (loop_fuel n) data (start_block f) n 0 (offset / 512)
              (offset mod 512) (storage s))
    as (st' & Hloop & Hframe & Hfull & Hbytes); try (unfold is_u32; lia).
  - intros k Hk Hkw.
    destruct (transfer_blocks s i f offset n Hext Hblk Hf) with (k := k)
      as (_ & ? & ?); try done; lia.
  - apply loop_fuel_enough; lia.
  - exists st'. split_and!; [done| |done|].
    + intros b Hb. apply Hframe. intros k Hk Hkw ->. apply Hb.
      destruct (transfer_blocks s i f offset n Hext Hblk Hf) with (k := k)
        as (? & _); try done; try lia. unfold in_extent. lia.
    + intros q Hq. rewrite Hbytes by done. rewrite <- Hdm, Z.sub_0_r.
      destruct (decide _); [|done]. f_equal.
Qed.

Lemma other_extent (s : fs) (i j : nat) (f g : file) (q : Z) :
  ext_inv s → file_list s !! i = Some f → file_list s !! j = Some g → i ≠ j →
  0 ≤ q < size g →
  2 ≤ start_block g + q / 512 ∧ in_extent g (start_block g + q / 512) ∧
  ¬ in_extent f (start_block g + q / 512).
Proof.
  intros Hext Hf Hg Hij Hq.
  pose proof (file_ok_lookup s i f Hext Hf) as Hokf.
  pose proof (file_ok_lookup s j g Hext Hg) as Hokg.
  destruct Hext as (_ & _ & Hdis & _).
  pose proof (Z.div_mod q 512 ltac:(lia)) as Hdm.
  pose proof (Z.mod_pos_bound q 512 ltac:(lia)) as Hm.
  assert (H0 : 0 ≤ q / 512) by (apply Z.div_pos; lia).
  destruct Hokg as [(_ & _ & ?)|(Hs2 & Hnb & _ & _ & Hcap & _)]; [lia|].
  unfold STORAGE_BLOCK_SIZE, DIR_DATA_NUM_BLOCKS, in_extent in *.
  split; [lia|]. split; [lia|]. intros Hin.
  destruct (Hdis i j f g Hij Hf Hg ltac:(lia) ltac:(lia)) as [H|H];
    unfold extent_end in H; lia.
Qed.

Lemma own_extent (s : fs) (i : nat) (f : file) (q : Z) :
  ext_inv s → file_list s !! i = Some f → 0 ≤ q < size f →
  0 < num_blocks f ∧ 2 ≤ start_block f + q / 512 ∧ in_extent f (start_block f + q / 512).
Proof.
  intros Hext Hf Hq.
  pose proof (file_ok_lookup s i f Hext Hf) as Hokf.
  pose proof (Z.div_mod q 512 ltac:(lia)) as Hdm.
  pose proof (Z.mod_pos_bound q 512 ltac:(lia)) as Hm.
  assert (H0 : 0 ≤ q / 512) by (apply Z.div_pos; lia).
  destruct Hokf as [(_ & _ & ?)|(Hs2 & Hnb & _ & _ & Hcap & _)]; [lia|].
  unfold STORAGE_BLOCK_SIZE, DIR_DATA_NUM_BLOCKS, in_extent in *. lia.
Qed.

(** Writing through an open descriptor at an offset inside the file or
    at its end: the bytes written replace the file's contents from
    [offset] on, the file grows to hold them, and the contents of every
    other file stay as they are.  Fewer bytes than asked are written only
    when the file could not be grown. *)
Lemma write_at (fd : Z) (data : list Z) (sz offset : Z) (s : fs) (i : nat) (f : file) :
  fs_inv s → blocks_inv s → fd ≠ 0 → fd < MAX_NUM_FD →
  file_array s !! Z.to_nat fd = Some (Some i) →
  file_list s !! i = Some f → opened f = true →
  is_u32 sz → is_u32 offset → offset + sz < 4294967296 →
  sz ≤ Z.of_nat (length data) → offset ≤ size f →
  ∃ f2 w s',
    file_system_write_to_file fd data sz offset s = (w, s') ∧
    0 ≤ w ≤ sz ∧
    file_list s' = <[i := f2]> (file_list s) ∧
    file_array s' = file_array s ∧
    filename f2 = filename f ∧ opened f2 = true ∧
    size f2 = Z.max (size f) (offset + w) ∧
    (w = sz ∨
     (expand_file_size i (offset + sz) s = (ERR_FOUND, s) ∧ w = size f - offset)) ∧
    file_bytes s' f2
    = take (Z.to_nat offset) (file_bytes s f) ++ take (Z.to_nat w) data
      ++ drop (Z.to_nat (offset + w)) (file_bytes s f) ∧
    (∀ j g, j ≠ i → file_list s !! j = Some g → file_bytes s' g = file_bytes s g).
Proof.
  intros Hinv Hblk Hfd0 Hfd Hslot Hf Ho Hsz Hoff Hsum Hdata Hle.
  pose proof Hinv as (_ & Hext & _).
  pose proof (file_ok_size _ _ (file_ok_lookup s i f Hext Hf)) as Hfs.
  assert (Hi : (i < length (file_list s))%nat) by (by eapply lookup_lt_Some).
  unfold file_system_write_to_file.
  rewrite decide_False by lia. rewrite Hslot, Hf, Ho. cbn [negb].
  rewrite (bool_decide_eq_false_2 (offset > size f)) by lia. rewrite andb_false_r.
  unfold is_u32 in Hsz, Hoff.
  rewrite (u32_small (offset + sz)) by (unfold is_u32; lia).
  destruct (write_prepare s i f (offset + sz) Hinv Hblk Hf ltac:(unfold is_u32; lia))
    as (f1 & Hinv1 & Hblk1 & Hs1 & Hn1 & Ho1 & _ & Hsize1 & Hkeep & Hst1).
  set (s1 := if decide (size f < offset + sz) then _ else s) in *.
  clearbody s1.
  assert (Hl1 : file_list s1 = <[i := f1]> (file_list s)) by (by rewrite Hs1).
  assert (Hfa1 : file_array s1 = file_array s) by (by rewrite Hs1).
  assert (Hf1 : file_list s1 !! i = Some f1)
    by (rewrite Hl1; by apply list_lookup_insert_eq).
  assert (Hop1 : opened f1 = true) by (by rewrite Ho1).
  pose proof Hinv1 as (_ & Hext1 & _).
  pose proof (file_ok_size _ _ (file_ok_lookup s1 i f1 Hext1 Hf1)) as Hfs1.
  assert (Hold : ∀ q, 0 ≤ q < size f →
            extent_byte (storage s1) (start_block f1) q
            = extent_byte (storage s) (start_block f) q).
  { intros q Hq. destruct (own_extent s i f q Hext Hf Hq) as (Hnum & H2 & Hin).
    destruct (Hkeep Hnum) as [-> _]. apply extent_byte_frame.
    apply Hst1; [done|by left]. }
  assert (Hothers : ∀ st', (∀ b, ¬ in_extent f1 b → st' !! b = storage s1 !! b) →
            ∀ j g, j ≠ i → file_list s !! j = Some g →
              map (extent_byte st' (start_block g)) (seqZ 0 (size g)) = file_bytes s g).
  { intros st' Hframe j g Hj Hg. unfold file_bytes. apply map_seqZ_ext. intros q Hq.
    assert (Hg1 : file_list s1 !! j = Some g)
      by (rewrite Hl1; by rewrite list_lookup_insert_ne).
    destruct (other_extent s1 i j f1 g q Hext1 Hf1 Hg1 ltac:(done) ltac:(lia))
      as (H2 & _ & Hnin).
    apply extent_byte_frame. rewrite Hframe by done. apply Hst1; [done|by right]. }
  rewrite Hf1.
  destruct (decide (offset >= size f1)) as [Hge|Hlt].
  - assert (Esz : size f1 = size f ∧ offset = size f ∧ (sz = 0 ∨
                    expand_file_size i (offset + sz) s = (ERR_FOUND, s))).
    { destruct Hsize1 as [E|(-> & _ & E)]; [|split_and!; [done|lia|by right]].
      split_and!; [lia|lia|left; lia]. }
    destruct Esz as (Es & Eo & Ecase).
    exists f1, 0, s1. split_and!; try done; try lia.
    + destruct Ecase as [->|E]; [by left|right; split; [done|lia]].
    + rewrite Z.add_0_r. change (take (Z.to_nat 0) data) with (@nil Z).
      rewrite app_nil_l, take_drop. unfold file_bytes. rewrite Es.
      apply map_seqZ_ext. intros q Hq. apply Hold. lia.
    + intros j g Hj Hg. unfold file_bytes at 1.
      exact (Hothers (storage s1) (λ b _, eq_refl) j g Hj Hg).
  - rewrite (u32_small (size f1 - offset)) by (unfold is_u32; lia).
    set (cnt := if decide (size f1 < offset + sz) then size f1 - offset else sz).
    assert (Hcnt : 0 ≤ cnt ≤ sz ∧ offset + cnt ≤ size f1 ∧
                   size f1 = Z.max (size f) (offset + cnt) ∧
                   (cnt = sz ∨ (expand_file_size i (offset + sz) s = (ERR_FOUND, s) ∧
                                cnt = size f - offset))).
    { subst cnt. destruct (decide _).
      - destruct Hsize1 as [E|(-> & _ & E)]; [lia|]. split_and!; try lia. by right.
      - destruct Hsize1 as [E|(-> & ? & E)]; [|lia]. split_and!; lia. }
    clearbody cnt. destruct Hcnt as (Hc1 & Hc2 & Hc3 & Hc4).
    destruct (write_transfer s1 i f1 data offset cnt Hext1 Hblk1 Hf1)
      as (st' & -> & Hframe & _ & Hbytes); try (unfold is_u32; lia).
    exists f1, cnt, (set_storage s1 st'). split_and!; try done; try lia.
    + unfold file_bytes at 1. cbn [storage set_storage]. rewrite Hc3.
      apply bytes_after_write; [lia|lia|].
      intros q Hq. rewrite Hbytes by lia. destruct (decide _); [done|].
      apply Hold. lia.
    + intros j g Hj Hg. unfold file_bytes at 1. cbn [storage set_storage].
      exact (Hothers st' Hframe j g Hj Hg).
Qed.

Lemma slot_record (s : fs) (d : nat) (i : nat) :
  fd_inv s → file_array s !! d = Some (Some i) →
  ∃ f, file_list s !! i = Some f ∧ opened f = true.
Proof.
  intros (_ & _ & _ & _ & _ & _ & Hused & _) Hslot.
  by destruct (Hused _ _ Hslot) as (_ & f & Hf & Ho); exists f.
Qed.

Lemma write_past_end (fd : Z) (data : list Z) (sz offset : Z) (s : fs) (i : nat)
    (f : file) :
  fd ≠ 0 → fd < MAX_NUM_FD →
  file_array s !! Z.to_nat fd = Some (Some i) →
  file_list s !! i = Some f → opened f = true → offset > size f →
  file_system_write_to_file fd data sz offset s = (0, s).
Proof.
  intros Hfd0 Hfd Hslot Hf Ho Hoff. unfold file_system_write_to_file.
  rewrite decide_False by lia. rewrite Hslot, Hf, Ho. cbn [negb].
  destruct (decide (size f < u32 (offset + sz))) as [Hlt|Hge].
  - rewrite !bool_decide_eq_true_2 by done. done.
  - rewrite bool_decide_eq_false_2 by done. cbn [andb].
    rewrite Hf. by rewrite decide_True by lia.
Qed.

(** X16: Reading [sz] bytes at [offset] through an open descriptor returns
    the bytes of the file's contents from [offset] on, cut at the end of
    the file, with their count, and leaves the state as it is. *)
Theorem read_returns_file_contents (fd sz offset : Z) (s : fs) (i : nat) (f : file) :
  reachable s → 1 ≤ fd < MAX_NUM_FD →
  file_array s !! Z.to_nat fd = Some (Some i) →
  file_list s !! i = Some f →
  is_u32 sz → is_u32 offset → offset + sz < 4294967296 →
  file_system_read_from_file fd sz offset s
  = (take (Z.to_nat sz) (drop (Z.to_nat offset) (file_bytes s f)),
     Z.min sz (Z.max 0 (size f - offset)), s).
Proof.
  intros Hr Hfd Hslot Hf Hsz Hoff Hsum.
  pose proof (reachable_inv s Hr) as Hinv. pose proof Hinv as (Hfdi & _).
  destruct (slot_record s _ i Hfdi Hslot) as (f' & Hf' & Ho).
  assert (f' = f) as -> by congruence.
  apply (read_at fd sz offset s i f); try done; try lia.
  by apply reachable_blocks.
Qed.

Lemma read_returns_file_contents_witness :
  file_system_read_from_file 3 10 0 two_files
  = (take (Z.to_nat 10) (drop (Z.to_nat 0)
       (file_bytes two_files (File name_b 3 1 1 22 true))),
     Z.min 10 (Z.max 0 (size (File name_b 3 1 1 22 true) - 0)), two_files).
Proof.
  apply (read_returns_file_contents 3 10 0 two_files 1 (File name_b 3 1 1 22 true)
           two_files_reachable).
  - unfold MAX_NUM_FD. lia.
  - vm_compute. reflexivity.
  - vm_compute. reflexivity.
  - unfold is_u32. lia.
  - unfold is_u32. lia.
  - lia.
Defined.

(** X17: A read never changes the state, whatever the descriptor: not the
    records, not the descriptor table, not the directory, and no block of
    the device. *)
Theorem read_leaves_state (fd sz offset : Z) (s : fs) :
  reachable s → is_u32 fd → is_u32 sz → is_u32 offset →
  offset + sz < 4294967296 →
  snd (file_system_read_from_file fd sz offset s) = s.
Proof.
  intros Hr Hfd Hsz Hoff Hsum.
  pose proof (reachable_inv s Hr) as Hinv. pose proof Hinv as (Hfdi & _).
  destruct (decide (fd = 0 ∨ fd >= MAX_NUM_FD)) as [Hbad|Hok].
  { unfold file_system_read_from_file. by rewrite decide_True. }
  destruct (file_array s !! Z.to_nat fd) as [[i|]|] eqn:Hslot.
  - destruct (slot_record s _ i Hfdi Hslot) as (f & Hf & Ho).
    rewrite (read_at fd sz offset s i f); try done; try lia.
    by apply reachable_blocks.
  - unfold file_system_read_from_file. by rewrite decide_False, Hslot.
  - unfold file_system_read_from_file. by rewrite decide_False, Hslot.
Qed.

Lemma read_leaves_state_witness :
  snd (file_system_read_from_file 3 10 0 two_files) = two_files.
Proof.
  apply (read_leaves_state 3 10 0 two_files two_files_reachable);
    unfold is_u32; lia.
Defined.

(** X18: Writing [sz] bytes at an offset inside the file or at its end: the
    bytes written replace the contents from [offset] on and the size
    becomes the larger of the old size and the end of the written range.
    Fewer than [sz] bytes are written only when the file could not be
    grown. *)
Theorem write_replaces_contents (fd : Z) (data : list Z) (sz offset : Z) (s : fs)
    (i : nat) (f : file) :
  reachable s → 1 ≤ fd < MAX_NUM_FD →
  file_array s !! Z.to_nat fd = Some (Some i) →
  file_list s !! i = Some f →
  is_u32 sz → is_u32 offset → offset + sz < 4294967296 →
  sz ≤ Z.of_nat (length data) → offset ≤ size f →
  ∃ f2 w s',
    file_system_write_to_file fd data sz offset s = (w, s') ∧
    0 ≤ w ≤ sz ∧
    (w = sz ∨
     (expand_file_size i (offset + sz) s = (ERR_FOUND, s) ∧ w = size f - offset)) ∧
    file_list s' !! i = Some f2 ∧
    filename f2 = filename f ∧
    size f2 = Z.max (size f) (offset + w) ∧
    file_bytes s' f2
    = take (Z.to_nat offset) (file_bytes s f) ++ take (Z.to_nat w) data
      ++ drop (Z.to_nat (offset + w)) (file_bytes s f).
Proof.
  intros Hr Hfd Hslot Hf Hsz Hoff Hsum Hdata Hle.
  pose proof (reachable_inv s Hr) as Hinv. pose proof Hinv as (Hfdi & _).
  destruct (slot_record s _ i Hfdi Hslot) as (f' & Hf' & Ho).
  assert (f' = f) as -> by congruence.
  destruct (write_at fd data sz offset s i f Hinv (reachable_blocks s Hr))
    as (f2 & w & s' & E & Hw & Hl & _ & Hn & _ & Hs & Hc & Hb & _); try done; try lia.
  exists f2, w, s'. split_and!; try done; try lia.
  rewrite Hl. apply list_lookup_insert_eq. by eapply lookup_lt_Some.
Qed.

Lemma write_replaces_contents_witness :
  ∃ f2 w s',
    file_system_write_to_file 2 [67; 68] 2 1 two_files = (w, s') ∧
    0 ≤ w ≤ 2 ∧
    (w = 2 ∨
     (expand_file_size 0 (1 + 2) two_files = (ERR_FOUND, two_files) ∧
      w = size (File name_a 2 1 1 6 true) - 1)) ∧
    file_list s' !! 0%nat = Some f2 ∧
    filename f2 = filename (File name_a 2 1 1 6 true) ∧
    size f2 = Z.max (size (File name_a 2 1 1 6 true)) (1 + w) ∧
    file_bytes s' f2
    = take (Z.to_nat 1) (file_bytes two_files (File name_a 2 1 1 6 true))
      ++ take (Z.to_nat w) [67; 68]
      ++ drop (Z.to_nat (1 + w)) (file_bytes two_files (File name_a 2 1 1 6 true)).
Proof.
  apply (write_replaces_contents 2 [67; 68] 2 1 two_files 0 (File name_a 2 1 1 6 true)
           two_files_reachable).
  - unfold MAX_NUM_FD. lia.
  - vm_compute. reflexivity.
  - vm_compute. reflexivity.
  - unfold is_u32. lia.
  - unfold is_u32. lia.
  - lia.
  - cbn [length]. lia.
  - cbn [size]. lia.
Defined.

(** X19: Reading back through the same descriptor, at the same offset, as
    many bytes as a write reported returns exactly the bytes written. *)
Theorem read_back_what_was_written (fd : Z) (data : list Z) (sz offset : Z) (s : fs)
    (i : nat) :
  reachable s → 1 ≤ fd < MAX_NUM_FD →
  file_array s !! Z.to_nat fd = Some (Some i) →
  is_u32 sz → is_u32 offset → offset + sz < 4294967296 →
  sz ≤ Z.of_nat (length data) →
  fst (file_system_read_from_file fd
         (fst (file_system_write_to_file fd data sz offset s)) offset
         (snd (file_system_write_to_file fd data sz offset s)))
  = (take (Z.to_nat (fst (file_system_write_to_file fd data sz offset s))) data,
     fst (file_system_write_to_file fd data sz offset s)).
Proof.
  intros Hr Hfd Hslot Hsz Hoff Hsum Hdata.
  pose proof (reachable_inv s Hr) as Hinv. pose proof Hinv as (Hfdi & Hext & _).
  pose proof (reachable_blocks s Hr) as Hblk.
  destruct (slot_record s _ i Hfdi Hslot) as (f & Hf & Ho).
  pose proof (file_ok_size _ _ (file_ok_lookup s i f Hext Hf)) as Hfs.
  unfold is_u32 in Hsz, Hoff.
  destruct (decide (offset ≤ size f)) as [Hle|Hgt].
  - pose proof (write_inv fd data sz offset s Hinv) as Hinv'.
    pose proof (blocks_inv_write fd data sz offset s Hinv Hblk ltac:(done)) as Hblk'.
    destruct (write_at fd data sz offset s i f Hinv Hblk)
      as (f2 & w & s' & E & Hw & Hl & Hfa & Hn & Ho2 & Hs & Hc & Hb & _);
      try done; try lia.
    rewrite E in *. cbn [fst snd] in *.
    assert (Hf2 : file_list s' !! i = Some f2).
    { rewrite Hl. apply list_lookup_insert_eq. by eapply lookup_lt_Some. }
    rewrite (read_at fd w offset s' i f2); try done; try lia;
      [|by rewrite Hfa|unfold is_u32; lia].
    cbn [fst]. f_equal; [|lia].
    rewrite Hb. unfold peek.
    rewrite drop_app_length'
      by (rewrite length_take, length_file_bytes; lia).
    apply take_app_length'. rewrite length_take. lia.
  - rewrite (write_past_end fd data sz offset s i f) by (try done; lia).
    cbn [fst snd]. rewrite (read_at fd 0 offset s i f); try done; try lia.
    cbn [fst]. f_equal. lia.
Qed.

Lemma read_back_what_was_written_witness :
  fst (file_system_read_from_file 2
         (fst (file_system_write_to_file 2 [67; 68] 2 1 two_files)) 1
         (snd (file_system_write_to_file 2 [67; 68] 2 1 two_files)))
  = (take (Z.to_nat (fst (file_system_write_to_file 2 [67; 68] 2 1 two_files))) [67; 68],
     fst (file_system_write_to_file 2 [67; 68] 2 1 two_files)).
Proof.
  apply (read_back_what_was_written 2 [67; 68] 2 1 two_files 0 two_files_reachable).
  - unfold MAX_NUM_FD. lia.
  - vm_compute. reflexivity.
  - unfold is_u32. lia.
  - unfold is_u32. lia.
  - lia.
  - cbn [length]. lia.
Defined.

(** ** What the other calls leave of a file *)








(** ** When open succeeds, and what it creates *)





(** X23: In FILE_OPEN_MODE, open never creates anything: the names on record,
    the directory buffer and the device are as before. *)
Theorem open_mode_never_creates (uo : Z) (ub : bool) (name : list Z) (s : fs) :
  map filename (file_list (snd (file_system_open_file uo ub name FILE_OPEN_MODE s)))
  = map filename (file_list s) ∧
  dir_data (snd (file_system_open_file uo ub name FILE_OPEN_MODE s)) = dir_data s ∧
  dir_data_ptr (snd (file_system_open_file uo ub name FILE_OPEN_MODE s)) = dir_data_ptr s ∧
  storage (snd (file_system_open_file uo ub name FILE_OPEN_MODE s)) = storage s.
Proof.
  unfold file_system_open_file. rewrite decide_False by (intros H; apply H; by left).
  destruct (find_file name (file_list s) 0 None) as [[i|]|]; [| |done].
  - destruct (install_fd_shape i s) as [->|(bm' & fd & Hs & [->|(-> & _)])];
      [done|done|].
    cbn [snd]. unfold update_file. fs_simpl.
    destruct (file_list s !! i) as [f|] eqn:Hf; fs_simpl; [|done].
    split_and!; try done.
    change (map filename ?l) with (filename <$> l).
    rewrite list_fmap_insert. apply list_insert_id.
    by rewrite list_lookup_fmap, Hf.
  - by rewrite decide_False by done.
Qed.



(** ** The directory buffer and the partition size *)



Lemma read_partition (fd sz offset : Z) (s : fs) :
  partition_num_blocks (snd (file_system_read_from_file fd sz offset s))
  = partition_num_blocks s ∧
  fd_bitmap (snd (file_system_read_from_file fd sz offset s)) = fd_bitmap s.
Proof.
  unfold file_system_read_from_file.
  destruct (decide _); [done|].
  destruct (file_array s !! Z.to_nat fd) as [[i|]|]; [|done|done].
  destruct (file_list s !! i) as [f|]; [|done].
  destruct (negb (opened f)); [done|].
  destruct (decide _); [done|].
  destruct (read_loop _ _ _ _ _ _ _ _ _) as [[out r] st]. done.
Qed.

(** The partition size given to initialize_file_system stays the bound
    of the allocator through every call. *)
Lemma partition_size_constant (c : call) (s : fs) :
  reachable s → call_ok c →
  partition_num_blocks (exec c s) = partition_num_blocks s.
Proof.
  intros Hr Hok. pose proof (reachable_inv s Hr) as Hinv.
  destruct c; cbn [exec].
  - apply open_partition.
  - by apply write_partition.
  - apply read_partition.
  - apply close_partition.
  - done.
  - by rewrite restart_eq.
Qed.


(** ** Block primitives, growth that fails, and the first initialisation *)

(** X26: [write_to_block] replaces the bytes [o .. o + n - 1] of the block and
    keeps its other bytes, a block that is not on the device counting as
    all zeros; reading the same range back returns the bytes written. *)
Theorem write_to_block_patches (data : list Z) (b o n : Z) (st : gmap Z (list Z)) :
  is_u32 b → 0 ≤ o → 0 ≤ n → o + n ≤ STORAGE_BLOCK_SIZE →
  n ≤ Z.of_nat (length data) →
  (∀ blk, st !! b = Some blk → length blk = 512%nat) →
  let st' := <[b := poke (default zero_buf (st !! b)) o (take (Z.to_nat n) data)]> st in
  write_to_block data b o n st = (n, st') ∧
  read_from_block b o n st' = (take (Z.to_nat n) data, n, st').
Proof.
  intros Hb Ho Hn Hon Hd Hfull st'. unfold STORAGE_BLOCK_SIZE in Hon.
  assert (Hlen : length (default zero_buf (st !! b)) = 512%nat).
  { destruct (st !! b) as [blk|] eqn:E; [by apply Hfull|done]. }
  assert (Ht : length (take (Z.to_nat n) data) = Z.to_nat n) by (rewrite length_take; lia).
  split.
  - destruct (st !! b) as [blk|] eqn:E.
    + by apply write_to_block_full.
    + subst st'. cbn [default from_option id].
      unfold write_to_block. unfold STORAGE_BLOCK_SIZE.
      rewrite (u32_small (o + n)) by (unfold is_u32; lia).
      rewrite decide_False by lia.
      destruct (decide (o = 0 ∧ n = 512)) as [[-> ->]|Hpart].
      * rewrite bool_decide_eq_true_2 by done. rewrite decide_True by done.
        rewrite write_blocks_one by (try done; rewrite length_memcpy; done).
        by rewrite decide_True by lia.
      * rewrite bool_decide_eq_false_2 by done.
        destruct (read_blocks_one_cases b st Hb) as (buf & r & -> & _ & Hmiss & _).
        destruct (Hmiss E) as [-> ->]. rewrite E.
        rewrite decide_True by done.
        rewrite write_blocks_one by (try done; rewrite length_memcpy; done).
        rewrite decide_True by lia. unfold memcpy. by rewrite insert_insert_eq.
  - rewrite (read_from_block_full b o n
               (poke (default zero_buf (st !! b)) o (take (Z.to_nat n) data)));
      try done.
    + f_equal. f_equal. unfold peek, poke.
      rewrite drop_app_length' by (rewrite length_take; lia).
      apply take_app_length'. lia.
    + subst st'. by rewrite lookup_insert_eq.
    + rewrite length_poke; [done|done|lia].
Qed.

Lemma write_to_block_patches_witness :
  let st' := <[5 := poke (default zero_buf ((∅ : gmap Z (list Z)) !! 5)) 3
                       (take (Z.to_nat 2) [7; 8])]> (∅ : gmap Z (list Z)) in
  write_to_block [7; 8] 5 3 2 ∅ = (2, st') ∧
  read_from_block 5 3 2 st' = (take (Z.to_nat 2) [7; 8], 2, st').
Proof.
  apply (write_to_block_patches [7; 8] 5 3 2 ∅).
  - unfold is_u32. lia.
  - lia.
  - lia.
  - unfold STORAGE_BLOCK_SIZE. lia.
  - cbn [length]. lia.
  - intros blk H. rewrite lookup_empty in H. discriminate H.
Defined.

(** X27: Reading from a block that is not on the device creates the block,
    zero-filled, and returns zeros. *)
Theorem read_missing_block (b o n : Z) (st : gmap Z (list Z)) :
  is_u32 b → 0 ≤ o → 0 ≤ n → o + n ≤ STORAGE_BLOCK_SIZE →
  st !! b = None →
  read_from_block b o n st = (replicate (Z.to_nat n) 0, n, <[b := zero_buf]> st).
Proof.
  intros Hb Ho Hn Hon Hst. unfold read_from_block. unfold STORAGE_BLOCK_SIZE in *.
  rewrite (u32_small (o + n)) by (unfold is_u32; lia).
  rewrite decide_False by lia.
  destruct (read_blocks_one_cases b st Hb) as (buf & r & -> & _ & Hmiss & _).
  destruct (Hmiss Hst) as [-> ->]. rewrite Hst. rewrite decide_True by done.
  f_equal. f_equal. unfold peek, zero_buf. change (Z.to_nat STORAGE_BLOCK_SIZE) with 512%nat.
  rewrite drop_replicate, take_replicate. f_equal. lia.
Qed.

Lemma read_missing_block_witness :
  read_from_block 5 3 2 ∅ = (replicate (Z.to_nat 2) 0, 2, <[5 := zero_buf]> ∅).
Proof.
  apply (read_missing_block 5 3 2 ∅).
  - unfold is_u32. lia.
  - lia.
  - lia.
  - unfold STORAGE_BLOCK_SIZE. lia.
  - apply lookup_empty.
Defined.

(** X28: A write at the end of a file that needs new blocks returns 0 and
    changes nothing when another file starts in the blocks right after
    the extent, or when those blocks reach the end of the partition. *)
Theorem write_at_end_blocked (fd : Z) (data : list Z) (sz : Z) (s : fs) (i : nat)
    (f : file) :
  reachable s → 1 ≤ fd < MAX_NUM_FD →
  file_array s !! Z.to_nat fd = Some (Some i) →
  file_list s !! i = Some f → 0 < size f →
  0 < sz → size f + sz < 4294967296 →
  size f mod STORAGE_BLOCK_SIZE = 0 ∨
    sz > STORAGE_BLOCK_SIZE - size f mod STORAGE_BLOCK_SIZE →
  tail_blocked (file_list s) i (extent_end f) (extent_end f + blocks_for sz) ∨
    extent_end f + blocks_for sz >= partition_num_blocks s →
  file_system_write_to_file fd data sz (size f) s = (0, s).
Proof.
  intros Hr Hfd Hslot Hf Hpos Hsz Hsum Hleft Hblocked.
  pose proof (reachable_inv s Hr) as Hinv. pose proof Hinv as (Hfdi & Hext & _).
  destruct (slot_record s _ i Hfdi Hslot) as (f' & Hf' & Ho).
  assert (f' = f) as -> by congruence.
  pose proof (file_ok_lookup s i f Hext Hf) as Hok.
  assert (Hnum : 0 < num_blocks f) by (destruct Hok as [?|?]; lia).
  destruct (file_ok_end _ _ Hok Hnum) as (_ & Hlt & _).
  assert (E : expand_file_size i (size f + sz) s = (ERR_FOUND, s)).
  { destruct (expand_file_size_blocks s i f (size f + sz) Hinv Hf)
      as [E|(f1 & st' & Hg & _)]; [unfold is_u32; lia|lia|done|].
    exfalso. destruct Hg as (_ & _ & _ & _ & [H|[H|H]]).
    - unfold STORAGE_BLOCK_SIZE in *. lia.
    - lia.
    - destruct H as (_ & _ & _ & _ & Htf & Hroom).
      replace (size f + sz - size f) with sz in * by lia.
      destruct Hblocked as [Hb|Hb]; [|lia].
      apply (tail_free_blocked _ _ _ _ Hf Hlt) in Hb. congruence. }
  unfold file_system_write_to_file.
  rewrite decide_False by (unfold MAX_NUM_FD in *; lia).
  rewrite Hslot, Hf, Ho. cbn [negb].
  rewrite (u32_small (size f + sz)) by (unfold is_u32; lia).
  rewrite (bool_decide_eq_false_2 (size f > size f)) by lia. rewrite andb_false_r.
  rewrite decide_True by lia. rewrite E. cbn [snd]. rewrite Hf.
  by rewrite decide_True by lia.
Qed.

Lemma write_at_end_blocked_witness :
  file_system_write_to_file 2 [] 600 (size (File name_a 2 1 1 6 true)) small_partition
  = (0, small_partition).
Proof.
  apply (write_at_end_blocked 2 [] 600 small_partition 0 (File name_a 2 1 1 6 true)
           small_partition_reachable).
  - unfold MAX_NUM_FD. lia.
  - vm_compute. reflexivity.
  - vm_compute. reflexivity.
  - cbn [size]. lia.
  - lia.
  - cbn [size]. lia.
  - right. vm_compute. reflexivity.
  - right. vm_compute. discriminate.
Defined.




(** ** The test program: what was written compares equal *)



